(** * Praxis: config-tree build, layer base and ambient context

    A shallow embedding of the parts of [praxis/pax_fiddle.py] and
    [praxis/base_layer.py] that the specification's properties are about,
    followed by the properties themselves.

    Conventions of the embedding:
    - Python [str] is [string]; Python [int] is [Z] (or [nat] for counters
      and lengths); a Python [dict] used as a map is a [gmap], an ordered
      keyword-argument dict is an association list.
    - A raised exception is the [inl]/[None] branch of the result.
    - Object identity ([is], [id(...)]) is a natural number carried by the
      object.
    - Tensors are opaque: only the attributes the code inspects ([dtype],
      [ndim]) and an identifying payload are kept. *)

From Stdlib Require Import ZArith Ascii String DecimalString DecimalNat Floats.
From stdpp Require Import base option list gmap strings.

Set Warnings "-register-all".
(* Decimal float literals are read as the nearest binary64 value, as Python
   reads them. *)
Set Warnings "-inexact-float".

(** ** Python string helpers *)

Module PyStr.

(** [key[i:]] for [0 <= i]. *)
Fixpoint drop (i : nat) (s : string) : string :=
  match i, s with
  | O, _ => s
  | S _, EmptyString => EmptyString
  | S i', String _ s' => drop i' s'
  end.

(** [key[:i]] for [0 <= i]. *)
Fixpoint take (i : nat) (s : string) : string :=
  match i, s with
  | O, _ => EmptyString
  | S _, EmptyString => EmptyString
  | S i', String c s' => String c (take i' s')
  end.

(** [key.endswith(suffix)]. *)
Definition endswith (key suffix : string) : bool :=
  let n := String.length key in
  let m := String.length suffix in
  (m <=? n)%nat && String.eqb (drop (n - m) key) suffix.

(** [key[:-n]] for [0 < n]: everything but the last [n] characters (the
    empty string when [key] is shorter than [n]). *)
Definition slice_to_neg (key : string) (n : nat) : string :=
  take (String.length key - n) key.

(** [c.lower()] on one ASCII character. *)
Definition lower_ascii (c : ascii) : ascii :=
  let n := nat_of_ascii c in
  if (65 <=? n)%nat && (n <=? 90)%nat then ascii_of_nat (n + 32) else c.

(** [s.lower()] (ASCII). *)
Fixpoint lower (s : string) : string :=
  match s with
  | EmptyString => EmptyString
  | String c s' => String (lower_ascii c) (lower s')
  end.

(** [str(n)] for a non-negative [int]. *)
Definition str (n : nat) : string :=
  NilEmpty.string_of_uint (Nat.to_uint n).

(** The characters that [repr] names by their code. *)
Definition squote : ascii := "039"%char.
Definition dquote : ascii := "034"%char.
Definition backslash : ascii := "092"%char.

(** [c in s] for a character [c]. *)
Fixpoint contains (c : ascii) (s : string) : bool :=
  match s with
  | EmptyString => false
  | String c' s' => Ascii.eqb c c' || contains c s'
  end.

(** [c.isprintable()] for a code point below 256: the ASCII characters
    from the space to the tilde, and the Latin-1 characters after the
    no-break space other than the soft hyphen. *)
Definition isprintable (c : ascii) : bool :=
  let n := nat_of_ascii c in
  ((32 <=? n)%nat && (n <=? 126)%nat) || ((161 <=? n)%nat && negb (n =? 173)%nat).

(** The hexadecimal digit of [n < 16], in lower case. *)
Definition hex_digit (n : nat) : ascii :=
  match String.get n "0123456789abcdef" with
  | Some c => c
  | None => "0"%char
  end.

(** One character of [repr(s)], between the quotes [quote]. *)
Definition repr_char (quote c : ascii) : string :=
  let n := nat_of_ascii c in
  if Ascii.eqb c quote || Ascii.eqb c backslash then String backslash (String c "")
  else if (n =? 9)%nat then String backslash "t"
  else if (n =? 10)%nat then String backslash "n"
  else if (n =? 13)%nat then String backslash "r"
  else if isprintable c then String c ""
  else String backslash
         (String "x" (String (hex_digit (n / 16)) (String (hex_digit (n mod 16)) ""))).

Fixpoint repr_chars (quote : ascii) (s : string) : string :=
  match s with
  | EmptyString => EmptyString
  | String c s' => repr_char quote c +:+ repr_chars quote s'
  end.

(** [repr(s)] for a [str] of code points below 256: single quotes, unless
    the string holds a single quote and no double quote; the quote in use,
    the backslash and the characters that are not printable are escaped. *)
Definition repr (s : string) : string :=
  let quote := if contains squote s && negb (contains dquote s) then dquote else squote in
  String quote (repr_chars quote s +:+ String quote "").

End PyStr.

(** ** Summary types and summary keys ([base_layer.py]) *)

Module Summary.
Import PyStr.

Inductive SummaryType :=
| SCALAR | IMAGE | TEXT | AUDIO | VIDEO | HISTOGRAM
| AGGREGATE_SCALAR | AGGREGATE_IMAGE.

#[global] Instance SummaryType_eq_dec : EqDecision SummaryType.
Proof. solve_decision. Defined.

(** [t.name] *)
Definition name (t : SummaryType) : string :=
  match t with
  | SCALAR => "SCALAR"
  | IMAGE => "IMAGE"
  | TEXT => "TEXT"
  | AUDIO => "AUDIO"
  | VIDEO => "VIDEO"
  | HISTOGRAM => "HISTOGRAM"
  | AGGREGATE_SCALAR => "AGGREGATE_SCALAR"
  | AGGREGATE_IMAGE => "AGGREGATE_IMAGE"
  end.

(** [t.value] *)
Definition value (t : SummaryType) : Z :=
  match t with
  | SCALAR => 1
  | IMAGE => 2
  | TEXT => 5
  | AUDIO => 6
  | VIDEO => 7
  | HISTOGRAM => 8
  | AGGREGATE_SCALAR => 3
  | AGGREGATE_IMAGE => 4
  end.

(** [for t in SummaryType]: an [enum.Enum] iterates over its members in
    definition order. *)
Definition members : list SummaryType :=
  [SCALAR; IMAGE; TEXT; AUDIO; VIDEO; HISTOGRAM;
   AGGREGATE_SCALAR; AGGREGATE_IMAGE].

Definition get_summary_base_type (summary_type : SummaryType) : SummaryType :=
  if decide (summary_type = AGGREGATE_SCALAR) then SCALAR
  else if decide (summary_type = AGGREGATE_IMAGE) then IMAGE
  else summary_type.

Definition get_summary_type_suffix (summary_type : SummaryType) : string :=
  "_" +:+ lower (name (get_summary_base_type summary_type)).

(** The [for] loop of [get_summary_type_from_key], over the members still
    to be tried; [None] is the [ValueError] raised after the loop. *)
Fixpoint type_from_key_loop (ts : list SummaryType) (key : string)
  : option SummaryType :=
  match ts with
  | [] => None
  | t :: ts' =>
      if endswith key ("_" +:+ lower (name t)) then Some t
      else type_from_key_loop ts' key
  end.

Definition get_summary_type_from_key (key : string) : option SummaryType :=
  type_from_key_loop members key.

Fixpoint trim_loop (ts : list SummaryType) (key : string) : option string :=
  match ts with
  | [] => None
  | t :: ts' =>
      let suffix := "_" +:+ lower (name t) in
      if endswith key suffix then Some (slice_to_neg key (String.length suffix))
      else trim_loop ts' key
  end.

Definition trim_summary_type_from_key (key : string) : option string :=
  trim_loop members key.

End Summary.

(** ** Exceptions and results *)

Module Py.

(** The exceptions the modelled code raises (and the ones a user
    constructor may raise), with their message or payload. *)
Inductive exn :=
| AssertionError
| ValueError (msg : string)
| KeyError (key : string)
| AttributeError (msg : string)
| IndexError
| TaggedValueNotFilledError (msg : string)
| UserError (code : nat).

(** A computation that returns or raises. *)
Definition result (A : Type) : Type := exn + A.

Definition raise {A} (e : exn) : result A := inl e.

#[global] Instance result_ret : MRet result := λ A a, inr a.
#[global] Instance result_bind : MBind result := λ A B k m,
  match m with
  | inl e => inl e
  | inr a => k a
  end.

(** [assert c] *)
Definition assert (c : bool) : result unit :=
  if c then mret () else raise AssertionError.

End Py.

(** ** Tensors *)

Module Tensor.

Inductive DType := float16 | bfloat16 | float32 | float64 | int8 | int32 | bool_.

#[global] Instance DType_eq_dec : EqDecision DType.
Proof. solve_decision. Defined.

(** [jnp.issubdtype(d, jnp.floating)] *)
Definition is_floating (d : DType) : bool :=
  match d with
  | float16 | bfloat16 | float32 | float64 => true
  | _ => false
  end.

(** A [JTensor]: its dtype, its rank and an opaque token for its contents. *)
Record JTensor := { dtype : DType; ndim : nat; data : nat }.

#[global] Instance JTensor_eq_dec : EqDecision JTensor.
Proof. solve_decision. Defined.

(** [x.astype(d)] *)
Definition astype (x : JTensor) (d : DType) : JTensor :=
  {| dtype := d; ndim := ndim x; data := data x |}.

(** [jnp.expand_dims(x, 0)] *)
Definition expand_dims (x : JTensor) : JTensor :=
  {| dtype := dtype x; ndim := S (ndim x); data := data x |}.

End Tensor.

(** ** Config trees and [pax_fiddle.build] ([pax_fiddle.py]) *)

Module Fiddle.
Import Tensor.

Inductive atom :=
| ANone
| ABool (b : bool)
| AInt (z : Z)
| AStr (s : string)
| ADType (d : DType).

#[global] Instance atom_eq_dec : EqDecision atom.
Proof. solve_decision. Defined.

(** A tag is identified by its class name. *)
Definition tag := string.
Definition DoNotBuild : tag := "DoNotBuild".

(** The values a config tree is made of.  A [Buildable] is an
    [fdl.Buildable]: its identity, its callable, its [__arguments__] in
    insertion order and its [__argument_tags__].  An [Object] is what a
    callable returned: its identity (allocation index), the callable and
    the keyword arguments it was called with.  A config DAG is written as
    its unfolding: a [Buildable] that is referenced twice occurs twice,
    with the same [uid]. *)
Inductive value :=
| Atom (a : atom)
| VList (items : list value)
| VDict (items : list (string * value))
| Buildable (uid : nat) (fn_or_cls : string)
    (arguments : list (string * value)) (argument_tags : list (string * list tag))
| Object (uid : nat) (fn_or_cls : string) (kwargs : list (string * value)).

(** [d.get(key, ())] on an association list. *)
Fixpoint get_tags (d : list (string * list tag)) (key : string) : list tag :=
  match d with
  | [] => []
  | (k, ts) :: d' => if decide (k = key) then ts else get_tags d' key
  end.

(** [DoNotBuild in value.__argument_tags__.get(key, ())] *)
Definition do_not_build (argument_tags : list (string * list tag)) (key : string) : bool :=
  bool_decide (DoNotBuild ∈ get_tags argument_tags key).

(** [daglish] path elements and [daglish.path_str]. *)
Inductive path_element :=
| Attr (name : string)
| Index (index : nat)
| Key (key : string).

Definition code (e : path_element) : string :=
  match e with
  | Attr name => "." +:+ name
  | Index index => "[" +:+ PyStr.str index +:+ "]"
  | Key key => "[" +:+ PyStr.repr key +:+ "]"
  end.

Fixpoint path_str (path : list path_element) : string :=
  match path with
  | [] => ""
  | e :: path' => code e +:+ path_str path'
  end.

(** What [build] raises: an exception of the callable, unchanged, or an
    [fdl.BuildError(buildable, path_from_config_root, original_error, (),
    kwargs)]. *)
Inductive build_exn :=
| Reraised (e : Py.exn)
| BuildError (buildable : value) (path_from_config_root : string)
    (original_error : Py.exn) (kwargs : list (string * value)).

(** The state of one [build] call: the memo table of the
    [daglish.MemoizedTraversal] (keyed by [id(value)]), the allocation
    counter, and the log of the constructor calls that returned (the
    [Buildable] built and the object made of it). *)
Record state := {
  memo : gmap nat value;
  next_uid : nat;
  calls : list (value * value)
}.

Definition initial_state : state :=
  {| memo := ∅; next_uid := 0; calls := [] |}.

Definition M (A : Type) : Type := state → build_exn + (A * state).

#[global] Instance M_ret : MRet M := λ A a st, inr (a, st).
#[global] Instance M_bind : MBind M := λ A B k m st,
  match m st with
  | inl e => inl e
  | inr (a, st') => k a st'
  end.

Definition get_state : M state := λ st, inr (st, st).
Definition put_state (st : state) : M unit := λ _, inr ((), st).
Definition throw {A} (e : build_exn) : M A := λ _, inl e.

Section Build.
(** The callables of the config tree: [raises fn kwargs] is the exception
    that calling [fn] with the keyword arguments [kwargs] raises, if it
    raises. *)
Variable raises : string → list (string * value) → option Py.exn.

(** [value.__build__] applied to the keyword arguments, with the
    [try]/[except] around it. *)
Definition __build__ (value : value) (fn_or_cls : string)
    (arguments : list (string * Fiddle.value))
    (current_path : list path_element) : M Fiddle.value :=
  match raises fn_or_cls arguments with
  | Some (Py.TaggedValueNotFilledError msg) =>
      throw (Reraised (Py.TaggedValueNotFilledError msg))
  | Some e =>
      let path_str := "<root>" +:+ path_str current_path in
      throw (BuildError value path_str e arguments)
  | None =>
      st ← get_state;
      let obj := Object (next_uid st) fn_or_cls arguments in
      put_state {| memo := memo st; next_uid := S (next_uid st);
                   calls := calls st ++ [(value, obj)] |};;
      mret obj
  end.

(** [state.call(value, path_element)] of a [daglish.MemoizedTraversal]:
    the traversal function is applied once per object and its result is
    kept under the object's identity.  Only [Buildable]s carry an
    identity here; for atoms and containers the memo is not observable,
    since traversing them again returns the same contents. *)
Definition state_call (traversal_fn : value → list path_element → M value)
    (value : value) (path : list path_element) : M Fiddle.value :=
  match value with
  | Buildable uid _ _ _ =>
      st ← get_state;
      match memo st !! uid with
      | Some result => mret result
      | None =>
          result ← traversal_fn value path;
          st' ← get_state;
          put_state {| memo := <[uid := result]> (memo st');
                       next_uid := next_uid st'; calls := calls st' |};;
          mret result
      end
  | _ => traversal_fn value path
  end.

Fixpoint _build (value : value) (current_path : list path_element)
    {struct value} : M Fiddle.value :=
  match value with
  | Buildable uid fn_or_cls arguments argument_tags =>
      arguments' ←
        (fix items (l : list (string * Fiddle.value)) : M (list (string * Fiddle.value)) :=
           match l with
           | [] => mret []
           | (key, sub_value) :: l' =>
               v ← (if do_not_build argument_tags key then mret sub_value
                    else state_call _build sub_value (current_path ++ [Attr key]));
               rest ← items l';
               mret ((key, v) :: rest)
           end) arguments;
      __build__ value fn_or_cls arguments' current_path
  | VList l =>
      l' ←
        (fix children (i : nat) (l : list Fiddle.value) : M (list Fiddle.value) :=
           match l with
           | [] => mret []
           | child :: l' =>
               v ← state_call _build child (current_path ++ [Index i]);
               rest ← children (S i) l';
               mret (v :: rest)
           end) 0%nat l;
      mret (VList l')
  | VDict d =>
      d' ←
        (fix children (d : list (string * Fiddle.value)) : M (list (string * Fiddle.value)) :=
           match d with
           | [] => mret []
           | (key, child) :: d' =>
               v ← state_call _build child (current_path ++ [Key key]);
               rest ← children d';
               mret ((key, v) :: rest)
           end) d;
      mret (VDict d')
  | _ => mret value
  end.

(** The three loops of [_build], by name. *)
Definition build_items (argument_tags : list (string * list tag))
    (current_path : list path_element) :=
  fix items (l : list (string * Fiddle.value)) : M (list (string * Fiddle.value)) :=
    match l with
    | [] => mret []
    | (key, sub_value) :: l' =>
        v ← (if do_not_build argument_tags key then mret sub_value
             else state_call _build sub_value (current_path ++ [Attr key]));
        rest ← items l';
        mret ((key, v) :: rest)
    end.

Definition build_list (current_path : list path_element) :=
  fix children (i : nat) (l : list Fiddle.value) : M (list Fiddle.value) :=
    match l with
    | [] => mret []
    | child :: l' =>
        v ← state_call _build child (current_path ++ [Index i]);
        rest ← children (S i) l';
        mret (v :: rest)
    end.

Definition build_dict (current_path : list path_element) :=
  fix children (d : list (string * Fiddle.value)) : M (list (string * Fiddle.value)) :=
    match d with
    | [] => mret []
    | (key, child) :: d' =>
        v ← state_call _build child (current_path ++ [Key key]);
        rest ← children d';
        mret ((key, v) :: rest)
    end.

(** [build(buildable)]: the traversal starts at the root with an empty
    memo table and the empty path. *)
Definition build (buildable : value) : build_exn + value :=
  match _build buildable [] initial_state with
  | inl e => inl e
  | inr (v, _) => inr v
  end.

End Build.

End Fiddle.

(** ** [get_fan_in_fan_out] ([base_layer.py]) *)

Module Fan.

(** [shape[i]] with Python's negative indices; [IndexError] out of range. *)
Definition getitem (shape : list Z) (i : Z) : Py.result Z :=
  let n := Z.of_nat (length shape) in
  let j := if (i <? 0)%Z then (n + i)%Z else i in
  if (0 <=? j)%Z && (j <? n)%Z then
    match shape !! Z.to_nat j with
    | Some d => mret d
    | None => Py.raise Py.IndexError
    end
  else Py.raise Py.IndexError.

(** [for i in axes: acc *= shape[i]] *)
Fixpoint multiply_axes (shape : list Z) (axes : list Z) (acc : Z) : Py.result Z :=
  match axes with
  | [] => mret acc
  | i :: axes' => d ← getitem shape i; multiply_axes shape axes' (acc * d)%Z
  end.

(** [list(range(n))] *)
Definition range (n : nat) : list Z := Z.of_nat <$> seq 0 n.

(** The product of the dimensions in [l]. *)
Definition prod (l : list Z) : Z := foldr Z.mul 1%Z l.

(** [l[:-2]] *)
Definition all_but_last_two {A} (l : list A) : list A := take (length l - 2) l.

Definition get_fan_in_fan_out (shape : list Z)
    (fan_in_axes fan_out_axes : option (list Z))
  : Py.result (option Z * option Z) :=
  if bool_decide (shape = []) then mret (None, None)
  else if (length shape <? 1)%nat then mret (Some 1%Z, Some 1%Z)
  else if (length shape =? 1)%nat then
    d ← getitem shape 0; d' ← getitem shape 0; mret (Some d, Some d')
  else
    '(fan_in_axes, fan_out_axes, receptive_field_axis) ←
      match fan_in_axes, fan_out_axes with
      | None, None =>
          mret ([(-2)%Z], [(-1)%Z], all_but_last_two (range (length shape)))
      | _, _ =>
          Py.assert (bool_decide (is_Some fan_in_axes));;
          Py.assert (bool_decide (is_Some fan_out_axes));;
          mret (default [] fan_in_axes, default [] fan_out_axes, [])
      end;
    receptive_field_size ← multiply_axes shape receptive_field_axis 1;
    fan_in ← multiply_axes shape fan_in_axes 1;
    let fan_in := (fan_in * receptive_field_size)%Z in
    fan_out ← multiply_axes shape fan_out_axes 1;
    let fan_out := (fan_out * receptive_field_size)%Z in
    mret (Some fan_in, Some fan_out).

End Fan.

(** ** Layer configs: the typed view ([base_layer.py], class [BaseLayer])

    The dataclass fields that [BaseLayer] declares, with their annotated
    types, and the remaining (subclass) fields of a config as a tree. *)

Module LayerConfig.
Import Tensor.

(** [WeightInit]: [(method, scale)]; [scale] is a Python [float]. *)
Record WeightInit := { method : string; scale : float }.

Definition _DEFAULT_XAVIER_INIT : float := 1.000001%float.

(** [default_param_init()] *)
Definition default_param_init : WeightInit :=
  {| method := "xavier"; scale := _DEFAULT_XAVIER_INIT |}.

Definition is_default_param_init (p : WeightInit) : bool :=
  bool_decide (method p = "xavier")
  && PrimFloat.ltb (PrimFloat.abs (PrimFloat.sub (scale p) _DEFAULT_XAVIER_INIT))
       1e-7%float.

(** Python [==] on [WeightInit]. *)
Definition WeightInit_eqb (a b : WeightInit) : bool :=
  bool_decide (method a = method b) && PrimFloat.eqb (scale a) (scale b).

(** The fields declared by [BaseLayer] (and [name], from the module base
    class), other than the two sharding templates. *)
Record BaseFields := {
  name : option string;
  dtype : DType;
  fprop_dtype : option DType;
  params_init : WeightInit;
  skip_lp_regularization : option bool;
  ici_mesh_shape : option (list Z);
  dcn_mesh_shape : option (list Z);
  contiguous_submeshes : bool;
  mesh_axis_names : option (list string);
  shared_weight_layer_id : option string
}.

(** The declared defaults. *)
Definition base_defaults : BaseFields :=
  {| name := None; dtype := float32; fprop_dtype := None;
     params_init := default_param_init; skip_lp_regularization := None;
     ici_mesh_shape := None; dcn_mesh_shape := None;
     contiguous_submeshes := false; mesh_axis_names := None;
     shared_weight_layer_id := None |}.

Definition BaseFields_eqb (a b : BaseFields) : bool :=
  bool_decide (name a = name b)
  && bool_decide (dtype a = dtype b)
  && bool_decide (fprop_dtype a = fprop_dtype b)
  && WeightInit_eqb (params_init a) (params_init b)
  && bool_decide (skip_lp_regularization a = skip_lp_regularization b)
  && bool_decide (ici_mesh_shape a = ici_mesh_shape b)
  && bool_decide (dcn_mesh_shape a = dcn_mesh_shape b)
  && bool_decide (contiguous_submeshes a = contiguous_submeshes b)
  && bool_decide (mesh_axis_names a = mesh_axis_names b)
  && bool_decide (shared_weight_layer_id a = shared_weight_layer_id b).

(** A value held by a config field.  [Layer] is a [pax_fiddle.Config] whose
    callable is a subclass of [BaseLayer]; [Other] is a [pax_fiddle.Config]
    of any other callable; [Seq] and [Map] are the traversable containers.
    A layer config carries its identity [uid], the names [explicit] of the
    base fields that its [__arguments__] holds (the fields that were set),
    and the values [base] that reading its base fields gives (the default
    where a field is not set).  A field is its name, whether it is tagged
    [DoNotBuild], and its value.  A config DAG is written as its unfolding:
    a layer config that is referenced twice occurs twice, with the same
    [uid]. *)
Inductive config :=
| Leaf (a : Fiddle.atom)
| Seq (items : list config)
| Map (items : list (string * config))
| Layer (uid : nat) (cls : string) (explicit : list string) (base : BaseFields)
    (fields : list (string * bool * config))
| Other (fn : string) (fields : list (string * bool * config)).

(** Python [==] on configs: the callables and the values of the arguments,
    with the defaults for those not set; neither the identity nor which
    arguments were set is compared. *)
Fixpoint config_eqb (x y : config) {struct x} : bool :=
  match x, y with
  | Leaf a, Leaf b => bool_decide (a = b)
  | Seq l, Seq l' =>
      (fix go (l l' : list config) : bool :=
         match l, l' with
         | [], [] => true
         | a :: l, b :: l' => config_eqb a b && go l l'
         | _, _ => false
         end) l l'
  | Map d, Map d' =>
      (fix go (d d' : list (string * config)) : bool :=
         match d, d' with
         | [], [] => true
         | (k, a) :: d, (k', b) :: d' =>
             bool_decide (k = k') && config_eqb a b && go d d'
         | _, _ => false
         end) d d'
  | Layer _ c _ b fs, Layer _ c' _ b' fs' =>
      bool_decide (c = c') && BaseFields_eqb b b' &&
      (fix go (d d' : list (string * bool * config)) : bool :=
         match d, d' with
         | [], [] => true
         | (k, t, a) :: d, (k', t', b) :: d' =>
             bool_decide (k = k') && bool_decide (t = t') && config_eqb a b && go d d'
         | _, _ => false
         end) fs fs'
  | Other c fs, Other c' fs' =>
      bool_decide (c = c') &&
      (fix go (d d' : list (string * bool * config)) : bool :=
         match d, d' with
         | [], [] => true
         | (k, t, a) :: d, (k', t', b) :: d' =>
             bool_decide (k = k') && bool_decide (t = t') && config_eqb a b && go d d'
         | _, _ => false
         end) fs fs'
  | _, _ => false
  end.

(** [p.clone()]: a deep copy; as a value, the same tree. *)
Definition clone {A : Type} (p : A) : A := p.

(** A layer config: what [create_child] and [instantiate_layer] take. *)
Record layer_p := {
  uid : nat;
  cls : string;
  explicit : list string;
  base : BaseFields;
  fields : list (string * bool * config)
}.

Definition to_config (p : layer_p) : config :=
  Layer (uid p) (cls p) (explicit p) (base p) (fields p).

Definition set_name (n : option string) (b : BaseFields) : BaseFields :=
  {| name := n; dtype := dtype b; fprop_dtype := fprop_dtype b;
     params_init := params_init b;
     skip_lp_regularization := skip_lp_regularization b;
     ici_mesh_shape := ici_mesh_shape b; dcn_mesh_shape := dcn_mesh_shape b;
     contiguous_submeshes := contiguous_submeshes b;
     mesh_axis_names := mesh_axis_names b;
     shared_weight_layer_id := shared_weight_layer_id b |}.

Definition set_shared_weight_layer_id (i : option string) (b : BaseFields) : BaseFields :=
  {| name := name b; dtype := dtype b; fprop_dtype := fprop_dtype b;
     params_init := params_init b;
     skip_lp_regularization := skip_lp_regularization b;
     ici_mesh_shape := ici_mesh_shape b; dcn_mesh_shape := dcn_mesh_shape b;
     contiguous_submeshes := contiguous_submeshes b;
     mesh_axis_names := mesh_axis_names b;
     shared_weight_layer_id := i |}.

(** The names in [__arguments__] after an assignment to [field]. *)
Definition mark_explicit (explicit : list string) (field : string) : list string :=
  if bool_decide (field ∈ explicit) then explicit else explicit ++ [field].

(** [p.field = v] for a base field: [b] is the base fields with the new
    value. *)
Definition setattr (field : string) (b : BaseFields) (p : layer_p) : layer_p :=
  {| uid := uid p; cls := cls p; explicit := mark_explicit (explicit p) field;
     base := b; fields := fields p |}.

(** [compatible_hparams(hparams1, hparams2)]: equal once both names are
    cleared. *)
Definition compatible_hparams (hparams1 hparams2 : layer_p) : bool :=
  let p1 := setattr "name" (set_name (Some "") (base hparams1)) hparams1 in
  let p2 := setattr "name" (set_name (Some "") (base hparams2)) hparams2 in
  config_eqb (to_config p1) (to_config p2).

End LayerConfig.

(** ** Copy-down of the base fields ([BaseLayer._copy_base_hparams],
    [BaseLayer._copy_base_params_to_fdl_config]) *)

Module CopyDown.
Import Tensor LayerConfig.

Definition set_dtype (v : DType) (b : BaseFields) : BaseFields :=
  {| name := name b; dtype := v; fprop_dtype := fprop_dtype b;
     params_init := params_init b;
     skip_lp_regularization := skip_lp_regularization b;
     ici_mesh_shape := ici_mesh_shape b; dcn_mesh_shape := dcn_mesh_shape b;
     contiguous_submeshes := contiguous_submeshes b;
     mesh_axis_names := mesh_axis_names b;
     shared_weight_layer_id := shared_weight_layer_id b |}.

Definition set_fprop_dtype (v : option DType) (b : BaseFields) : BaseFields :=
  {| name := name b; dtype := dtype b; fprop_dtype := v;
     params_init := params_init b;
     skip_lp_regularization := skip_lp_regularization b;
     ici_mesh_shape := ici_mesh_shape b; dcn_mesh_shape := dcn_mesh_shape b;
     contiguous_submeshes := contiguous_submeshes b;
     mesh_axis_names := mesh_axis_names b;
     shared_weight_layer_id := shared_weight_layer_id b |}.

Definition set_params_init (v : WeightInit) (b : BaseFields) : BaseFields :=
  {| name := name b; dtype := dtype b; fprop_dtype := fprop_dtype b;
     params_init := v;
     skip_lp_regularization := skip_lp_regularization b;
     ici_mesh_shape := ici_mesh_shape b; dcn_mesh_shape := dcn_mesh_shape b;
     contiguous_submeshes := contiguous_submeshes b;
     mesh_axis_names := mesh_axis_names b;
     shared_weight_layer_id := shared_weight_layer_id b |}.

Definition set_skip_lp_regularization (v : option bool) (b : BaseFields) : BaseFields :=
  {| name := name b; dtype := dtype b; fprop_dtype := fprop_dtype b;
     params_init := params_init b;
     skip_lp_regularization := v;
     ici_mesh_shape := ici_mesh_shape b; dcn_mesh_shape := dcn_mesh_shape b;
     contiguous_submeshes := contiguous_submeshes b;
     mesh_axis_names := mesh_axis_names b;
     shared_weight_layer_id := shared_weight_layer_id b |}.

Definition set_ici_mesh_shape (v : option (list Z)) (b : BaseFields) : BaseFields :=
  {| name := name b; dtype := dtype b; fprop_dtype := fprop_dtype b;
     params_init := params_init b;
     skip_lp_regularization := skip_lp_regularization b;
     ici_mesh_shape := v; dcn_mesh_shape := dcn_mesh_shape b;
     contiguous_submeshes := contiguous_submeshes b;
     mesh_axis_names := mesh_axis_names b;
     shared_weight_layer_id := shared_weight_layer_id b |}.

Definition set_dcn_mesh_shape (v : option (list Z)) (b : BaseFields) : BaseFields :=
  {| name := name b; dtype := dtype b; fprop_dtype := fprop_dtype b;
     params_init := params_init b;
     skip_lp_regularization := skip_lp_regularization b;
     ici_mesh_shape := ici_mesh_shape b; dcn_mesh_shape := v;
     contiguous_submeshes := contiguous_submeshes b;
     mesh_axis_names := mesh_axis_names b;
     shared_weight_layer_id := shared_weight_layer_id b |}.

Definition set_mesh_axis_names (v : option (list string)) (b : BaseFields) : BaseFields :=
  {| name := name b; dtype := dtype b; fprop_dtype := fprop_dtype b;
     params_init := params_init b;
     skip_lp_regularization := skip_lp_regularization b;
     ici_mesh_shape := ici_mesh_shape b; dcn_mesh_shape := dcn_mesh_shape b;
     contiguous_submeshes := contiguous_submeshes b;
     mesh_axis_names := v;
     shared_weight_layer_id := shared_weight_layer_id b |}.

(** [BaseLayer._copy_base_hparams(source, target)]; [target] is mutated in
    place, here returned.  [copy.deepcopy] is the identity on values. *)
Definition _copy_base_hparams (source target : BaseFields) : BaseFields :=
  let target :=
    if bool_decide (dtype target = float32)
    then set_dtype (dtype source) target else target in
  let target :=
    if bool_decide (fprop_dtype target = None)
    then set_fprop_dtype (fprop_dtype source) target else target in
  let target :=
    if bool_decide (skip_lp_regularization target = None)
    then set_skip_lp_regularization (skip_lp_regularization source) target
    else target in
  let target :=
    if bool_decide (ici_mesh_shape target = None)
    then set_ici_mesh_shape (ici_mesh_shape source) target else target in
  let target :=
    if bool_decide (dcn_mesh_shape target = None)
    then set_dcn_mesh_shape (dcn_mesh_shape source) target else target in
  let target :=
    if bool_decide (mesh_axis_names target = None)
    then set_mesh_axis_names (mesh_axis_names source) target else target in
  let target :=
    if is_default_param_init (params_init target)
    then set_params_init (params_init source) target else target in
  target.

(** The names of the fields that [_copy_base_hparams(source, target)]
    assigns, in the order of the assignments. *)
Definition assigned (target : BaseFields) : list string :=
  (if bool_decide (dtype target = float32) then ["dtype"] else [])
  ++ (if bool_decide (fprop_dtype target = None) then ["fprop_dtype"] else [])
  ++ (if bool_decide (skip_lp_regularization target = None)
      then ["skip_lp_regularization"] else [])
  ++ (if bool_decide (ici_mesh_shape target = None) then ["ici_mesh_shape"] else [])
  ++ (if bool_decide (dcn_mesh_shape target = None) then ["dcn_mesh_shape"] else [])
  ++ (if bool_decide (mesh_axis_names target = None) then ["mesh_axis_names"] else [])
  ++ (if is_default_param_init (params_init target) then ["params_init"] else []).

(** The layer config objects that the traversal has visited, by identity,
    each with its [__arguments__] names and base fields as the visit left
    them.  It is the memo table of the [daglish.MemoizedTraversal] and the
    record of the assignments made in place. *)
Abbreviation store := (gmap nat (list string * BaseFields)).

(** [visit] of [_copy_base_params_to_fdl_config]; [source] is
    [source_stack[-1]].  The traversal is memoized: a layer config object
    met again is not visited again.  A layer config met for the first time
    receives the base fields of [source], by assignment in place, and then
    is itself the source for what lies below it; fields tagged [DoNotBuild]
    are not entered.  The base fields hold no layer configs, so entering
    them changes nothing; neither does the memo for the other configs and
    the containers, below which every layer config is memoized. *)
Fixpoint visit (source : BaseFields) (value : config) (st : store) {struct value}
  : store :=
  match value with
  | Layer uid cls explicit base fields =>
      match st !! uid with
      | Some _ => st
      | None =>
          let base' := _copy_base_hparams source base in
          let st := <[uid := (foldl mark_explicit explicit (assigned base), base')]> st in
          (fix args (l : list (string * bool * config)) (st : store) : store :=
             match l with
             | [] => st
             | (arg_name, do_not_build, arg_val) :: l' =>
                 args l' (if do_not_build then st else visit base' arg_val st)
             end) fields st
      end
  | Other fn fields =>
      (fix args (l : list (string * bool * config)) (st : store) : store :=
         match l with
         | [] => st
         | (arg_name, do_not_build, arg_val) :: l' =>
             args l' (if do_not_build then st else visit source arg_val st)
         end) fields st
  | Seq items =>
      (fix children (l : list config) (st : store) : store :=
         match l with
         | [] => st
         | child :: l' => children l' (visit source child st)
         end) items st
  | Map items =>
      (fix children (l : list (string * config)) (st : store) : store :=
         match l with
         | [] => st
         | (key, child) :: l' => children l' (visit source child st)
         end) items st
  | Leaf a => st
  end.

(** The two loops of [visit], by name. *)
Definition visit_args (source : BaseFields) :=
  fix args (l : list (string * bool * config)) (st : store) : store :=
    match l with
    | [] => st
    | (arg_name, do_not_build, arg_val) :: l' =>
        args l' (if do_not_build then st else visit source arg_val st)
    end.

Definition visit_items (source : BaseFields) :=
  fix children (l : list config) (st : store) : store :=
    match l with
    | [] => st
    | child :: l' => children l' (visit source child st)
    end.

Definition visit_map_items (source : BaseFields) :=
  fix children (l : list (string * config)) (st : store) : store :=
    match l with
    | [] => st
    | (key, child) :: l' => children l' (visit source child st)
    end.

(** The config read after the traversal: every reference to a layer config
    object that was visited shows the object as the visit left it. *)
Fixpoint resolve (st : store) (value : config) {struct value} : config :=
  match value with
  | Layer uid cls explicit base fields =>
      let now := default (explicit, base) (st !! uid) in
      Layer uid cls now.1 now.2
        ((fix args (l : list (string * bool * config)) :=
            match l with
            | [] => []
            | (arg_name, do_not_build, arg_val) :: l' =>
                (arg_name, do_not_build, resolve st arg_val) :: args l'
            end) fields)
  | Other fn fields =>
      Other fn
        ((fix args (l : list (string * bool * config)) :=
            match l with
            | [] => []
            | (arg_name, do_not_build, arg_val) :: l' =>
                (arg_name, do_not_build, resolve st arg_val) :: args l'
            end) fields)
  | Seq items =>
      Seq ((fix children (l : list config) :=
              match l with
              | [] => []
              | child :: l' => resolve st child :: children l'
              end) items)
  | Map items =>
      Map ((fix children (l : list (string * config)) :=
              match l with
              | [] => []
              | (key, child) :: l' => (key, resolve st child) :: children l'
              end) items)
  | Leaf a => Leaf a
  end.

(** [daglish.MemoizedTraversal.run(visit, target)] with [source_stack =
    [source]], and [target] as it is afterwards. *)
Definition _copy_base_params_to_fdl_config (source : BaseFields) (target : layer_p)
  : layer_p :=
  let st := visit source (to_config target) ∅ in
  match resolve st (to_config target) with
  | Layer uid cls explicit base fields =>
      {| uid := uid; cls := cls; explicit := explicit; base := base; fields := fields |}
  | _ => target
  end.

(** [BaseLayer.copy_base_hparams(source, target)] *)
Definition copy_base_hparams (source : BaseFields) (target : layer_p) : layer_p :=
  _copy_base_params_to_fdl_config source target.

(** [BaseLayer.__post_init__]: an unset [fprop_dtype] becomes [dtype]. *)
Definition __post_init__ (self : BaseFields) : BaseFields :=
  if bool_decide (fprop_dtype self = None)
  then set_fprop_dtype (Some (dtype self)) self else self.

(** The config that [_create_child(name, params)] instantiates: the clone
    of [params] with the parent's base fields copied down and the name set. *)
Definition child_config (self : BaseFields) (name : string) (params : layer_p)
  : layer_p :=
  let p := clone params in
  let p := copy_base_hparams self p in
  setattr "name" (set_name (Some name) (base p)) p.

End CopyDown.

(** ** The ambient context ([JaxContext], [_JaxContextStack]) and the
    shared-layer cache ([instantiate_layer]) *)

Module Context.
Import Tensor LayerConfig.

(** [JaxContext.HParams] *)
Record HParams := {
  do_eval : option bool;
  summary_verbosity : Z;
  mesh_axes_transpose : option (list (string * string))
}.

Definition default_HParams : HParams :=
  {| do_eval := None; summary_verbosity := 3; mesh_axes_transpose := None |}.

(** A layer object: its identity and the config it was instantiated from. *)
Record layer_obj := { layer_uid : nat; layer_hparams : layer_p }.

(** A [_WrapperLayer] object with its child [cld]. *)
Record wrapper_obj := { wrapper_uid : nat; wrapper_name : string; cld : layer_obj }.

Record _SharedLayerCacheEntry := {
  layer : layer_obj;
  hparams : layer_p;
  wrapper : wrapper_obj
}.

(** A [JaxContext] object.  Scopes are keyed by identity. *)
Record JaxContext := {
  _hparams : HParams;
  _summary_dict : gmap string JTensor;
  _root_scope_to_shared_layers_map : gmap nat (gmap string _SharedLayerCacheEntry)
}.

(** The part of the interpreter state the code touches: the thread's
    [_JaxContextStack.stack] (references to context objects), the context
    objects themselves, and the allocation counter. *)
Record world := {
  stack : list nat;
  heap : gmap nat JaxContext;
  next_uid : nat
}.

Definition set_stack (s : list nat) (w : world) : world :=
  {| stack := s; heap := heap w; next_uid := next_uid w |}.

(** [JaxContext.__enter__] *)
Definition __enter__ (self : nat) (w : world) : world :=
  set_stack (stack w ++ [self]) w.

(** [JaxContext.__exit__] *)
Definition __exit__ (self : nat) (w : world) : Py.result world :=
  Py.assert (negb (bool_decide (stack w = [])));;
  Py.assert (bool_decide (last (stack w) = Some self));;
  mret (set_stack (removelast (stack w)) w).

(** [JaxContext.top()]: a reference to the innermost context, or [None]. *)
Definition top (w : world) : option nat :=
  if bool_decide (stack w = []) then None else last (stack w).

(** [JaxContext.has_context()] *)
Definition has_context (w : world) : bool := (0 <? length (stack w))%nat.

(** A computation on the world that returns or raises; the world survives
    a raise. *)
Definition comp (A : Type) : Type := world → Py.result A * world.

(** [with self: body].  [__exit__] runs whether [body] returns or raises;
    it returns [None], so an exception of [body] is raised again. *)
Definition with_context {A} (self : nat) (body : comp A) : comp A :=
  λ w,
    let w := __enter__ self w in
    let '(r, w) := body w in
    match __exit__ self w with
    | inl e => (inl e, w)
    | inr w' => (r, w')
    end.

(** Computations that leave the stack as they found it are closed under
    scoped acquisition, so scopes nest. *)
Definition keeps_stack {A} (body : comp A) : Prop :=
  ∀ w, stack (body w).2 = stack w.

(** [cur_jax_context()] *)
Definition cur_jax_context (w : world) : Py.result nat :=
  match top w with
  | Some current => mret current
  | None => Py.raise Py.AssertionError
  end.

(** The current context object of a world. *)
Definition current_context (w : world) : option JaxContext :=
  top w ≫= λ current, heap w !! current.

(** [self.lookup_shared_layer(root_scope, shared_layer_id)]; both levels
    are [defaultdict]s whose default is empty, resp. [None]. *)
Definition lookup_shared_layer (self : JaxContext) (root_scope : nat)
    (shared_layer_id : string) : option _SharedLayerCacheEntry :=
  default ∅ (_root_scope_to_shared_layers_map self !! root_scope) !! shared_layer_id.

(** [self.set_shared_layer(root_scope, shared_layer_id, wrapper, layer_hparams)] *)
Definition set_shared_layer (self : JaxContext) (root_scope : nat)
    (shared_layer_id : string) (wrapper : wrapper_obj) (layer_hparams : layer_p)
  : Py.result JaxContext :=
  let existing := lookup_shared_layer self root_scope shared_layer_id in
  Py.assert (bool_decide (existing = None));;
  let entry := {| layer := cld wrapper; hparams := clone layer_hparams;
                  wrapper := wrapper |} in
  let inner := default ∅ (_root_scope_to_shared_layers_map self !! root_scope) in
  mret {| _hparams := _hparams self; _summary_dict := _summary_dict self;
          _root_scope_to_shared_layers_map :=
            <[root_scope := <[shared_layer_id := entry]> inner]>
              (_root_scope_to_shared_layers_map self) |}.

(** [layer_p.Instantiate()]: a new layer object. *)
Definition Instantiate (layer_p : layer_p) (w : world) : layer_obj * world :=
  ({| layer_uid := next_uid w; layer_hparams := layer_p |},
   {| stack := stack w; heap := heap w; next_uid := S (next_uid w) |}).

(** [if s:] on an [Optional[str]]: [None] and the empty string are false. *)
Definition truthy (s : option string) : bool :=
  match s with
  | None => false
  | Some s => negb (bool_decide (s = ""))
  end.

(** Instantiating [pax_fiddle.Config(_WrapperLayer, name=..., cld_tpl=...)]
    and reading [wrapper.cld]: the wrapper's [setup] creates the child
    [cld_tpl] under the wrapper's name with [create_child]; [cld_tpl]
    carries no shared-weight id, so the child is a new layer. *)
Definition instantiate_wrapper (name : string) (cld_tpl : layer_p) (w : world)
  : wrapper_obj * world :=
  let wrapper_uid := next_uid w in
  let w := {| stack := stack w; heap := heap w; next_uid := S (next_uid w) |} in
  let self := CopyDown.__post_init__ (set_name (Some name) base_defaults) in
  let '(child, w) := Instantiate (CopyDown.child_config self name cld_tpl) w in
  ({| wrapper_uid := wrapper_uid; wrapper_name := name; cld := child |}, w).

(** [instantiate_layer(layer_p, scope)] *)
Definition instantiate_layer (layer_p : layer_p) (scope : nat) (w : world)
  : Py.result (layer_obj * world) :=
  if truthy (shared_weight_layer_id (base layer_p)) then
    let id := default "" (shared_weight_layer_id (base layer_p)) in
    current ← cur_jax_context w;
    jax_context ← from_option mret (Py.raise Py.AssertionError) (heap w !! current);
    let pre_created := lookup_shared_layer jax_context scope id in
    match pre_created with
    | Some pre_created =>
        Py.assert (compatible_hparams (hparams pre_created) layer_p);;
        mret (layer pre_created, w)
    | None =>
        let wrapped_p := clone layer_p in
        let wrapped_p :=
          setattr "shared_weight_layer_id"
            (set_shared_weight_layer_id None (base wrapped_p)) wrapped_p in
        let '(wrapper, w) := instantiate_wrapper id wrapped_p w in
        let layer := cld wrapper in
        jax_context ← set_shared_layer jax_context scope id wrapper (clone layer_p);
        mret (layer, {| stack := stack w; heap := <[current := jax_context]> (heap w);
                        next_uid := next_uid w |})
    end
  else
    mret (Instantiate layer_p w).

End Context.

(** ** Summaries: [_SummaryDict.add_summary] and [BaseLayer.add_summary] *)

Module Summaries.
Import PyStr Tensor Summary Context.

(** The [while] loop of both [add_summary] functions:
    [while taken(full_name): next_iter += 1; full_name = rename(next_iter)].
    At most [fuel] iterations are run; [None] when that is not enough. *)
Fixpoint scan (fuel : nat) (taken : string → bool) (rename : nat → string)
    (next_iter : nat) (full_name : string) : option string :=
  if taken full_name then
    match fuel with
    | O => None
    | S fuel' =>
        let next_iter := S next_iter in
        scan fuel' taken rename next_iter (rename next_iter)
    end
  else Some full_name.

(** The batch dimension added to a rank-3 image, and the rank assertion. *)
Definition image_batch_dim (tensor : JTensor) : Py.result JTensor :=
  let tensor := if (ndim tensor =? 3)%nat then expand_dims tensor else tensor in
  Py.assert (ndim tensor =? 4)%nat;; mret tensor.

(** [_SummaryDict.add_summary(name, tensor, summary_type)] on [self.dict].
    The loop ends within [size dict] iterations. *)
Definition dict_add_summary (dict : gmap string JTensor) (name : string)
    (tensor : JTensor) (summary_type : SummaryType)
  : Py.result (gmap string JTensor) :=
  let summary_base_name := name in
  let summary_suffix := get_summary_type_suffix summary_type in
  let full_name := summary_base_name +:+ summary_suffix in
  match scan (size dict) (λ k, bool_decide (is_Some (dict !! k)))
          (λ next_iter, summary_base_name +:+ str next_iter +:+ summary_suffix)
          0 full_name with
  | None => Py.raise Py.AssertionError
  | Some full_name =>
      tensor ←
        (if bool_decide (summary_type = IMAGE) || bool_decide (summary_type = AGGREGATE_IMAGE)
         then image_batch_dim tensor else mret tensor);
      let tensor :=
        if bool_decide (summary_type = AUDIO) && (ndim tensor =? 2)%nat
        then expand_dims tensor else tensor in
      mret (<[full_name := tensor]> dict)
  end.

(** The part of a layer object that [add_summary] uses: its [summaries]
    variable collection and whether that collection is mutable. *)
Record layer_summaries := {
  summaries : gmap string JTensor;
  summaries_mutable : bool
}.

(** [self.has_variable(SUMMARIES, name)] *)
Definition has_variable (self : layer_summaries) (name : string) : bool :=
  bool_decide (is_Some (summaries self !! name)).

(** [self.sow(SUMMARIES, name, value, reduce_fn=lambda x, y: y)]: the new
    value replaces the old one; nothing is stored in an immutable
    collection. *)
Definition sow (self : layer_summaries) (name : string) (value : JTensor)
  : layer_summaries :=
  if summaries_mutable self
  then {| summaries := <[name := value]> (summaries self);
          summaries_mutable := summaries_mutable self |}
  else self.

(** [BaseLayer.add_summary(name, tensor, summary_type, verbosity)] in the
    world [w]; [tensor] is a tensor or a callable returning one. *)
Definition add_summary (w : world) (self : layer_summaries) (name : string)
    (tensor : JTensor + (unit → JTensor)) (summary_type : SummaryType)
    (verbosity : Z) : Py.result layer_summaries :=
  skip ←
    (if has_context w then
       current ← cur_jax_context w;
       jax_context ← from_option mret (Py.raise Py.AssertionError) (heap w !! current);
       mret (summary_verbosity (_hparams jax_context) <? verbosity)%Z
     else mret false);
  if (skip : bool) then mret self
  else
    let tensor := match tensor with inl t => t | inr f => f () end in
    let next_iter := 0%nat in
    let summary_name := name in
    let full_name := summary_name in
    match scan (size (summaries self)) (has_variable self)
            (λ next_iter, summary_name +:+ str next_iter) next_iter full_name with
    | None => Py.raise Py.AssertionError
    | Some full_name =>
        let full_name := full_name +:+ get_summary_type_suffix summary_type in
        tensor ←
          (if bool_decide (summary_type = IMAGE) then image_batch_dim tensor
           else if bool_decide (summary_type = AUDIO) then
             let tensor := if (ndim tensor =? 2)%nat then expand_dims tensor else tensor in
             Py.assert (ndim tensor =? 3)%nat;; mret tensor
           else mret tensor);
        mret (sow self full_name tensor)
    end.

End Summaries.

(** ** The [theta] accessor ([Theta], [BaseLayer._cast_to_fprop_dtype]) *)

Module ThetaAccess.
Import Tensor.


(** [WeightHParams], the fields used here. *)
Record WeightHParams := { shape : list Z; collections : list string }.


(** The part of a layer object that [theta] uses; [module_str] is the text
    of [str(self)]. *)
Record layer := {
  module_str : string;
  fprop_dtype : DType;
  setup_called : bool;
  variables : gmap (string * string) JTensor;
  children : list (string * string);
  _weight_hparams : gmap string WeightHParams;
  _theta : gset string
}.


(** What reading an attribute of a [Theta] object gives: the module, an
    attribute of the class, or the value of a variable. *)
Inductive attribute :=
| TheModule (module : layer)
| ClassAttribute (name : string)
| VariableValue (x : JTensor).

Section Layer.
(** The [setup] method of the layer's class. *)
Variable setup : layer → Py.result layer.
(** The names that attribute lookup finds on the class [Theta] and on
    [object]. *)
Variable class_attribute : string → bool.


(** [self.has_variable('params', k)] *)
Definition has_variable (self : layer) (col k : string) : bool :=
  bool_decide (is_Some (variables self !! (col, k))).






End Layer.

End ThetaAccess.

(** ** Vocabulary for the properties of [build] *)

Module BuildSpec.
Import Fiddle.

(** Induction on config trees, with the hypothesis for every element of a
    container and every argument of a [Buildable]. *)
Fixpoint value_ind' (P : value → Prop)
    (Hatom : ∀ a, P (Atom a))
    (Hlist : ∀ l, Forall P l → P (VList l))
    (Hdict : ∀ d : list (string * value), Forall (λ kv, P kv.2) d → P (VDict d))
    (Hbuildable : ∀ uid fn (arguments : list (string * value)) argument_tags,
        Forall (λ kv, P kv.2) arguments →
        P (Buildable uid fn arguments argument_tags))
    (Hobject : ∀ uid fn kwargs, P (Object uid fn kwargs))
    (v : value) {struct v} : P v :=
  let rec := value_ind' P Hatom Hlist Hdict Hbuildable Hobject in
  match v with
  | Atom a => Hatom a
  | VList l =>
      Hlist l ((fix go (l : list value) : Forall P l :=
                  match l with
                  | [] => @List.Forall_nil _ P
                  | x :: l' => @List.Forall_cons _ P x l' (rec x) (go l')
                  end) l)
  | VDict d =>
      Hdict d ((fix go (d : list (string * value)) : Forall (λ kv, P kv.2) d :=
                  match d with
                  | [] => @List.Forall_nil _ (λ kv, P kv.2)
                  | kv :: d' =>
                      @List.Forall_cons _ (λ kv, P kv.2) kv d' (rec kv.2) (go d')
                  end) d)
  | Buildable uid fn arguments argument_tags =>
      Hbuildable uid fn arguments argument_tags
        ((fix go (d : list (string * value)) : Forall (λ kv, P kv.2) d :=
            match d with
            | [] => @List.Forall_nil _ (λ kv, P kv.2)
            | kv :: d' =>
                @List.Forall_cons _ (λ kv, P kv.2) kv d' (rec kv.2) (go d')
            end) arguments)
  | Object uid fn kwargs => Hobject uid fn kwargs
  end.

(** The arguments of a [Buildable] that the traversal enters. *)
Definition entered (argument_tags : list (string * list tag))
    (arguments : list (string * value)) : list (string * value) :=
  filter (λ kv, do_not_build argument_tags kv.1 = false) arguments.

(** The identities of the [Buildable]s that the traversal of [v] reaches:
    [v] itself and what lies below it, not crossing a [DoNotBuild]
    argument. *)
Fixpoint reach (v : value) : list nat :=
  match v with
  | Buildable uid _ arguments argument_tags =>
      uid ::
      (fix go (l : list (string * value)) : list nat :=
         match l with
         | [] => []
         | (key, x) :: l' =>
             (if do_not_build argument_tags key then [] else reach x) ++ go l'
         end) arguments
  | VList l =>
      (fix go (l : list value) : list nat :=
         match l with
         | [] => []
         | x :: l' => reach x ++ go l'
         end) l
  | VDict d =>
      (fix go (l : list (string * value)) : list nat :=
         match l with
         | [] => []
         | (_, x) :: l' => reach x ++ go l'
         end) d
  | _ => []
  end.

Definition reach_args (argument_tags : list (string * list tag)) :=
  fix go (l : list (string * value)) : list nat :=
    match l with
    | [] => []
    | (key, x) :: l' =>
        (if do_not_build argument_tags key then [] else reach x) ++ go l'
    end.

(** The unfolding of a DAG is well formed when no [Buildable] occurs below
    itself (a config graph has no cycles). *)
Fixpoint acyclic (v : value) : Prop :=
  match v with
  | Buildable uid _ arguments argument_tags =>
      (uid ∉ reach_args argument_tags arguments) ∧
      (fix go (l : list (string * value)) : Prop :=
         match l with
         | [] => True
         | (key, x) :: l' =>
             (if do_not_build argument_tags key then True else acyclic x) ∧ go l'
         end) arguments
  | VList l =>
      (fix go (l : list value) : Prop :=
         match l with
         | [] => True
         | x :: l' => acyclic x ∧ go l'
         end) l
  | VDict d =>
      (fix go (l : list (string * value)) : Prop :=
         match l with
         | [] => True
         | (_, x) :: l' => acyclic x ∧ go l'
         end) d
  | _ => True
  end.

(** The [Buildable]s that the traversal of [v] reaches, as nodes. *)
Fixpoint nodes (v : value) : list value :=
  match v with
  | Buildable uid _ arguments argument_tags =>
      v ::
      (fix go (l : list (string * value)) : list value :=
         match l with
         | [] => []
         | (key, x) :: l' =>
             (if do_not_build argument_tags key then [] else nodes x) ++ go l'
         end) arguments
  | VList l =>
      (fix go (l : list value) : list value :=
         match l with
         | [] => []
         | x :: l' => nodes x ++ go l'
         end) l
  | VDict d =>
      (fix go (l : list (string * value)) : list value :=
         match l with
         | [] => []
         | (_, x) :: l' => nodes x ++ go l'
         end) d
  | _ => []
  end.

Definition uid_of (v : value) : option nat :=
  match v with
  | Buildable uid _ _ _ => Some uid
  | _ => None
  end.

(** An identity names one object: two reachable nodes with the same
    identity are the same node. *)
Definition consistent (root : value) : Prop :=
  ∀ n1 n2, n1 ∈ nodes root → n2 ∈ nodes root → uid_of n1 = uid_of n2 → n1 = n2.

(** The specification's description of the built object, as a relation
    between a config tree and what is built from it: an argument tagged
    [DoNotBuild] is kept as it is, every other argument is built first, and
    the arguments are passed by keyword to the node's callable; containers
    are built element-wise and any other value is left as it is. *)
Inductive Built : value → value → Prop :=
| Built_buildable uid fn arguments argument_tags oid kwargs :
    Forall2 (λ a b : string * value,
               a.1 = b.1 ∧
               (do_not_build argument_tags a.1 = true → b.2 = a.2) ∧
               (do_not_build argument_tags a.1 = false → Built a.2 b.2))
            arguments kwargs →
    Built (Buildable uid fn arguments argument_tags) (Object oid fn kwargs)
| Built_list l l' :
    Forall2 Built l l' → Built (VList l) (VList l')
| Built_dict (d d' : list (string * value)) :
    Forall2 (λ a b : string * value, a.1 = b.1 ∧ Built a.2 b.2) d d' →
    Built (VDict d) (VDict d')
| Built_atom a : Built (Atom a) (Atom a)
| Built_object oid fn kwargs : Built (Object oid fn kwargs) (Object oid fn kwargs).

(** [reuses table v out]: [out] is [v] with every reached [Buildable]
    replaced by the one object that [table] holds for its identity. *)
Inductive reuses (table : gmap nat value) : value → value → Prop :=
| reuses_buildable uid fn arguments argument_tags out :
    table !! uid = Some out →
    reuses table (Buildable uid fn arguments argument_tags) out
| reuses_list l l' :
    Forall2 (reuses table) l l' → reuses table (VList l) (VList l')
| reuses_dict (d d' : list (string * value)) :
    Forall2 (λ a b : string * value, a.1 = b.1 ∧ reuses table a.2 b.2) d d' →
    reuses table (VDict d) (VDict d')
| reuses_atom a : reuses table (Atom a) (Atom a)
| reuses_object oid fn kwargs :
    reuses table (Object oid fn kwargs) (Object oid fn kwargs).

(** [constructed table node obj]: [obj] is the object made by calling the
    callable of [node] with its [DoNotBuild] arguments as they are and its
    other arguments taken from [table]. *)
Definition constructed (table : gmap nat value) (node obj : value) : Prop :=
  ∃ uid fn arguments argument_tags oid kwargs,
    node = Buildable uid fn arguments argument_tags ∧
    obj = Object oid fn kwargs ∧
    table !! uid = Some obj ∧
    Forall2 (λ a b : string * value,
               a.1 = b.1 ∧
               (do_not_build argument_tags a.1 = true → b.2 = a.2) ∧
               (do_not_build argument_tags a.1 = false → reuses table a.2 b.2))
            arguments kwargs.

(** [resolves v path node]: following [path] from [v], through arguments
    the traversal enters, leads to [node]. *)
Inductive resolves : value → list path_element → value → Prop :=
| resolves_here v : resolves v [] v
| resolves_attr uid fn arguments argument_tags key x path node :
    (key, x) ∈ arguments →
    do_not_build argument_tags key = false →
    resolves x path node →
    resolves (Buildable uid fn arguments argument_tags) (Attr key :: path) node
| resolves_index l i x path node :
    l !! i = Some x →
    resolves x path node →
    resolves (VList l) (Index i :: path) node
| resolves_key (d : list (string * value)) key x path node :
    (key, x) ∈ d →
    resolves x path node →
    resolves (VDict d) (Key key :: path) node.

(** What [build] raises when the callable of [node], reached by [path] and
    called with [kwargs], raises [e]. *)
Definition build_error (node : value) (path : list path_element)
    (e : Py.exn) (kwargs : list (string * value)) : build_exn :=
  match e with
  | Py.TaggedValueNotFilledError _ => Reraised e
  | _ => BuildError node ("<root>" +:+ path_str path) e kwargs
  end.

(** The loops of [reach], [acyclic] and [nodes], by name. *)
Definition reach_list :=
  fix go (l : list value) : list nat :=
    match l with
    | [] => []
    | x :: l' => reach x ++ go l'
    end.

Definition reach_dict :=
  fix go (l : list (string * value)) : list nat :=
    match l with
    | [] => []
    | (_, x) :: l' => reach x ++ go l'
    end.

Definition acyclic_args (argument_tags : list (string * list tag)) :=
  fix go (l : list (string * value)) : Prop :=
    match l with
    | [] => True
    | (key, x) :: l' =>
        (if do_not_build argument_tags key then True else acyclic x) ∧ go l'
    end.

Definition acyclic_list :=
  fix go (l : list value) : Prop :=
    match l with
    | [] => True
    | x :: l' => acyclic x ∧ go l'
    end.

Definition acyclic_dict :=
  fix go (l : list (string * value)) : Prop :=
    match l with
    | [] => True
    | (_, x) :: l' => acyclic x ∧ go l'
    end.

(** The identities of the [Buildable]s built so far, in the order of the
    constructor calls. *)
Definition built_uids (st : state) : list (option nat) :=
  (λ c : value * value, uid_of c.1) <$> calls st.

Definition nodes_args (argument_tags : list (string * list tag)) :=
  fix go (l : list (string * value)) : list value :=
    match l with
    | [] => []
    | (key, x) :: l' =>
        (if do_not_build argument_tags key then [] else nodes x) ++ go l'
    end.

Definition nodes_list :=
  fix go (l : list value) : list value :=
    match l with
    | [] => []
    | x :: l' => nodes x ++ go l'
    end.

Definition nodes_dict :=
  fix go (l : list (string * value)) : list value :=
    match l with
    | [] => []
    | (_, x) :: l' => nodes x ++ go l'
    end.


(** How the keyword arguments of a built object come from the arguments of
    its [Buildable]. *)
Definition args_reuse (table : gmap nat value) (tags : list (string * list tag))
    (arguments kwargs : list (string * value)) : Prop :=
  Forall2 (λ a b : string * value,
             a.1 = b.1 ∧
             (do_not_build tags a.1 = true → b.2 = a.2) ∧
             (do_not_build tags a.1 = false → reuses table a.2 b.2))
          arguments kwargs.


(** [fails_at v p err]: [err] is what [build] raises for a [Buildable]
    below [v], reached by some path from [v] (itself reached by [p] from the
    root), whose callable raised when called with the built arguments. *)
Definition fails_at (raises : string → list (string * value) → option Py.exn)
    (v : value) (p : list path_element) (err : build_exn) : Prop :=
  ∃ path uid fn arguments argument_tags kwargs e,
    resolves v path (Buildable uid fn arguments argument_tags)
    ∧ kwargs.*1 = arguments.*1
    ∧ raises fn kwargs = Some e
    ∧ err = build_error (Buildable uid fn arguments argument_tags) (p ++ path) e kwargs.


(** Every memoized object is a build of the node it is memoized for. *)
Definition memo_built (root : value) (m : gmap nat value) : Prop :=
  ∀ u r, m !! u = Some r → ∀ n, n ∈ nodes root → uid_of n = Some u → Built n r.

Definition builds (raises : string → list (string * value) → option Py.exn)
    (root v : value) : Prop :=
  ∀ p st out st',
    (∀ n, n ∈ nodes v → n ∈ nodes root) →
    memo_built root (memo st) →
    _build raises v p st = inr (out, st') →
    Built v out ∧ memo_built root (memo st').


(** The invariant of the traversal between two memoized calls: no
    [Buildable] was built twice; every object built is the one memoized for
    its [Buildable], and its keyword arguments are taken from the memo
    table; only built objects are memoized; and what lies below a built
    [Buildable] is memoized too. *)
Definition memo_inv (root : value) (st : state) : Prop :=
  NoDup (built_uids st)
  ∧ (∀ n r, (n, r) ∈ calls st → constructed (memo st) n r)
  ∧ (∀ u r, memo st !! u = Some r → ∃ n, (n, r) ∈ calls st ∧ uid_of n = Some u)
  ∧ (∀ n r, (n, r) ∈ calls st →
       n ∈ nodes root ∧ ∀ u, u ∈ reach n → is_Some (memo st !! u)).

(** What a memoized call establishes. *)
Definition memo_post (root : value) (ids : list nat) (st st' : state) : Prop :=
  memo_inv root st'
  ∧ memo st ⊆ memo st'
  ∧ (∀ u, is_Some (memo st' !! u) ↔ is_Some (memo st !! u) ∨ u ∈ ids).

Definition memoizes (raises : string → list (string * value) → option Py.exn)
    (root v : value) : Prop :=
  ∀ p st out st',
    (∀ n, n ∈ nodes v → n ∈ nodes root) →
    acyclic v →
    memo_inv root st →
    _build raises v p st = inr (out, st') →
    match v with
    | Buildable uid fn arguments tags =>
        memo st !! uid = None →
        ∃ st1 kwargs,
          out = Object (next_uid st1) fn kwargs
          ∧ st' = {| memo := memo st1; next_uid := S (next_uid st1);
                     calls := calls st1 ++ [(v, out)] |}
          ∧ memo_post root (reach_args tags arguments) st st1
          ∧ args_reuse (memo st1) tags arguments kwargs
    | _ => memo_post root (reach v) st st' ∧ reuses (memo st') v out
    end.



End BuildSpec.

(** ** Vocabulary for the properties of the copy-down *)

Module CopyDownSpec.
Import Tensor LayerConfig CopyDown.

(** Induction on configs, with the hypothesis for every item of a container
    and every field of a config. *)
Fixpoint config_ind' (P : config → Prop)
    (Hleaf : ∀ a, P (Leaf a))
    (Hseq : ∀ l, Forall P l → P (Seq l))
    (Hmap : ∀ d : list (string * config), Forall (λ kv, P kv.2) d → P (Map d))
    (Hlayer : ∀ uid cls explicit base (fs : list (string * bool * config)),
        Forall (λ f, P f.2) fs → P (Layer uid cls explicit base fs))
    (Hother : ∀ fn (fs : list (string * bool * config)),
        Forall (λ f, P f.2) fs → P (Other fn fs))
    (c : config) {struct c} : P c :=
  let rec := config_ind' P Hleaf Hseq Hmap Hlayer Hother in
  match c with
  | Leaf a => Hleaf a
  | Seq l =>
      Hseq l
        ((fix go (l : list config) : Forall P l :=
            match l with
            | [] => @List.Forall_nil _ P
            | x :: l' => @List.Forall_cons _ P x l' (rec x) (go l')
            end) l)
  | Map d =>
      Hmap d
        ((fix go (d : list (string * config)) : Forall (λ kv, P kv.2) d :=
            match d with
            | [] => @List.Forall_nil _ (λ kv, P kv.2)
            | kv :: d' =>
                @List.Forall_cons _ (λ kv, P kv.2) kv d' (rec kv.2) (go d')
            end) d)
  | Layer uid cls explicit base fs =>
      Hlayer uid cls explicit base fs
        ((fix go (fs : list (string * bool * config)) : Forall (λ f, P f.2) fs :=
            match fs with
            | [] => @List.Forall_nil _ (λ f, P f.2)
            | f :: fs' =>
                @List.Forall_cons _ (λ f, P f.2) f fs' (rec f.2) (go fs')
            end) fs)
  | Other fn fs =>
      Hother fn fs
        ((fix go (fs : list (string * bool * config)) : Forall (λ f, P f.2) fs :=
            match fs with
            | [] => @List.Forall_nil _ (λ f, P f.2)
            | f :: fs' =>
                @List.Forall_cons _ (λ f, P f.2) f fs' (rec f.2) (go fs')
            end) fs)
  end.


(** The identities of the layer configs of a config tree, those below
    tagged fields too, one for every occurrence. *)
Fixpoint uids (c : config) {struct c} : list nat :=
  match c with
  | Layer uid _ _ _ fields =>
      uid :: (fix go (l : list (string * bool * config)) : list nat :=
                match l with
                | [] => []
                | f :: l' => uids f.2 ++ go l'
                end) fields
  | Other _ fields =>
      (fix go (l : list (string * bool * config)) : list nat :=
         match l with
         | [] => []
         | f :: l' => uids f.2 ++ go l'
         end) fields
  | Seq items =>
      (fix go (l : list config) : list nat :=
         match l with
         | [] => []
         | x :: l' => uids x ++ go l'
         end) items
  | Map items =>
      (fix go (l : list (string * config)) : list nat :=
         match l with
         | [] => []
         | kv :: l' => uids kv.2 ++ go l'
         end) items
  | Leaf _ => []
  end.

Definition uids_fields :=
  fix go (l : list (string * bool * config)) : list nat :=
    match l with
    | [] => []
    | f :: l' => uids f.2 ++ go l'
    end.

Definition uids_items :=
  fix go (l : list config) : list nat :=
    match l with
    | [] => []
    | x :: l' => uids x ++ go l'
    end.

Definition uids_map_items :=
  fix go (l : list (string * config)) : list nat :=
    match l with
    | [] => []
    | kv :: l' => uids kv.2 ++ go l'
    end.



(** The value at a position: the [i]-th field of a config (tagged or not),
    the [i]-th item of a sequence or mapping. *)
Definition child (c : config) (i : nat) : option config :=
  match c with
  | Layer _ _ _ _ fields | Other _ fields => (λ f, f.2) <$> fields !! i
  | Seq items => items !! i
  | Map items => (λ kv, kv.2) <$> items !! i
  | Leaf _ => None
  end.






(** The fields, the items of a config read after the traversal. *)
Definition resolve_fields (st : store) (l : list (string * bool * config)) :=
  (λ f : string * bool * config, (f.1.1, f.1.2, resolve st f.2)) <$> l.


End CopyDownSpec.

(** ** Concrete inputs used by the examples *)

Module Examples.
Section Theta.
Import Tensor ThetaAccess.






End Theta.

Section Summaries.
Import Tensor Context Summaries.

Definition no_context : world := {| stack := []; heap := ∅; next_uid := 0 |}.
Definition empty_summaries : layer_summaries :=
{| summaries := ∅; summaries_mutable := true |}.
Definition scalar (n : nat) : JTensor := {| dtype := float32; ndim := 0; data := n |}.

End Summaries.

Section Shared.
Import LayerConfig Context.

Definition shared_p (name id : string) : layer_p :=
{| uid := 0; cls := "Embedding";
   explicit := ["name"; "shared_weight_layer_id"];
   base := set_shared_weight_layer_id (Some id) (set_name (Some name) base_defaults);
   fields := [("dims", false, Leaf (Fiddle.AInt 8))] |}.

Definition one_context : world :=
{| stack := [0]%nat;
   heap := {[ 0%nat := {| _hparams := default_HParams; _summary_dict := ∅;
                         _root_scope_to_shared_layers_map := ∅ |} ]};
   next_uid := 1 |}.

End Shared.

Section CopyDown.
Import Tensor LayerConfig CopyDown.

(** The base fields of a parent layer of dtype [bfloat16]. *)
Definition parent_bf16 : BaseFields := set_dtype bfloat16 base_defaults.

(** A child config whose [dtype] was set, to [float32]. *)
Definition sets_float32 : layer_p :=
{| uid := 0; cls := "Linear"; explicit := ["dtype"];
   base := set_dtype float32 base_defaults; fields := [] |}.




End CopyDown.

Section Build.
Import Fiddle.

(** A config DAG: the [Buildable] 2 is referenced by the root and by the
    [Buildable] 1; the argument [tpl] of the root is a template. *)
Definition shared_w : value := Buildable 2 "Weights" [("n", Atom (AInt 3))] [].
Definition template : value := Buildable 3 "Layer" [("w", shared_w)] [].
Definition dag : value :=
  Buildable 0 "Model"
    [("block", Buildable 1 "Block" [("w", shared_w)] []);
     ("w", shared_w);
     ("tpl", template);
     ("dims", VList [Atom (AInt 4); Atom (AInt 3)])]
    [("tpl", [DoNotBuild])].

(** No callable raises. *)
Definition never_raises : string → list (string * value) → option Py.exn :=
  λ _ _, None.

(** The callable ["Weights"] raises. *)
Definition weights_raise (e : Py.exn) : string → list (string * value) → option Py.exn :=
  λ fn _, if bool_decide (fn = "Weights") then Some e else None.
End Build.

End Examples.

(** ** More of the ambient context: [new_context] and the global summaries *)

Module GlobalSummaries.
Import Tensor Summary Context Summaries.

(** [JaxContext(hparams)]: the hparams are cloned, the summary dict and the
    shared-layer map start empty. *)
Definition new_JaxContext (hparams : HParams) : JaxContext :=
  {| _hparams := LayerConfig.clone hparams; _summary_dict := ∅;
     _root_scope_to_shared_layers_map := ∅ |}.

(** [JaxContext.new_context(hparams=...)]: the new context object is
    allocated and a reference to it returned; it is not entered. *)
Definition new_context (hparams : option HParams) (w : world) : nat * world :=
  let new_hparams :=
    match hparams with
    | None =>
        match top w with
        | None => default_HParams
        | Some current =>
            LayerConfig.clone (from_option _hparams default_HParams (heap w !! current))
        end
    | Some hparams => LayerConfig.clone hparams
    end in
  let context := new_JaxContext new_hparams in
  (next_uid w,
   {| stack := stack w; heap := <[next_uid w := context]> (heap w);
      next_uid := S (next_uid w) |}).

Definition set_summary_dict (d : gmap string JTensor) (c : JaxContext) : JaxContext :=
  {| _hparams := _hparams c; _summary_dict := d;
     _root_scope_to_shared_layers_map := _root_scope_to_shared_layers_map c |}.

Definition set_heap (h : gmap nat JaxContext) (w : world) : world :=
  {| stack := stack w; heap := h; next_uid := next_uid w |}.

(** The context object that [cur_jax_context()] returns, with its
    reference. *)
Definition cur_context_object (w : world) : Py.result (nat * JaxContext) :=
  current ← cur_jax_context w;
  context ← from_option mret (Py.raise Py.AssertionError) (heap w !! current);
  mret (current, context).

(** [add_global_summary(name, tensor, summary_type, verbosity)] *)
Definition add_global_summary (name : string) (tensor : JTensor)
    (summary_type : SummaryType) (verbosity : Z) (w : world) : Py.result world :=
  '(current, context) ← cur_context_object w;
  if (summary_verbosity (_hparams context) <? verbosity)%Z then mret w
  else
    let global_namespace_name := name in
    let tensor :=
      if is_floating (dtype tensor) then astype tensor float32 else tensor in
    dict ← dict_add_summary (_summary_dict context) global_namespace_name tensor summary_type;
    mret (set_heap (<[current := set_summary_dict dict context]> (heap w)) w).

(** [clear_global_summary()] *)
Definition clear_global_summary (w : world) : Py.result world :=
  '(current, context) ← cur_context_object w;
  mret (set_heap (<[current := set_summary_dict ∅ context]> (heap w)) w).

(** [all_global_summaries()] *)
Definition all_global_summaries (w : world) : Py.result (gmap string JTensor) :=
  '(current, context) ← cur_context_object w;
  mret (_summary_dict context).

End GlobalSummaries.

(** ** Sharding annotations: [SplitDimsMapping] and [PartitionSpec] *)

Module SplitDims.

(** An entry of a [SplitDimsMapping]: an [int], a [str], [None], a nested
    tuple or list, or a value of any other type. *)
Inductive split_dim :=
| DInt (s_i : Z)
| DStr (s_i : string)
| DNone
| DTuple (s_i : list split_dim)
| DList (s_i : list split_dim)
| DOther (token : nat).

(** Python [==] on entries: a tuple is never equal to a list. *)
Fixpoint split_dim_eqb (x y : split_dim) {struct x} : bool :=
  match x, y with
  | DInt a, DInt b => (a =? b)%Z
  | DStr a, DStr b => String.eqb a b
  | DNone, DNone => true
  | DTuple l, DTuple l' | DList l, DList l' =>
      (fix go (l l' : list split_dim) : bool :=
         match l, l' with
         | [], [] => true
         | a :: l, b :: l' => split_dim_eqb a b && go l l'
         | _, _ => false
         end) l l'
  | DOther a, DOther b => (a =? b)%nat
  | _, _ => false
  end.

(** A Python sequence is a [list] or a [tuple]: code that tests
    [isinstance(x, list)] or [isinstance(x, tuple)] tells them apart. *)
Inductive kind := list_ | tuple_.

#[global] Instance kind_eq_dec : EqDecision kind.
Proof. solve_decision. Defined.

Record pyseq (A : Type) := PySeq { kind_of : kind; items : list A }.
Arguments PySeq {A} _ _.
Arguments kind_of {A} _.
Arguments items {A} _.

(** [if s:] on an optional sequence: [None] and the empty sequence are
    false. *)
Definition nonempty {A} (s : option (pyseq A)) : bool :=
  match s with
  | Some s => match items s with [] => false | _ :: _ => true end
  | None => false
  end.

(** The items of an optional sequence, none for [None]. *)
Definition contents {A} (s : option (pyseq A)) : list A :=
  match s with
  | Some s => items s
  | None => []
  end.

(** An entry of a [jax.sharding.PartitionSpec]: [None], a mesh axis name
    or a tuple of entries. *)
Inductive spec_dim :=
| PNone
| PAxis (name : string)
| PTuple (axes : list spec_dim).

(** A partition spec is itself a split-dims mapping. *)
Fixpoint as_split_dim (d : spec_dim) : split_dim :=
  match d with
  | PNone => DNone
  | PAxis name => DStr name
  | PTuple axes => DTuple (List.map as_split_dim axes)
  end.

End SplitDims.

(** ** [WeightHParams] and [BoxedParam] ([base_layer.py]) *)

Module Weights.
Import Tensor SplitDims.

Record WeightHParams := {
  shape : list Z;
  init : option LayerConfig.WeightInit;
  dtype : option DType;
  collections : option (list string);
  mesh_shape : option (list Z);
  tensor_split_dims_mapping : option (pyseq split_dim);
  repeat_prefix : option (pyseq Z);
  repeat_prefix_split_dims_mapping : option (pyseq split_dim);
  repeat_optimizer_dims_mapping : option (pyseq split_dim);
  fan_in_axes : option (list Z);
  fan_out_axes : option (list Z)
}.

Definition set_init (v : option LayerConfig.WeightInit) (p : WeightHParams) : WeightHParams :=
  {| shape := shape p; init := v; dtype := dtype p; collections := collections p;
     mesh_shape := mesh_shape p;
     tensor_split_dims_mapping := tensor_split_dims_mapping p;
     repeat_prefix := repeat_prefix p;
     repeat_prefix_split_dims_mapping := repeat_prefix_split_dims_mapping p;
     repeat_optimizer_dims_mapping := repeat_optimizer_dims_mapping p;
     fan_in_axes := fan_in_axes p; fan_out_axes := fan_out_axes p |}.

Definition set_dtype (v : option DType) (p : WeightHParams) : WeightHParams :=
  {| shape := shape p; init := init p; dtype := v; collections := collections p;
     mesh_shape := mesh_shape p;
     tensor_split_dims_mapping := tensor_split_dims_mapping p;
     repeat_prefix := repeat_prefix p;
     repeat_prefix_split_dims_mapping := repeat_prefix_split_dims_mapping p;
     repeat_optimizer_dims_mapping := repeat_optimizer_dims_mapping p;
     fan_in_axes := fan_in_axes p; fan_out_axes := fan_out_axes p |}.

Definition set_collections (v : option (list string)) (p : WeightHParams) : WeightHParams :=
  {| shape := shape p; init := init p; dtype := dtype p; collections := v;
     mesh_shape := mesh_shape p;
     tensor_split_dims_mapping := tensor_split_dims_mapping p;
     repeat_prefix := repeat_prefix p;
     repeat_prefix_split_dims_mapping := repeat_prefix_split_dims_mapping p;
     repeat_optimizer_dims_mapping := repeat_optimizer_dims_mapping p;
     fan_in_axes := fan_in_axes p; fan_out_axes := fan_out_axes p |}.

Definition set_tensor_split_dims_mapping (v : option (pyseq split_dim))
    (p : WeightHParams) : WeightHParams :=
  {| shape := shape p; init := init p; dtype := dtype p; collections := collections p;
     mesh_shape := mesh_shape p;
     tensor_split_dims_mapping := v;
     repeat_prefix := repeat_prefix p;
     repeat_prefix_split_dims_mapping := repeat_prefix_split_dims_mapping p;
     repeat_optimizer_dims_mapping := repeat_optimizer_dims_mapping p;
     fan_in_axes := fan_in_axes p; fan_out_axes := fan_out_axes p |}.

Definition set_repeat_prefix (v : option (pyseq Z)) (p : WeightHParams) : WeightHParams :=
  {| shape := shape p; init := init p; dtype := dtype p; collections := collections p;
     mesh_shape := mesh_shape p;
     tensor_split_dims_mapping := tensor_split_dims_mapping p;
     repeat_prefix := v;
     repeat_prefix_split_dims_mapping := repeat_prefix_split_dims_mapping p;
     repeat_optimizer_dims_mapping := repeat_optimizer_dims_mapping p;
     fan_in_axes := fan_in_axes p; fan_out_axes := fan_out_axes p |}.

Definition set_repeat_prefix_split_dims_mapping (v : option (pyseq split_dim))
    (p : WeightHParams) : WeightHParams :=
  {| shape := shape p; init := init p; dtype := dtype p; collections := collections p;
     mesh_shape := mesh_shape p;
     tensor_split_dims_mapping := tensor_split_dims_mapping p;
     repeat_prefix := repeat_prefix p;
     repeat_prefix_split_dims_mapping := v;
     repeat_optimizer_dims_mapping := repeat_optimizer_dims_mapping p;
     fan_in_axes := fan_in_axes p; fan_out_axes := fan_out_axes p |}.

Definition set_repeat_optimizer_dims_mapping (v : option (pyseq split_dim))
    (p : WeightHParams) : WeightHParams :=
  {| shape := shape p; init := init p; dtype := dtype p; collections := collections p;
     mesh_shape := mesh_shape p;
     tensor_split_dims_mapping := tensor_split_dims_mapping p;
     repeat_prefix := repeat_prefix p;
     repeat_prefix_split_dims_mapping := repeat_prefix_split_dims_mapping p;
     repeat_optimizer_dims_mapping := v;
     fan_in_axes := fan_in_axes p; fan_out_axes := fan_out_axes p |}.

(** [WeightHParams.__post_init__] *)
Definition __post_init__ (self : WeightHParams) : Py.result WeightHParams :=
  let self :=
    match collections self with
    | None => set_collections (Some []) self
    | Some _ => self
    end in
  match mesh_shape self with
  | Some _ =>
      let self :=
        match tensor_split_dims_mapping self with
        | None =>
            set_tensor_split_dims_mapping
              (Some (PySeq tuple_ (replicate (length (shape self)) (DInt (-1))))) self
        | Some _ => self
        end in
      Py.assert (length (contents (tensor_split_dims_mapping self))
                 =? length (shape self))%nat;;
      mret self
  | None => mret self
  end.

(** A [BoxedParam]: the variable (opaque) and its [WeightHParams]. *)
Record BoxedParam := { value : nat; meta : WeightHParams }.

(** The [metadata_params] dict that [add_axis] and [remove_axis] read;
    the four keys are present. *)
Record MetadataParams := {
  is_initializing : bool;
  x_times : Z;
  sub_weight_split_dims_mapping : option (pyseq split_dim);
  optimizer_dims_mapping : option (pyseq split_dim)
}.

(** The first lines of both methods, for [wp_sub] and for
    [optimizer_dims_mapping]: a given sequence must have one entry and is
    made a tuple; the default is [(-1,)]. *)
Definition one_entry_tuple (m : option (pyseq split_dim)) : Py.result (list split_dim) :=
  match m with
  | Some m => Py.assert (length (items m) =? 1)%nat;; mret (items m)
  | None => mret [DInt (-1)]
  end.

(** [isinstance(s, list)] and [isinstance(s, tuple)] on a sequence that is
    not [None]. *)
Definition is_list {A} (s : option (pyseq A)) : bool :=
  match s with
  | Some s => bool_decide (kind_of s = list_)
  | None => false
  end.

Definition is_tuple {A} (s : option (pyseq A)) : bool :=
  match s with
  | Some s => bool_decide (kind_of s = tuple_)
  | None => false
  end.

(** [str(i)] for an [int]. *)
Definition str_int (i : Z) : string :=
  if (i <? 0)%Z then "-" +:+ PyStr.str (Z.abs_nat i) else PyStr.str (Z.abs_nat i).

(** [ValueError('Only index==0 is implemented; given index=', index)]: the
    text of an exception with two arguments is the text of the pair. *)
Definition index_error (index : Z) : Py.exn :=
  Py.ValueError ("(" +:+ PyStr.repr "Only index==0 is implemented; given index="
                 +:+ ", " +:+ str_int index +:+ ")").

(** [BoxedParam.add_axis(index, metadata_params)] *)
Definition add_axis (self : BoxedParam) (index : Z) (metadata_params : MetadataParams)
  : Py.result BoxedParam :=
  if negb (index =? 0)%Z then Py.raise (index_error index)
  else if negb (is_initializing metadata_params) then mret self
  else
    let x_times := x_times metadata_params in
    wp_sub ← one_entry_tuple (sub_weight_split_dims_mapping metadata_params);
    optimizer_dims_mapping ← one_entry_tuple (optimizer_dims_mapping metadata_params);
    repeat_prefix ←
      (if nonempty (repeat_prefix (meta self)) then
         Py.assert (is_list (repeat_prefix (meta self)));;
         mret (PySeq list_ ([x_times] ++ contents (repeat_prefix (meta self))))
       else mret (PySeq list_ [x_times]));
    repeat_prefix_split_dims_mapping ←
      (if nonempty (repeat_prefix_split_dims_mapping (meta self)) then
         Py.assert (is_tuple (repeat_prefix_split_dims_mapping (meta self)));;
         mret (PySeq tuple_
                 (wp_sub ++ contents (repeat_prefix_split_dims_mapping (meta self))))
       else mret (PySeq tuple_ wp_sub));
    repeat_optimizer_dims_mapping ←
      (if nonempty (repeat_optimizer_dims_mapping (meta self)) then
         Py.assert (is_tuple (repeat_optimizer_dims_mapping (meta self)));;
         mret (PySeq tuple_
                 (optimizer_dims_mapping
                    ++ contents (repeat_optimizer_dims_mapping (meta self))))
       else mret (PySeq tuple_ optimizer_dims_mapping));
    let new_meta := LayerConfig.clone (meta self) in
    let new_meta := set_repeat_prefix (Some repeat_prefix) new_meta in
    let new_meta :=
      set_repeat_prefix_split_dims_mapping (Some repeat_prefix_split_dims_mapping)
        new_meta in
    let new_meta :=
      set_repeat_optimizer_dims_mapping (Some repeat_optimizer_dims_mapping) new_meta in
    mret {| value := value self; meta := new_meta |}.

(** [updated = list(mapping); removed = updated.pop(0);
    assert (removed,) == tuple(expected)] for a mapping that is not empty. *)
Definition pop_first (mapping expected : list split_dim) : Py.result (list split_dim) :=
  match mapping with
  | removed :: updated_dims_mapping =>
      Py.assert (match expected with
                 | [e] => split_dim_eqb removed e
                 | _ => false
                 end);;
      mret updated_dims_mapping
  | [] => Py.raise Py.IndexError
  end.

(** [BoxedParam.remove_axis(index, metadata_params)] *)
Definition remove_axis (self : BoxedParam) (index : Z) (metadata_params : MetadataParams)
  : Py.result BoxedParam :=
  if negb (index =? 0)%Z then Py.raise (index_error index)
  else if negb (is_initializing metadata_params) then mret self
  else
    let x_times := x_times metadata_params in
    wp_sub ← one_entry_tuple (sub_weight_split_dims_mapping metadata_params);
    optimizer_dims_mapping ← one_entry_tuple (optimizer_dims_mapping metadata_params);
    let new_meta := LayerConfig.clone (meta self) in
    new_meta ←
      (if nonempty (repeat_prefix new_meta) then
         Py.assert (is_list (repeat_prefix new_meta));;
         match contents (repeat_prefix new_meta) with
         | removed_axis :: rest =>
             Py.assert (removed_axis =? x_times)%Z;;
             mret (set_repeat_prefix (Some (PySeq list_ rest)) new_meta)
         | [] => Py.raise Py.IndexError
         end
       else mret new_meta);
    new_meta ←
      (if nonempty (repeat_prefix_split_dims_mapping new_meta) then
         Py.assert (is_tuple (repeat_prefix_split_dims_mapping new_meta));;
         updated_dims_mapping ←
           pop_first (contents (repeat_prefix_split_dims_mapping new_meta)) wp_sub;
         mret (set_repeat_prefix_split_dims_mapping
                 (Some (PySeq list_ updated_dims_mapping)) new_meta)
       else mret new_meta);
    new_meta ←
      (if nonempty (repeat_optimizer_dims_mapping new_meta) then
         Py.assert (is_tuple (repeat_optimizer_dims_mapping new_meta));;
         updated_dims_mapping ←
           pop_first (contents (repeat_optimizer_dims_mapping new_meta))
             optimizer_dims_mapping;
         mret (set_repeat_optimizer_dims_mapping
                 (Some (PySeq list_ updated_dims_mapping)) new_meta)
       else mret new_meta);
    mret {| value := value self; meta := new_meta |}.

End Weights.

(** ** [to_partition_spec], [var_partition_specs], [maybe_shard]
    ([base_layer.py]) *)

Module Sharding.
Import SplitDims Weights.

(** The body of the loop of [_parse_split_dims], for the entry [s_i]; a
    nested tuple or list is parsed by the loop itself. *)
Fixpoint _parse_entry (mesh_axis_names : list string) (s_i : split_dim) {struct s_i}
  : Py.result spec_dim :=
  match s_i with
  | DInt s_i =>
      if (s_i <? 0)%Z then mret PNone
      else
        Py.assert (s_i <? Z.of_nat (length mesh_axis_names))%Z;;
        match mesh_axis_names !! Z.to_nat s_i with
        | Some name => mret (PAxis name)
        | None => Py.raise Py.IndexError
        end
  | DStr s_i =>
      Py.assert (bool_decide (s_i ∈ mesh_axis_names));;
      mret (PAxis s_i)
  | DTuple dims_mapping | DList dims_mapping =>
      split_dims ←
        (fix _parse_split_dims (dims_mapping : list split_dim)
           : Py.result (list spec_dim) :=
           match dims_mapping with
           | [] => mret []
           | s_i :: rest =>
               d ← _parse_entry mesh_axis_names s_i;
               split_dims ← _parse_split_dims rest;
               mret (d :: split_dims)
           end) dims_mapping;
      mret (PTuple split_dims)
  | DNone => mret PNone
  | DOther _ => Py.raise Py.AssertionError
  end.

(** [_parse_split_dims(dims_mapping)] *)
Definition _parse_split_dims (mesh_axis_names : list string) :=
  fix _parse_split_dims (dims_mapping : list split_dim) : Py.result (list spec_dim) :=
    match dims_mapping with
    | [] => mret []
    | s_i :: rest =>
        d ← _parse_entry mesh_axis_names s_i;
        split_dims ← _parse_split_dims rest;
        mret (d :: split_dims)
    end.

(** [to_partition_spec(split_dims_mapping, mesh_axis_names)]: the entries
    of the [PartitionSpec]. *)
Definition to_partition_spec (split_dims_mapping : list split_dim)
    (mesh_axis_names : list string) : Py.result (list spec_dim) :=
  _parse_split_dims mesh_axis_names split_dims_mapping.

(** [_get_spec(var_p)] of [var_partition_specs]. *)
Definition _get_spec (device_axis_names : list string) (var_p : WeightHParams)
  : Py.result (list spec_dim) :=
  let v_shape := shape var_p in
  v_split_dim_mapping ←
    match tensor_split_dims_mapping var_p with
    | Some m => Py.assert (length (items m) =? length v_shape)%nat;; mret (items m)
    | None => mret (replicate (length v_shape) (DInt (-1)))
    end;
  v_split_dim_mapping ←
    match repeat_prefix var_p with
    | Some repeat_prefix =>
        prefix_split_dims_mapping ←
          match repeat_prefix_split_dims_mapping var_p with
          | Some m =>
              Py.assert (length (items m) =? length (items repeat_prefix))%nat;;
              mret (items m)
          | None => mret (replicate (length (items repeat_prefix)) (DInt (-1)))
          end;
        mret (prefix_split_dims_mapping ++ v_split_dim_mapping)
    | None => mret v_split_dim_mapping
    end;
  to_partition_spec v_split_dim_mapping device_axis_names.

(** [jax.tree_map(f, leaves)] on the leaves of a tree, in order. *)
Fixpoint tree_map {A B} (f : A → Py.result B) (leaves : list A) : Py.result (list B) :=
  match leaves with
  | [] => mret []
  | x :: leaves' => y ← f x; ys ← tree_map f leaves'; mret (y :: ys)
  end.

(** [var_partition_specs(var_specs, mesh_shape, device_axis_names)];
    [var_specs] is given by its leaves. *)
Definition var_partition_specs (var_specs : list WeightHParams) (mesh_shape : list Z)
    (device_axis_names : list string) : Py.result (list (list spec_dim)) :=
  Py.assert (length device_axis_names =? length mesh_shape)%nat;;
  tree_map (_get_spec device_axis_names) var_specs.

(** [_weight_hparam_to_pspec(hparam, mesh_axis_names)]: the [meta] of the
    [BoxedPartitionSpec]. *)
Definition _weight_hparam_to_pspec (hparam : WeightHParams)
    (mesh_axis_names : list string) : Py.result (list spec_dim) :=
  let mapping :=
    match tensor_split_dims_mapping hparam with
    | Some mapping => items mapping
    | None => replicate (length (shape hparam)) DNone
    end in
  to_partition_spec mapping mesh_axis_names.

(** [mapping.get(axes, axes)] on a dict given by its items. *)
Fixpoint dict_get (mapping : list (string * string)) (key default : string) : string :=
  match mapping with
  | [] => default
  | (k, v) :: mapping' => if decide (k = key) then v else dict_get mapping' key default
  end.

(** [_transpose_one_dim(axes)] of [maybe_shard]. *)
Fixpoint _transpose_one_dim (mapping : list (string * string)) (axes : spec_dim)
  : spec_dim :=
  match axes with
  | PNone => PNone
  | PAxis axes => PAxis (dict_get mapping axes axes)
  | PTuple axes => PTuple (List.map (_transpose_one_dim mapping) axes)
  end.

(** An entry of the spec that [maybe_shard] applies: an entry of the
    partition spec or [PartitionSpec.UNCONSTRAINED]. *)
Inductive constraint :=
| Dim (d : spec_dim)
| UNCONSTRAINED.

(** [l[i] = v] with Python's negative indices; [IndexError] out of range. *)
Definition setitem {A} (l : list A) (i : Z) (v : A) : Py.result (list A) :=
  let n := Z.of_nat (length l) in
  let j := if (i <? 0)%Z then (n + i)%Z else i in
  if (0 <=? j)%Z && (j <? n)%Z then mret (<[Z.to_nat j := v]> l)
  else Py.raise Py.IndexError.

(** [for dim in unconstrained_dims: partition_spec_list[dim] = UNCONSTRAINED] *)
Fixpoint mark_unconstrained (partition_spec_list : list constraint)
    (unconstrained_dims : list Z) : Py.result (list constraint) :=
  match unconstrained_dims with
  | [] => mret partition_spec_list
  | dim :: dims =>
      partition_spec_list ← setitem partition_spec_list dim UNCONSTRAINED;
      mark_unconstrained partition_spec_list dims
  end.

(** [maybe_shard(x, split_dims_mapping, mesh_axis_names, unconstrained_dims)]
    in the world [w], for [x] of shape [x_shape]: the partition spec that is
    passed with [x] to [with_sharding_constraint], or [None] when [x] is
    returned as it is. *)
Definition maybe_shard (x_shape : list Z) (split_dims_mapping : option (list split_dim))
    (mesh_axis_names : option (list string)) (unconstrained_dims : option (list Z))
    (w : Context.world) : Py.result (option (list constraint)) :=
  match split_dims_mapping, mesh_axis_names with
  | Some split_dims_mapping, Some mesh_axis_names =>
      Py.assert (length x_shape =? length split_dims_mapping)%nat;;
      partition_spec ← to_partition_spec split_dims_mapping mesh_axis_names;
      partition_spec ←
        (if Context.has_context w then
           '(_, context) ← GlobalSummaries.cur_context_object w;
           match Context.mesh_axes_transpose (Context._hparams context) with
           | Some (item :: items) =>
               mret (List.map (_transpose_one_dim (item :: items)) partition_spec)
           | _ => mret partition_spec
           end
         else mret partition_spec);
      let partition_spec := List.map Dim partition_spec in
      partition_spec ←
        match unconstrained_dims with
        | Some unconstrained_dims => mark_unconstrained partition_spec unconstrained_dims
        | None => mret partition_spec
        end;
      mret (Some partition_spec)
  | _, _ => mret None
  end.

End Sharding.

(** ** Variables of a layer: [BaseLayer.mesh_shape] and the hparams that
    [BaseLayer.create_variable] stores *)

Module Variables.
Import Tensor LayerConfig Weights.

(** The exceptions raised here. *)
Inductive exn :=
| AssertionError
| TypeError
| AttributeError (msg : string).

Definition result (A : Type) : Type := exn + A.

#[global] Instance result_ret : MRet result := λ A a, inr a.
#[global] Instance result_bind : MBind result := λ A B k m,
  match m with
  | inl e => inl e
  | inr a => k a
  end.

Definition assert (c : bool) : result unit :=
  if c then mret () else inl AssertionError.

(** [len(s)] of an optional sequence: a [TypeError] on [None]. *)
Definition len {A} (s : option (list A)) : result nat :=
  match s with
  | Some s => mret (length s)
  | None => inl TypeError
  end.

(** The property [BaseLayer.mesh_shape]. *)
Definition mesh_shape (self : BaseFields) : result (option (list Z)) :=
  (if bool_decide (ici_mesh_shape self = None) then mret ()
   else
     n ← len (ici_mesh_shape self);
     m ← len (mesh_axis_names self);
     assert (n =? m)%nat);;
  match dcn_mesh_shape self with
  | None => mret (ici_mesh_shape self)
  | Some dcn =>
      n ← len (ici_mesh_shape self);
      assert (n =? length dcn)%nat;;
      mret (Some (zip_with Z.mul (default [] (ici_mesh_shape self)) dcn))
  end.

Definition SKIP_LP_REGULARIZATION : string := "__lingvo_jax_skip_regularization".
Definition NON_TRAINABLE : string := "_lingvo_jax_non_trainable".

(** The part of a layer object that [create_variable] reads: the text of
    its class ([str(self.__class__)]), its base fields and the names for
    which [hasattr(self, name)] holds. *)
Record layer := {
  class_str : string;
  fields : BaseFields;
  attributes : gset string
}.

(** [create_variable(name, var_hparams, trainable)] up to the line
    [self._weight_hparams[name] = var_hparams.clone()]: the hparams stored
    for the variable. *)
Definition create_variable (self : layer) (name : string)
    (var_hparams : WeightHParams) (trainable : bool) : result WeightHParams :=
  if bool_decide (name ∈ attributes self) then
    inl (AttributeError (class_str self +:+ " can not create a new variable named "
                         +:+ PyStr.repr name
                         +:+ " because it already has a field with that name."))
  else
    let var_hparams := clone var_hparams in
    let var_hparams :=
      match init var_hparams with
      | None => set_init (Some (clone (params_init (fields self)))) var_hparams
      | Some _ => var_hparams
      end in
    let var_hparams :=
      match Weights.dtype var_hparams with
      | None => set_dtype (Some (LayerConfig.dtype (fields self))) var_hparams
      | Some _ => var_hparams
      end in
    self_mesh_shape ← mesh_shape (fields self);
    (match self_mesh_shape, tensor_split_dims_mapping var_hparams with
     | Some _, Some mapping =>
         assert (length (SplitDims.items mapping) =? length (shape var_hparams))%nat
     | _, _ => mret ()
     end);;
    let var_hparams :=
      match collections var_hparams with
      | None => set_collections (Some []) var_hparams
      | Some _ => var_hparams
      end in
    let var_hparams :=
      if bool_decide (skip_lp_regularization (fields self) = Some true)
         && negb (bool_decide (SKIP_LP_REGULARIZATION
                                 ∈ default [] (collections var_hparams)))
      then set_collections
             (Some (default [] (collections var_hparams) ++ [SKIP_LP_REGULARIZATION]))
             var_hparams
      else var_hparams in
    let var_hparams :=
      if negb trainable
         && negb (bool_decide (NON_TRAINABLE ∈ default [] (collections var_hparams)))
      then set_collections
             (Some (default [] (collections var_hparams) ++ [NON_TRAINABLE]))
             var_hparams
      else var_hparams in
    mret (clone var_hparams).

End Variables.

(** ** Child layers: [create_child], [create_children], [_create_child] *)

Module Children.
Import LayerConfig CopyDown Context.

(** What [setattr(self, name, ...)] stores in [create_child] and in
    [create_children]. *)
Inductive attribute :=
| Child (child : layer_obj)
| ChildList (children : list layer_obj).

(** The part of a layer object that the three methods use: the text of
    its class ([str(self.__class__)]), its dataclass fields, the root of its scope, whether it is in [setup], its
    [_private_children] and the attributes set on it. *)
Record layer := {
  class_str : string;
  self_fields : layer_p;
  scope_root : nat;
  in_setup : bool;
  _private_children : gmap string layer_obj;
  attributes : gmap string attribute
}.

Definition set_private_children (c : gmap string layer_obj) (self : layer) : layer :=
  {| class_str := class_str self;
     self_fields := self_fields self; scope_root := scope_root self;
     in_setup := in_setup self; _private_children := c;
     attributes := attributes self |}.

Definition setattr (name : string) (a : attribute) (self : layer) : layer :=
  {| class_str := class_str self;
     self_fields := self_fields self; scope_root := scope_root self;
     in_setup := in_setup self; _private_children := _private_children self;
     attributes := <[name := a]> (attributes self) |}.

(** The names of the dataclass fields that [BaseLayer] declares and
    inherits, other than [parent]. *)
Definition base_field_names : list string :=
  ["dtype"; "fprop_dtype"; "params_init"; "skip_lp_regularization";
   "ici_mesh_shape"; "dcn_mesh_shape"; "contiguous_submeshes"; "mesh_axis_names";
   "shared_weight_layer_id"; "weight_split_dims_mapping";
   "activation_split_dims_mapping"; "name"].

(** [self._hparam_fields] *)
Definition _hparam_fields (self : layer) : list string :=
  base_field_names ++ ((λ f : string * bool * config, f.1.1) <$> fields (self_fields self)).

Definition _check_child_layername_conflict (self : layer) (name : string)
  : Py.result unit :=
  if bool_decide (name ∈ _hparam_fields self) then
    Py.raise (Py.AttributeError
                (class_str self +:+ " can not create a new child named "
                 +:+ PyStr.repr name
                 +:+ " because it already has a field with that name."))
  else mret ().

(** [_create_child(name, params)] for [params] a [pax_fiddle.Config].  The
    test [name is self._private_children] compares a [str] with a [dict] by
    identity. *)
Definition _create_child (self : layer) (name : string) (params : layer_p) (w : world)
  : Py.result (layer_obj * layer * world) :=
  let name_is_private_children := false in
  if name_is_private_children then
    Py.raise (Py.ValueError
                ("Child `" +:+ name
                 +:+ "` already exists: make sure to use unique child names."))
  else
    let p := child_config (base (self_fields self)) name params in
    '(child, w) ← instantiate_layer p (scope_root self) w;
    mret (child, set_private_children (<[name := child]> (_private_children self)) self, w).

(** [create_child(name, params)] *)
Definition create_child (self : layer) (name : string) (params : layer_p) (w : world)
  : Py.result (layer_obj * layer * world) :=
  _check_child_layername_conflict self name;;
  '(child, self, w) ← _create_child self name params w;
  let self := if in_setup self then setattr name (Child child) self else self in
  mret (child, self, w).

(** The list comprehension of [create_children]; [uid] is the next value of
    [itertools.count()]. *)
Fixpoint create_children_loop (self : layer) (name : string) (uid : nat)
    (params : list layer_p) (w : world) : Py.result (list layer_obj * layer * world) :=
  match params with
  | [] => mret ([], self, w)
  | p :: params' =>
      '(child, self, w) ← _create_child self (name +:+ "_" +:+ PyStr.str uid) p w;
      '(children, self, w) ← create_children_loop self name (S uid) params' w;
      mret (child :: children, self, w)
  end.

(** [create_children(name, params)] *)
Definition create_children (self : layer) (name : string) (params : list layer_p)
    (w : world) : Py.result (list layer_obj * layer * world) :=
  let uid := 0%nat in
  _check_child_layername_conflict self name;;
  '(children, self, w) ← create_children_loop self name uid params w;
  let self := if in_setup self then setattr name (ChildList children) self else self in
  mret (children, self, w).

End Children.

(** ** [PaxConfig.copy_fields_from] ([pax_fiddle.py]) *)

Module FieldCopy.

(** A [dataclasses.Field]: [default] and [default_factory] are [None] when
    they are [dataclasses.MISSING]; a default factory is identified by the
    function object. *)
Record Field := {
  name : string;
  init : bool;
  default : option Fiddle.value;
  default_factory : option nat
}.

(** A [PaxConfig]: the dataclass it configures, by its qualified name and
    its fields, and its [__arguments__]. *)
Record PaxConfig := {
  __qualname__ : string;
  fields : list Field;
  __arguments__ : gmap string Fiddle.value
}.

(** [field.init and field.name not in ('parent', 'name')] *)
Definition copied (field : Field) : bool :=
  init field && negb (bool_decide (name field ∈ ["parent"; "name"])).

(** The dict [{field.name: field for field in fields if ...}], by its
    items; the fields of a dataclass have distinct names. *)
Definition field_dict (fields : list Field) : list Field :=
  List.filter copied fields.

(** [d.get(name, None)] *)
Definition get (d : list Field) (key : string) : option Field :=
  List.find (λ field, bool_decide (name field = key)) d.

(** The first loop: every field of the source is a field of [self] or is
    allowed to be missing. *)
Fixpoint check_fields (source_fields self_fields : list Field)
    (missing_fields_in_self : list string) : Py.result unit :=
  match source_fields with
  | [] => mret ()
  | field :: rest =>
      if negb (bool_decide (is_Some (get self_fields (name field))))
         && negb (bool_decide (name field ∈ missing_fields_in_self))
      then Py.raise (Py.ValueError ("Copying incompatible HParams: "
                                    +:+ PyStr.repr (name field) +:+ " not in self"))
      else check_fields rest self_fields missing_fields_in_self
  end.

(** The second loop, over the items of [self_fields] still to be treated;
    [arguments] is [self.__arguments__].  What was copied before an error
    stays copied. *)
Fixpoint copy_loop (source : PaxConfig) (source_fields self_fields : list Field)
    (arguments : gmap string Fiddle.value)
  : Py.result unit * gmap string Fiddle.value :=
  match self_fields with
  | [] => (mret (), arguments)
  | self_field :: rest =>
      let name := name self_field in
      match get source_fields name with
      | None => copy_loop source source_fields rest arguments
      | Some source_field =>
          match __arguments__ source !! name with
          | Some value =>
              copy_loop source source_fields rest (<[name := value]> arguments)
          | None =>
              match default source_field with
              | Some value =>
                  copy_loop source source_fields rest (<[name := value]> arguments)
              | None =>
                  match default_factory source_field with
                  | Some factory =>
                      if bool_decide (Some factory = default_factory self_field)
                      then copy_loop source source_fields rest (delete name arguments)
                      else (Py.raise (Py.ValueError
                                        ("Can't copy from default_factory "
                                         +:+ __qualname__ source +:+ "." +:+ name)),
                            arguments)
                  | None =>
                      (Py.raise (Py.ValueError
                                   ("Can't copy from missing required value "
                                    +:+ __qualname__ source +:+ "." +:+ name)),
                       arguments)
                  end
              end
          end
      end
  end.

(** [self.copy_fields_from(source, missing_fields_in_self)] for [source] a
    [PaxConfig]: what is raised, if anything, and [self.__arguments__]
    afterwards. *)
Definition copy_fields_from (self source : PaxConfig)
    (missing_fields_in_self : list string)
  : Py.result unit * gmap string Fiddle.value :=
  let source := LayerConfig.clone source in
  let source_fields := field_dict (fields source) in
  let self_fields := field_dict (fields self) in
  match check_fields source_fields self_fields missing_fields_in_self with
  | inl e => (inl e, __arguments__ self)
  | inr _ => copy_loop source source_fields self_fields (__arguments__ self)
  end.

End FieldCopy.

(** ** Functions on the world as computations *)

Module WorldComp.
Import Context.

(** A function on the world that returns nothing or raises, as a
    computation: the world is as it was when it raises. *)
Definition as_comp (f : world → Py.result world) : comp unit :=
  λ w, match f w with
       | inl e => (inl e, w)
       | inr w' => (inr (), w')
       end.

End WorldComp.

(** ** Vocabulary for the properties of the sharding annotations *)

Module ShardingSpec.
Import SplitDims.

(** Induction on mapping entries, with the hypothesis for every entry of a
    nested tuple or list. *)
Fixpoint split_dim_ind' (P : split_dim → Prop)
    (Hint : ∀ z, P (DInt z))
    (Hstr : ∀ s, P (DStr s))
    (Hnone : P DNone)
    (Htuple : ∀ l, Forall P l → P (DTuple l))
    (Hlist : ∀ l, Forall P l → P (DList l))
    (Hother : ∀ t, P (DOther t))
    (d : split_dim) {struct d} : P d :=
  let rec := split_dim_ind' P Hint Hstr Hnone Htuple Hlist Hother in
  match d with
  | DInt z => Hint z
  | DStr s => Hstr s
  | DNone => Hnone
  | DTuple l =>
      Htuple l
        ((fix go (l : list split_dim) : Forall P l :=
            match l with
            | [] => @List.Forall_nil _ P
            | x :: l' => @List.Forall_cons _ P x l' (rec x) (go l')
            end) l)
  | DList l =>
      Hlist l
        ((fix go (l : list split_dim) : Forall P l :=
            match l with
            | [] => @List.Forall_nil _ P
            | x :: l' => @List.Forall_cons _ P x l' (rec x) (go l')
            end) l)
  | DOther t => Hother t
  end.

(** Induction on the entries of a partition spec. *)
Fixpoint spec_dim_ind' (P : spec_dim → Prop)
    (Hnone : P PNone)
    (Haxis : ∀ name, P (PAxis name))
    (Htuple : ∀ l, Forall P l → P (PTuple l))
    (d : spec_dim) {struct d} : P d :=
  match d with
  | PNone => Hnone
  | PAxis name => Haxis name
  | PTuple l =>
      Htuple l
        ((fix go (l : list spec_dim) : Forall P l :=
            match l with
            | [] => @List.Forall_nil _ P
            | x :: l' =>
                @List.Forall_cons _ P x l' (spec_dim_ind' P Hnone Haxis Htuple x) (go l')
            end) l)
  end.

(** The mesh axes that an entry of a partition spec names. *)
Fixpoint axes_of (d : spec_dim) : list string :=
  match d with
  | PNone => []
  | PAxis name => [name]
  | PTuple axes => List.flat_map axes_of axes
  end.

(** An entry that asks for no sharding: [None] or a negative [int]. *)
Definition replicated (d : split_dim) : Prop :=
  d = DNone ∨ ∃ z, d = DInt z ∧ (z < 0)%Z.

End ShardingSpec.

(** ** Inputs for the examples of the further properties *)

Module MoreExamples.
Import Tensor SplitDims Weights.

Definition mesh_names : list string := ["replica"; "data"; "mdl"].

(** A mapping with an index, a name, [None], a nested tuple and [-1]. *)
Definition mixed_mapping : list split_dim :=
  [DInt 0; DStr "mdl"; DNone; DTuple [DStr "replica"; DStr "data"]; DInt (-1)].

(** [WeightHParams(shape=[4, 3])] *)
Definition plain_weight : WeightHParams :=
{| shape := [4; 3]%Z; init := None; dtype := None; collections := None;
   mesh_shape := None; tensor_split_dims_mapping := None; repeat_prefix := None;
   repeat_prefix_split_dims_mapping := None; repeat_optimizer_dims_mapping := None;
   fan_in_axes := None; fan_out_axes := None |}.

(** A weight of a layer with a mesh, without a mapping. *)
Definition mesh_weight : WeightHParams :=
{| shape := [4; 3]%Z; init := None; dtype := None; collections := None;
   mesh_shape := Some [1; 2; 4]%Z; tensor_split_dims_mapping := None;
   repeat_prefix := None;
   repeat_prefix_split_dims_mapping := None; repeat_optimizer_dims_mapping := None;
   fan_in_axes := None; fan_out_axes := None |}.

(** A weight under two nested scans of lengths 4 and 2. *)
Definition scanned_weight : BoxedParam :=
{| value := 7;
   meta :=
     {| shape := [4; 3]%Z; init := None; dtype := None; collections := None;
        mesh_shape := None;
        tensor_split_dims_mapping := Some (PySeq tuple_ [DInt (-1); DStr "mdl"]);
        repeat_prefix := Some (PySeq list_ [4; 2]%Z);
        repeat_prefix_split_dims_mapping := Some (PySeq tuple_ [DInt (-1); DInt 0]);
        repeat_optimizer_dims_mapping := None;
        fan_in_axes := None; fan_out_axes := None |} |}.

(** The metadata of a scan of length 4 that is initializing. *)
Definition scan_params : MetadataParams :=
{| is_initializing := true; x_times := 4;
   sub_weight_split_dims_mapping := None; optimizer_dims_mapping := None |}.

(** A layer that skips the regularization of its variables and has an
    attribute [name]. *)
Definition skipping_layer : Variables.layer :=
{| Variables.class_str := "<class 'praxis.layers.linears.Linear'>";
   Variables.fields :=
     {| LayerConfig.name := Some "fc"; LayerConfig.dtype := bfloat16;
        LayerConfig.fprop_dtype := Some bfloat16;
        LayerConfig.params_init := LayerConfig.default_param_init;
        LayerConfig.skip_lp_regularization := Some true;
        LayerConfig.ici_mesh_shape := None; LayerConfig.dcn_mesh_shape := None;
        LayerConfig.contiguous_submeshes := false;
        LayerConfig.mesh_axis_names := None;
        LayerConfig.shared_weight_layer_id := None |};
   Variables.attributes := {[ "name" ]} |}.

(** A parent layer in [setup], of dtype [bfloat16], without children. *)
Definition parent_layer : Children.layer :=
{| Children.class_str := "<class 'praxis.layers.transformers.Block'>";
   Children.self_fields :=
     {| LayerConfig.uid := 9; LayerConfig.cls := "Block"; LayerConfig.explicit := [];
        LayerConfig.base := Examples.parent_bf16; LayerConfig.fields := [] |};
   Children.scope_root := 5;
   Children.in_setup := true;
   Children._private_children := ∅;
   Children.attributes := ∅ |}.

(** Two dataclasses: [Linear(name, dims=0)] and [Biased(name, dims=0, bias)]. *)
Definition name_field : FieldCopy.Field :=
{| FieldCopy.name := "name"; FieldCopy.init := true;
   FieldCopy.default := Some (Fiddle.Atom Fiddle.ANone);
   FieldCopy.default_factory := None |}.

Definition dims_field : FieldCopy.Field :=
{| FieldCopy.name := "dims"; FieldCopy.init := true;
   FieldCopy.default := Some (Fiddle.Atom (Fiddle.AInt 0));
   FieldCopy.default_factory := None |}.

Definition bias_field : FieldCopy.Field :=
{| FieldCopy.name := "bias"; FieldCopy.init := true;
   FieldCopy.default := None; FieldCopy.default_factory := None |}.

Definition linear_config (name : string) (dims : option Z) : FieldCopy.PaxConfig :=
{| FieldCopy.__qualname__ := "Linear";
   FieldCopy.fields := [name_field; dims_field];
   FieldCopy.__arguments__ :=
     <["name" := Fiddle.Atom (Fiddle.AStr name)]>
       (from_option (λ d, {[ "dims" := Fiddle.Atom (Fiddle.AInt d) ]}) ∅ dims) |}.

Definition biased_config : FieldCopy.PaxConfig :=
{| FieldCopy.__qualname__ := "Biased";
   FieldCopy.fields := [name_field; dims_field; bias_field];
   FieldCopy.__arguments__ := {[ "bias" := Fiddle.Atom (Fiddle.ABool true) ]} |}.

(** A context object and the wrapper of a shared layer. *)
Definition default_context : Context.JaxContext :=
{| Context._hparams := Context.default_HParams; Context._summary_dict := ∅;
   Context._root_scope_to_shared_layers_map := ∅ |}.

Definition emb_wrapper : Context.wrapper_obj :=
{| Context.wrapper_uid := 1; Context.wrapper_name := "emb";
   Context.cld := {| Context.layer_uid := 2;
                     Context.layer_hparams := Examples.shared_p "emb" "emb" |} |}.

End MoreExamples.

(** * Properties *)

(** ** Facts about the string helpers *)

Section PyStrFacts.
Import PyStr.

Lemma length_append (s1 s2 : string) :
  String.length (s1 +:+ s2) = (String.length s1 + String.length s2)%nat.
Proof. induction s1 as [|c s1 IH]; simpl; [done | by rewrite IH]. Qed.

Lemma drop_append (s1 s2 : string) : drop (String.length s1) (s1 +:+ s2) = s2.
Proof. induction s1 as [|c s1 IH]; simpl; [by destruct s2 | done]. Qed.

Lemma take_append (s1 s2 : string) : take (String.length s1) (s1 +:+ s2) = s1.
Proof. induction s1 as [|c s1 IH]; simpl; [done | by rewrite IH]. Qed.

Lemma take_drop (i : nat) (s : string) : take i s +:+ drop i s = s.
Proof.
  revert s; induction i as [|i IH]; intros [|c s]; simpl; try done.
  change (String c (take i s +:+ drop i s) = String c s). by rewrite IH.
Qed.

Lemma endswith_append (s suffix : string) : endswith (s +:+ suffix) suffix = true.
Proof.
  unfold endswith. rewrite length_append.
  replace (String.length s + String.length suffix - String.length suffix)%nat
    with (String.length s) by lia.
  rewrite drop_append, String.eqb_refl, andb_true_r.
  apply Nat.leb_le. lia.
Qed.

Lemma endswith_inv (key suffix : string) :
  endswith key suffix = true → ∃ p, key = p +:+ suffix.
Proof.
  unfold endswith. intros [_ H%String.eqb_eq]%andb_true_iff.
  exists (take (String.length key - String.length suffix) key).
  rewrite <- H at 2. symmetry. apply take_drop.
Qed.

(** Two suffixes of one string are comparable. *)
Lemma append_eq_suffix (s p a b : string) :
  s +:+ a = p +:+ b → (∃ q, a = q +:+ b) ∨ (∃ q, b = q +:+ a).
Proof.
  revert p; induction s as [|c s IH]; intros p H; simpl in H.
  - left. by exists p.
  - destruct p as [|c' p]; simpl in H.
    + right. by exists (String c s).
    + injection H as _ H. by apply IH in H.
Qed.

Lemma endswith_append_false (s a b : string) :
  endswith a b = false → endswith b a = false → endswith (s +:+ a) b = false.
Proof.
  intros Hab Hba. destruct (endswith (s +:+ a) b) eqn:E; [|done].
  apply endswith_inv in E as [p E].
  apply append_eq_suffix in E as [[q ->]|[q ->]].
  - by rewrite endswith_append in Hab.
  - by rewrite endswith_append in Hba.
Qed.

Lemma slice_to_neg_append (s suffix : string) :
  slice_to_neg (s +:+ suffix) (String.length suffix) = s.
Proof.
  unfold slice_to_neg. rewrite length_append.
  replace (String.length s + String.length suffix - String.length suffix)%nat
    with (String.length s) by lia.
  apply take_append.
Qed.

End PyStrFacts.

(** ** Summary keys *)

Section SummaryKeys.
Import PyStr Summary.

Lemma summary_suffix_base (t : SummaryType) :
  get_summary_type_suffix t = "_" +:+ lower (name (get_summary_base_type t)).
Proof. done. Qed.

(** The parse of a suffixed key is the base type, whatever the base name. *)
Lemma type_from_suffixed_key (s : string) (t : SummaryType) :
  get_summary_type_from_key (s +:+ get_summary_type_suffix t)
  = Some (get_summary_base_type t).
Proof.
  unfold get_summary_type_from_key, members.
  destruct t; cbn [get_summary_type_suffix get_summary_base_type decide];
    vm_compute (get_summary_type_suffix _); vm_compute (get_summary_base_type _);
    cbn [type_from_key_loop]; vm_compute (lower _);
    repeat first
      [ rewrite endswith_append; reflexivity
      | rewrite (endswith_append_false s) by (vm_compute; reflexivity) ].
Qed.

Lemma trim_suffixed_key (s : string) (t : SummaryType) :
  trim_summary_type_from_key (s +:+ get_summary_type_suffix t) = Some s.
Proof.
  unfold trim_summary_type_from_key, members.
  destruct t; vm_compute (get_summary_type_suffix _);
    cbn [trim_loop]; vm_compute (lower _);
    repeat first
      [ rewrite endswith_append; f_equal; apply slice_to_neg_append
      | rewrite (endswith_append_false s) by (vm_compute; reflexivity) ].
Qed.

End SummaryKeys.

Section SummaryKeysClaim.
Import PyStr Summary.

(** C10.  For every summary type [t] and every base name [s] that does not
    itself end in a type suffix, parsing the type of [s] followed by the
    suffix of [t] gives the base type of [t], and trimming the type from
    it gives [s] back. *)
Theorem summary_key_roundtrip (s : string) (t : SummaryType) :
  get_summary_type_from_key s = None →
  get_summary_type_from_key (s +:+ get_summary_type_suffix t)
    = Some (get_summary_base_type t)
  ∧ trim_summary_type_from_key (s +:+ get_summary_type_suffix t) = Some s.
Proof.
  intros _. split; [apply type_from_suffixed_key | apply trim_suffixed_key].
Qed.

Lemma summary_key_roundtrip_witness :
  get_summary_type_from_key ("loss" +:+ get_summary_type_suffix AGGREGATE_IMAGE)
    = Some (get_summary_base_type AGGREGATE_IMAGE)
  ∧ trim_summary_type_from_key ("loss" +:+ get_summary_type_suffix AGGREGATE_IMAGE)
    = Some "loss".
Proof. apply (summary_key_roundtrip "loss" AGGREGATE_IMAGE). reflexivity. Defined.
End SummaryKeysClaim.

Section FanFacts.
Import Fan.

Lemma getitem_nonneg (shape : list Z) (i : nat) (d : Z) :
  shape !! i = Some d → getitem shape (Z.of_nat i) = inr d.
Proof.
  intros H. unfold getitem.
  assert (i < length shape)%nat by (by eapply lookup_lt_Some).
  destruct (Z.ltb_spec (Z.of_nat i) 0); [lia|].
  destruct (Z.leb_spec 0 (Z.of_nat i)); [|lia].
  destruct (Z.ltb_spec (Z.of_nat i) (Z.of_nat (length shape))); [|lia].
  simpl. by rewrite Nat2Z.id, H.
Qed.

Lemma getitem_neg (shape : list Z) (i : nat) (d : Z) :
  (0 < i ≤ length shape)%nat →
  shape !! (length shape - i)%nat = Some d →
  getitem shape (- Z.of_nat i) = inr d.
Proof.
  intros Hi H. unfold getitem.
  destruct (Z.ltb_spec (- Z.of_nat i) 0); [|lia].
  destruct (Z.leb_spec 0 (Z.of_nat (length shape) + - Z.of_nat i)); [|lia].
  destruct (Z.ltb_spec (Z.of_nat (length shape) + - Z.of_nat i) (Z.of_nat (length shape))); [|lia].
  simpl.
  replace (Z.to_nat (Z.of_nat (length shape) + - Z.of_nat i)) with (length shape - i)%nat by lia.
  by rewrite H.
Qed.

Lemma multiply_axes_range (shape : list Z) (k i : nat) (acc : Z) :
  (i + k ≤ length shape)%nat →
  multiply_axes shape (Z.of_nat <$> seq i k) acc
  = inr (acc * prod (take k (drop i shape)))%Z.
Proof.
  revert i acc. induction k as [|k IH]; intros i acc Hlen; simpl.
  - unfold prod. simpl. f_equal. lia.
  - destruct (lookup_lt_is_Some_2 shape i) as [d Hd]; [lia|].
    rewrite (getitem_nonneg _ _ _ Hd). simpl.
    rewrite IH by lia.
    rewrite (drop_S _ _ _ Hd). simpl. f_equal. unfold prod. simpl. lia.
Qed.
End FanFacts.

Section FanClaim.
Import Fan.

Lemma all_but_last_two_range (n : nat) :
  all_but_last_two (range (n + 2)) = range n.
Proof.
  unfold all_but_last_two, range.
  rewrite length_fmap, length_seq, <- fmap_take.
  replace (n + 2 - 2)%nat with n by lia.
  f_equal. rewrite seq_app, take_app_length'; [done | by rewrite length_seq].
Qed.

Lemma fan_rank_ge_2 (lead : list Z) (a b : Z) :
  get_fan_in_fan_out (lead ++ [a; b]) None None
  = inr (Some (a * prod lead)%Z, Some (b * prod lead)%Z).
Proof.
  unfold get_fan_in_fan_out.
  assert (Hlen : length (lead ++ [a; b]) = (length lead + 2)%nat)
    by (rewrite length_app; simpl; lia).
  rewrite bool_decide_eq_false_2 by (by destruct lead).
  rewrite Hlen.
  destruct (Nat.ltb_spec (length lead + 2) 1); [lia|].
  destruct (Nat.eqb_spec (length lead + 2) 1); [lia|].
  simpl. rewrite all_but_last_two_range. unfold range.
  rewrite multiply_axes_range by lia. simpl.
  rewrite drop_0, take_app_length.
  rewrite (getitem_neg _ 2 a); [|rewrite Hlen; lia|].
  2:{ rewrite Hlen. replace (length lead + 2 - 2)%nat with (length lead + 0)%nat by lia.
      by rewrite lookup_app_r, Nat.add_0_r, Nat.sub_diag by lia. }
  simpl.
  rewrite (getitem_neg _ 1 b); [|rewrite Hlen; lia|].
  2:{ rewrite Hlen. replace (length lead + 2 - 1)%nat with (length lead + 1)%nat by lia.
      rewrite lookup_app_r by lia.
      by replace (length lead + 1 - length lead)%nat with 1%nat by lia. }
  simpl. do 2 f_equal; f_equal; lia.
Qed.

(** C6, as stated, fails for a shape of rank 0: the function returns
    [(None, None)], not [(1, 1)]. *)
Lemma fan_0d_counterexample :
  get_fan_in_fan_out [] None None ≠ inr (Some 1%Z, Some 1%Z).
Proof. vm_compute. discriminate. Qed.

(** C6, amended.  With the default fan axes, [get_fan_in_fan_out] returns
    [(None, None)] for the empty shape, [(d, d)] for the shape [(d,)], and
    for a shape of rank at least two [shape[-2]] and [shape[-1]], each
    times the product of the leading axes; so [(4, 3)] gives [(4, 3)] and
    [(5,)] gives [(5, 5)]. *)
Theorem fan_in_fan_out_default_axes :
  get_fan_in_fan_out [] None None = inr (None, None)
  ∧ (∀ d, get_fan_in_fan_out [d] None None = inr (Some d, Some d))
  ∧ (∀ lead a b,
       get_fan_in_fan_out (lead ++ [a; b]) None None
       = inr (Some (a * prod lead)%Z, Some (b * prod lead)%Z))
  ∧ get_fan_in_fan_out [4; 3]%Z None None = inr (Some 4%Z, Some 3%Z)
  ∧ get_fan_in_fan_out [5]%Z None None = inr (Some 5%Z, Some 5%Z).
Proof.
  split; [reflexivity|]. split; [intros d; reflexivity|].
  split; [apply fan_rank_ge_2|]. split; reflexivity.
Qed.
End FanClaim.

(** ** The ambient context stack *)

Section ContextScope.
Import Context.

Lemma exit_with_stack (self : nat) (w : world) (s : list nat) :
  stack w = s ++ [self] → __exit__ self w = inr (set_stack s w).
Proof.
  intros E. unfold __exit__. rewrite E.
  rewrite (bool_decide_eq_false_2 (s ++ [self] = []))
    by (intros [_ ?]%app_eq_nil; discriminate).
  rewrite last_snoc, (bool_decide_eq_true_2 (Some self = Some self)) by done.
  simpl. by rewrite removelast_last.
Qed.

(** C9.  A frame entered by scoped acquisition is popped on exit whether the
    enclosed computation returns or raises (its outcome [r] is arbitrary
    and is passed on): after the exit the stack, [has_context()] and
    [top()] are as they were before the entry.  The enclosed computation
    is one that leaves the stack as it found it, such as any nesting of
    further scopes. *)
Theorem context_scope_restored {A : Type} (self : nat) (body : comp A) (w : world) :
  stack (body (__enter__ self w)).2 = stack (__enter__ self w) →
  stack (with_context self body w).2 = stack w
  ∧ has_context (with_context self body w).2 = has_context w
  ∧ top (with_context self body w).2 = top w
  ∧ (with_context self body w).1 = (body (__enter__ self w)).1.
Proof.
  intros Hbody. unfold with_context.
  destruct (body (__enter__ self w)) as [r w1] eqn:E. simpl in Hbody.
  rewrite (exit_with_stack self w1 (stack w)) by done. simpl.
  unfold has_context, top. simpl. done.
Qed.

(** The context stack is restored when the enclosed computation raises. *)
Lemma context_scope_restored_witness :
  let w := {| stack := [7]; heap := ∅; next_uid := 0 |} in
  let body : comp unit := λ w, (Py.raise (Py.ValueError "boom"), w) in
  stack (with_context 3 body w).2 = stack w
  ∧ has_context (with_context 3 body w).2 = has_context w
  ∧ top (with_context 3 body w).2 = top w
  ∧ (with_context 3 body w).1 = (body (__enter__ 3 w)).1.
Proof. intros w body. apply (context_scope_restored 3 body w). reflexivity. Defined.

Lemma with_context_keeps_stack {A} (self : nat) (body : comp A) :
  keeps_stack body → keeps_stack (with_context self body).
Proof.
  intros H w. unfold with_context.
  specialize (H (__enter__ self w)).
  destruct (body (__enter__ self w)) as [r w1]. simpl in H.
  by rewrite (exit_with_stack self w1 (stack w)).
Qed.

(** While the body runs, the frame is the innermost one. *)
Lemma enter_top (self : nat) (w : world) :
  top (__enter__ self w) = Some self ∧ has_context (__enter__ self w) = true.
Proof.
  unfold top, has_context, __enter__. simpl.
  rewrite bool_decide_eq_false_2 by (intros [_ ?]%app_eq_nil; discriminate).
  rewrite last_snoc, length_app. simpl. split; [done|].
  apply Nat.ltb_lt. lia.
Qed.
End ContextScope.

(** ** The theta accessor *)

Section ThetaRead.
Import Tensor ThetaAccess.


End ThetaRead.

Section ThetaExamples.
Import Tensor ThetaAccess Examples.


End ThetaExamples.

(** ** Unique summary keys *)

Section PyStrMore.
Import PyStr.

Lemma append_inj_l (p x y : string) : p +:+ x = p +:+ y → x = y.
Proof. induction p as [|c p IH]; simpl; [done|]. intros [=]. auto. Qed.

Lemma str_inj (n m : nat) : str n = str m → n = m.
Proof.
  unfold str. intros H. apply Unsigned.to_uint_inj.
  assert (Some (Nat.to_uint n) = Some (Nat.to_uint m)) as [=]; [|done].
  by rewrite <- !NilEmpty.usu, H.
Qed.

Lemma str_length_pos (n : nat) : (0 < String.length (str n))%nat.
Proof.
  unfold str. destruct (Nat.to_uint n) eqn:E; simpl; try lia.
  pose proof (Unsigned.of_to n) as H. rewrite E in H. simpl in H. subst n.
  discriminate E.
Qed.

Lemma append_inj_r (x y s : string) : x +:+ s = y +:+ s → x = y.
Proof.
  revert y. induction x as [|c x IH]; intros [|c' y] H; try done.
  - apply (f_equal String.length) in H.
    change (String c' y +:+ s) with (String c' (y +:+ s)) in H.
    simpl in H. rewrite !length_append in H. simpl in H. lia.
  - apply (f_equal String.length) in H.
    change (String c x +:+ s) with (String c (x +:+ s)) in H.
    simpl in H. rewrite !length_append in H. simpl in H. lia.
  - change (String c (x +:+ s) = String c' (y +:+ s)) in H.
    injection H as -> H. f_equal. by apply IH.
Qed.
End PyStrMore.

Section Scan.
Import Summaries.

Lemma scan_not_taken fuel taken rename i full_name k :
  scan fuel taken rename i full_name = Some k → taken k = false.
Proof.
  revert i full_name. induction fuel as [|fuel IH]; intros i full_name; simpl.
  - destruct (taken full_name) eqn:E; [done|]. by intros [= <-].
  - destruct (taken full_name) eqn:E; [apply IH|]. by intros [= <-].
Qed.

(** The loop ends within as many iterations as there are names taken,
    when renaming never repeats a name. *)
Lemma scan_total fuel (taken : string → bool) rename :
  ∀ (L : list string) i full_name,
    (∀ k, taken k = true → (k = full_name ∨ ∃ j, (i < j)%nat ∧ k = rename j) → k ∈ L) →
    (length L ≤ fuel)%nat →
    (∀ j j', i < j → i < j' → rename j = rename j' → j = j')%nat →
    (∀ j, i < j → rename j ≠ full_name)%nat →
    is_Some (scan fuel taken rename i full_name).
Proof.
  induction fuel as [|fuel IH]; intros L i full_name HL Hlen Hinj Hne; simpl.
  - destruct (taken full_name) eqn:E; [|eauto].
    apply HL in E; [|by left].
    destruct L; [by apply elem_of_nil in E | simpl in Hlen; lia].
  - destruct (taken full_name) eqn:E; [|eauto].
    apply (IH (filter (λ k, k ≠ full_name) L)).
    + intros k Hk Hfut. apply list_elem_of_filter.
      assert (∃ j, (i < j)%nat ∧ k = rename j) as (j & Hj & ->).
      { destruct Hfut as [->|(j & Hj & ->)]; [exists (S i); split; [lia|done]|].
        exists j. split; [lia|done]. }
      split; [by apply Hne|]. apply HL; eauto.
    + assert (full_name ∈ L) as Hin by (apply HL; auto).
      pose proof (length_filter_lt (λ k, k ≠ full_name) L full_name Hin) as Hlt.
      assert (length (filter (λ k : string, k ≠ full_name) L) < length L)%nat
        by (apply Hlt; tauto).
      lia.
    + intros j j' Hj Hj'. apply Hinj; lia.
    + intros j Hj Heq. apply Hinj in Heq; lia.
Qed.

Lemma dict_scan_total (dict : gmap string Tensor.JTensor) (base suffix : string) :
  is_Some (scan (size dict) (λ k, bool_decide (is_Some (dict !! k)))
             (λ next_iter, base +:+ PyStr.str next_iter +:+ suffix)
             0 (base +:+ suffix)).
Proof.
  apply (scan_total _ _ _ (map_to_list dict).*1).
  - intros k [v Hk]%bool_decide_eq_true_1 _.
    apply list_elem_of_fmap. exists (k, v). split; [done|].
    by apply elem_of_map_to_list.
  - by rewrite length_fmap, length_map_to_list.
  - intros j j' _ _ H%append_inj_l%append_inj_r. by apply str_inj.
  - intros j _ H%append_inj_l.
    apply (f_equal String.length) in H. rewrite length_append in H.
    pose proof (str_length_pos j). lia.
Qed.

Lemma layer_scan_total (self : layer_summaries) (name : string) :
  is_Some (scan (size (summaries self)) (has_variable self)
             (λ next_iter, name +:+ PyStr.str next_iter) 0 name).
Proof.
  apply (scan_total _ _ _ (map_to_list (summaries self)).*1).
  - intros k [v Hk]%bool_decide_eq_true_1 _.
    apply list_elem_of_fmap. exists (k, v). split; [done|].
    by apply elem_of_map_to_list.
  - by rewrite length_fmap, length_map_to_list.
  - intros j j' _ _ H%append_inj_l. by apply str_inj.
  - intros j _ H.
    apply (f_equal String.length) in H. rewrite length_append in H.
    pose proof (str_length_pos j). lia.
Qed.
End Scan.

Section SummaryKeysUnique.
Import Tensor Summary Context Summaries Examples.

(** [_SummaryDict.add_summary] stores the tensor under a key that was free:
    no earlier entry is replaced. *)
Lemma dict_add_summary_fresh dict name tensor summary_type dict' :
  dict_add_summary dict name tensor summary_type = inr dict' →
  ∃ key tensor', dict !! key = None ∧ dict' = <[key := tensor']> dict.
Proof.
  unfold dict_add_summary.
  destruct (scan _ _ _ _ _) as [key|] eqn:E; [|done].
  apply scan_not_taken in E. apply bool_decide_eq_false_1 in E.
  assert (dict !! key = None) by (destruct (dict !! key); [exfalso; eauto | done]).
  destruct (_ || _); simpl.
  - destruct (image_batch_dim tensor) as [|t']; simpl; [done|].
    intros [= <-]. eauto.
  - intros [= <-]. eauto.
Qed.

(** Two scalar summaries named "loss" in one [_SummaryDict]. *)
Lemma dict_add_summary_loss_twice :
  (dict_add_summary ∅ "loss" (scalar 1) SCALAR
     ≫= λ d, dict_add_summary d "loss" (scalar 2) SCALAR)
  = inr {[ "loss_scalar" := scalar 1; "loss1_scalar" := scalar 2 ]}.
Proof. vm_compute. reflexivity. Qed.

(** [BaseLayer.add_summary] tests the name without its type suffix: when
    no variable is stored under the bare [name], the tensor goes under
    [name] followed by the suffix, whether or not that key is taken. *)
Lemma add_summary_scalar_key (self : layer_summaries) (name : string)
    (tensor : JTensor) (verbosity : Z) :
  has_variable self name = false →
  add_summary no_context self name (inl tensor) SCALAR verbosity
  = inr (sow self (name +:+ "_scalar") tensor).
Proof.
  intros H. unfold add_summary. simpl.
  destruct (size (summaries self)); simpl; by rewrite H.
Qed.

(** C7.  On a layer, two scalar summaries named "loss" are stored under the
    same key [loss_scalar], the second replacing the first; no key
    [loss1_scalar] is made. *)
Theorem layer_add_summary_loss_twice :
  (add_summary no_context empty_summaries "loss" (inl (scalar 1)) SCALAR 2
     ≫= λ self, add_summary no_context self "loss" (inl (scalar 2)) SCALAR 2)
  = inr {| summaries := {[ "loss_scalar" := scalar 2 ]}; summaries_mutable := true |}.
Proof. vm_compute. reflexivity. Qed.

End SummaryKeysUnique.

(** ** The shared-layer cache *)

Section SharedLayers.
Import LayerConfig Context.






(** The first call for an id registers the layer it creates, with the
    config it was called with. *)
Lemma instantiate_layer_miss layer_p scope w id ctx :
  shared_weight_layer_id (base layer_p) = Some id → id ≠ "" →
  current_context w = Some ctx →
  lookup_shared_layer ctx scope id = None →
  ∃ l1 w1 ctx1 entry,
    instantiate_layer layer_p scope w = inr (l1, w1)
    ∧ current_context w1 = Some ctx1
    ∧ lookup_shared_layer ctx1 scope id = Some entry
    ∧ layer entry = l1 ∧ hparams entry = layer_p
    ∧ (next_uid w ≤ layer_uid l1)%nat.
Proof.
  intros Hid Hne Hctx Hentry.
  unfold instantiate_layer, truthy, cur_jax_context, current_context in *.
  rewrite Hid, bool_decide_eq_false_2 by done. simpl.
  destruct (top w) as [current|] eqn:Htop; [|done]. simpl in *.
  rewrite Hctx. simpl. rewrite Hentry.
  unfold instantiate_wrapper, Instantiate, set_shared_layer. simpl.
  rewrite Hentry. simpl.
  eexists _, _, _, _. split; [reflexivity|].
  split; [|split; [|split; [|split]]].
  - unfold top in *. simpl. destruct (bool_decide (stack w = [])); [done|].
    rewrite Htop. simpl. by rewrite lookup_insert_eq.
  - unfold lookup_shared_layer. simpl.
    by rewrite lookup_insert_eq; simpl; rewrite lookup_insert_eq.
  - done.
  - done.
  - simpl. lia.
Qed.

End SharedLayers.

Section SharedLayerExamples.
Import Tensor LayerConfig Context Examples.


(** Two call sites, same id: the second call returns the first layer. *)
Lemma shared_layer_two_calls :
  ∃ l1 w1,
    instantiate_layer (shared_p "a" "emb") 5 one_context = inr (l1, w1)
    ∧ instantiate_layer (shared_p "b" "emb") 5 w1 = inr (l1, w1).
Proof. eexists _, _. split; vm_compute; reflexivity. Qed.

End SharedLayerExamples.

(** ** Copy-down of the base fields *)

Section CopyDownFacts.
Import Tensor LayerConfig CopyDown CopyDownSpec.

Ltac base_fields_cbn :=
  cbn [name dtype fprop_dtype params_init skip_lp_regularization ici_mesh_shape
       dcn_mesh_shape contiguous_submeshes mesh_axis_names shared_weight_layer_id
       set_dtype set_fprop_dtype set_params_init set_skip_lp_regularization
       set_ici_mesh_shape set_dcn_mesh_shape set_mesh_axis_names set_name].

(** The seven conditional assignments, all at once. *)
Lemma copy_closed_form s t :
  _copy_base_hparams s t
  = {| name := name t;
       dtype := if bool_decide (dtype t = float32) then dtype s else dtype t;
       fprop_dtype := if bool_decide (fprop_dtype t = None)
                      then fprop_dtype s else fprop_dtype t;
       params_init := if is_default_param_init (params_init t)
                      then params_init s else params_init t;
       skip_lp_regularization :=
         if bool_decide (skip_lp_regularization t = None)
         then skip_lp_regularization s else skip_lp_regularization t;
       ici_mesh_shape := if bool_decide (ici_mesh_shape t = None)
                         then ici_mesh_shape s else ici_mesh_shape t;
       dcn_mesh_shape := if bool_decide (dcn_mesh_shape t = None)
                         then dcn_mesh_shape s else dcn_mesh_shape t;
       contiguous_submeshes := contiguous_submeshes t;
       mesh_axis_names := if bool_decide (mesh_axis_names t = None)
                          then mesh_axis_names s else mesh_axis_names t;
       shared_weight_layer_id := shared_weight_layer_id t |}.
Proof.
  destruct t. unfold _copy_base_hparams. base_fields_cbn.
  repeat (match goal with
          | |- context [if ?b then _ else _] =>
              lazymatch b with
              | context [if _ then _ else _] => fail
              | _ => destruct b
              end
          end; base_fields_cbn);
  reflexivity.
Qed.


Lemma copy_fprop_dtype s t :
  fprop_dtype (_copy_base_hparams s t)
  = if bool_decide (fprop_dtype t = None) then fprop_dtype s else fprop_dtype t.
Proof. by rewrite copy_closed_form. Qed.

Lemma copy_skip_lp_regularization s t :
  skip_lp_regularization (_copy_base_hparams s t)
  = if bool_decide (skip_lp_regularization t = None)
    then skip_lp_regularization s else skip_lp_regularization t.
Proof. by rewrite copy_closed_form. Qed.

Lemma copy_ici_mesh_shape s t :
  ici_mesh_shape (_copy_base_hparams s t)
  = if bool_decide (ici_mesh_shape t = None) then ici_mesh_shape s else ici_mesh_shape t.
Proof. by rewrite copy_closed_form. Qed.

Lemma copy_dcn_mesh_shape s t :
  dcn_mesh_shape (_copy_base_hparams s t)
  = if bool_decide (dcn_mesh_shape t = None) then dcn_mesh_shape s else dcn_mesh_shape t.
Proof. by rewrite copy_closed_form. Qed.

Lemma copy_mesh_axis_names s t :
  mesh_axis_names (_copy_base_hparams s t)
  = if bool_decide (mesh_axis_names t = None)
    then mesh_axis_names s else mesh_axis_names t.
Proof. by rewrite copy_closed_form. Qed.

Lemma copy_params_init s t :
  params_init (_copy_base_hparams s t)
  = if is_default_param_init (params_init t) then params_init s else params_init t.
Proof. by rewrite copy_closed_form. Qed.

Lemma copy_other_fields s t :
  name (_copy_base_hparams s t) = name t
  ∧ contiguous_submeshes (_copy_base_hparams s t) = contiguous_submeshes t
  ∧ shared_weight_layer_id (_copy_base_hparams s t) = shared_weight_layer_id t.
Proof. by rewrite copy_closed_form. Qed.



Lemma visit_layer s u cls ex b fs st :
  visit s (Layer u cls ex b fs) st
  = match st !! u with
    | Some _ => st
    | None =>
        visit_args (_copy_base_hparams s b) fs
          (<[u := (foldl mark_explicit ex (assigned b), _copy_base_hparams s b)]> st)
    end.
Proof. reflexivity. Qed.

Lemma visit_other s fn fs st : visit s (Other fn fs) st = visit_args s fs st.
Proof. reflexivity. Qed.

Lemma visit_seq s l st : visit s (Seq l) st = visit_items s l st.
Proof. reflexivity. Qed.

Lemma visit_map s d st : visit s (Map d) st = visit_map_items s d st.
Proof. reflexivity. Qed.

Lemma visit_args_cons s k t v fs st :
  visit_args s ((k, t, v) :: fs) st
  = visit_args s fs (if t then st else visit s v st).
Proof. reflexivity. Qed.

Lemma resolve_layer st u cls ex b fs :
  resolve st (Layer u cls ex b fs)
  = Layer u cls (default (ex, b) (st !! u)).1 (default (ex, b) (st !! u)).2
      (resolve_fields st fs).
Proof.
  simpl. f_equal. induction fs as [|[[k t] v] fs IH]; simpl; [done|]. by rewrite IH.
Qed.








Lemma uids_layer u cls ex b fs : uids (Layer u cls ex b fs) = u :: uids_fields fs.
Proof. reflexivity. Qed.

Lemma uids_other fn fs : uids (Other fn fs) = uids_fields fs.
Proof. reflexivity. Qed.

Lemma uids_seq l : uids (Seq l) = uids_items l.
Proof. reflexivity. Qed.

Lemma uids_map d : uids (Map d) = uids_map_items d.
Proof. reflexivity. Qed.

(** The traversal only adds entries, and only for layer configs of the
    value it traverses. *)
Definition grows (c : config) : Prop :=
  ∀ s st, st ⊆ visit s c st ∧ ∀ u, u ∉ uids c → visit s c st !! u = st !! u.

Lemma visit_args_grows fs :
  Forall (λ f : string * bool * config, grows f.2) fs →
  ∀ s st, st ⊆ visit_args s fs st
          ∧ ∀ u, u ∉ uids_fields fs → visit_args s fs st !! u = st !! u.
Proof.
  induction 1 as [|[[k t] v] fs Hv _ IH]; intros s st; [done|].
  rewrite visit_args_cons. simpl in Hv. cbn [uids_fields snd].
  destruct (IH s (if t then st else visit s v st)) as [Hsub Hout].
  destruct (Hv s st) as [Hsubv Houtv].
  split.
  - etrans; [|exact Hsub]. by destruct t.
  - intros u Hu. rewrite Hout by set_solver.
    destruct t; [done|]. apply Houtv. set_solver.
Qed.

Lemma visit_items_grows l :
  Forall grows l →
  ∀ s st, st ⊆ visit_items s l st
          ∧ ∀ u, u ∉ uids_items l → visit_items s l st !! u = st !! u.
Proof.
  induction 1 as [|v l Hv _ IH]; intros s st; [done|].
  cbn [visit_items uids_items].
  destruct (IH s (visit s v st)) as [Hsub Hout].
  destruct (Hv s st) as [Hsubv Houtv].
  split.
  - by etrans.
  - intros u Hu. rewrite Hout by set_solver. apply Houtv. set_solver.
Qed.

Lemma visit_map_items_grows (d : list (string * config)) :
  Forall (λ kv, grows kv.2) d →
  ∀ s st, st ⊆ visit_map_items s d st
          ∧ ∀ u, u ∉ uids_map_items d → visit_map_items s d st !! u = st !! u.
Proof.
  induction 1 as [|[k v] l Hv _ IH]; intros s st; [done|].
  cbn [visit_map_items uids_map_items snd]. simpl in Hv.
  destruct (IH s (visit s v st)) as [Hsub Hout].
  destruct (Hv s st) as [Hsubv Houtv].
  split.
  - by etrans.
  - intros u Hu. rewrite Hout by set_solver. apply Houtv. set_solver.
Qed.

Lemma visit_grows c : grows c.
Proof.
  induction c as [a|l IH|d IH|u cls ex b fs IH|fn fs IH] using config_ind'; intros s st.
  - done.
  - rewrite visit_seq, uids_seq. by apply visit_items_grows.
  - rewrite visit_map, uids_map. by apply visit_map_items_grows.
  - rewrite visit_layer, uids_layer. destruct (st !! u) eqn:E; [done|].
    destruct (visit_args_grows fs IH (_copy_base_hparams s b)
                (<[u := (foldl mark_explicit ex (assigned b), _copy_base_hparams s b)]> st))
      as [Hsub Hout].
    split.
    + etrans; [|exact Hsub]. by apply insert_subseteq.
    + intros u' Hu'. rewrite Hout by set_solver.
      apply lookup_insert_ne. set_solver.
  - rewrite visit_other, uids_other. by apply visit_args_grows.
Qed.










(** The child config itself is visited first: it receives the parent's
    base fields, whatever lies below it. *)
Lemma visit_root self params :
  visit self (to_config params) ∅ !! uid params
  = Some (foldl mark_explicit (explicit params) (assigned (base params)),
          _copy_base_hparams self (base params)).
Proof.
  unfold to_config. rewrite visit_layer, lookup_empty.
  assert (Forall (λ f : string * bool * config, grows f.2) (fields params)) as Hgrows
    by (apply Forall_forall; intros; apply visit_grows).
  eapply lookup_weaken; [|apply (visit_args_grows _ Hgrows)].
  apply lookup_insert_eq.
Qed.

Lemma copy_root self params :
  _copy_base_params_to_fdl_config self params
  = {| uid := uid params; cls := cls params;
       explicit := foldl mark_explicit (explicit params) (assigned (base params));
       base := _copy_base_hparams self (base params);
       fields := resolve_fields (visit self (to_config params) ∅) (fields params) |}.
Proof.
  unfold _copy_base_params_to_fdl_config. cbv zeta.
  assert (resolve (visit self (to_config params) ∅) (to_config params)
          = Layer (uid params) (cls params)
              (foldl mark_explicit (explicit params) (assigned (base params)))
              (_copy_base_hparams self (base params))
              (resolve_fields (visit self (to_config params) ∅) (fields params))) as ->.
  { unfold to_config at 2. by rewrite resolve_layer, visit_root. }
  reflexivity.
Qed.

Lemma child_config_root self nm params :
  child_config self nm params
  = {| uid := uid params; cls := cls params;
       explicit := mark_explicit (foldl mark_explicit (explicit params)
                                    (assigned (base params))) "name";
       base := set_name (Some nm) (_copy_base_hparams self (base params));
       fields := resolve_fields (visit self (to_config params) ∅) (fields params) |}.
Proof.
  unfold child_config, copy_base_hparams, clone. by rewrite copy_root.
Qed.





End CopyDownFacts.

Section CopyDownExamples.
Import Tensor LayerConfig CopyDown CopyDownSpec Examples.


End CopyDownExamples.

(** ** [build] *)

Section BuildEquations.
Import Fiddle.
Variable raises : string → list (string * value) → option Py.exn.

Lemma _build_buildable uid fn arguments argument_tags p :
  _build raises (Buildable uid fn arguments argument_tags) p
  = (arguments' ← build_items raises argument_tags p arguments;
     __build__ raises (Buildable uid fn arguments argument_tags) fn arguments' p).
Proof. reflexivity. Qed.

Lemma _build_list l p :
  _build raises (VList l) p = (l' ← build_list raises p 0 l; mret (VList l')).
Proof. reflexivity. Qed.

Lemma _build_dict d p :
  _build raises (VDict d) p = (d' ← build_dict raises p d; mret (VDict d')).
Proof. reflexivity. Qed.

Lemma bind_inr {A B} (m : M A) (k : A → M B) st b st' :
  (m ≫= k) st = inr (b, st') ↔ ∃ a st1, m st = inr (a, st1) ∧ k a st1 = inr (b, st').
Proof.
  unfold mbind, M_bind. destruct (m st) as [e|[a st1]]; simpl; split.
  - intros [=].
  - by intros (? & ? & [=] & ?).
  - eauto.
  - by intros (? & ? & [= <- <-] & ?).
Qed.

Lemma bind_inl {A B} (m : M A) (k : A → M B) st e :
  (m ≫= k) st = inl e ↔
  m st = inl e ∨ ∃ a st1, m st = inr (a, st1) ∧ k a st1 = inl e.
Proof.
  unfold mbind, M_bind. destruct (m st) as [e'|[a st1]]; simpl; split.
  - intros [= ->]. by left.
  - by intros [[= ->]|(? & ? & [=] & ?)].
  - intros H. right. exists a, st1. split; [reflexivity | exact H].
  - by intros [[=]|(? & ? & [= <- <-] & ?)].
Qed.

Lemma build_items_cons tags p key sub_value l :
  build_items raises tags p ((key, sub_value) :: l)
  = (v ← (if do_not_build tags key then mret sub_value
          else state_call (_build raises) sub_value (p ++ [Attr key]));
     rest ← build_items raises tags p l;
     mret ((key, v) :: rest)).
Proof. reflexivity. Qed.

Lemma build_list_cons p i child l :
  build_list raises p i (child :: l)
  = (v ← state_call (_build raises) child (p ++ [Index i]);
     rest ← build_list raises p (S i) l;
     mret (v :: rest)).
Proof. reflexivity. Qed.

Lemma build_dict_cons p key child d :
  build_dict raises p ((key, child) :: d)
  = (v ← state_call (_build raises) child (p ++ [Key key]);
     rest ← build_dict raises p d;
     mret ((key, v) :: rest)).
Proof. reflexivity. Qed.

(** A memoized call fails only when the traversal function fails. *)
Lemma state_call_inl f v p st e :
  state_call f v p st = inl e → f v p st = inl e.
Proof.
  destruct v; try done.
  unfold state_call, mbind, M_bind, get_state, put_state, mret, M_ret.
  destruct (memo st !! uid); [done|].
  by destruct (f _ p st) as [|[]].
Qed.

(** A memoized call that returns: a hit returns the memoized object and
    leaves the state as it is; a miss returns what the traversal function
    returns and records it. *)
Lemma state_call_inr f v p st out st' :
  state_call f v p st = inr (out, st') →
  match v with
  | Buildable uid _ _ _ =>
      (memo st !! uid = Some out ∧ st' = st)
      ∨ (memo st !! uid = None ∧
         ∃ st1, f v p st = inr (out, st1) ∧
                st' = {| memo := <[uid := out]> (memo st1);
                         next_uid := next_uid st1; calls := calls st1 |})
  | _ => f v p st = inr (out, st')
  end.
Proof.
  destruct v; try done.
  unfold state_call, mbind, M_bind, get_state, put_state, mret, M_ret.
  destruct (memo st !! uid) eqn:E.
  - intros [= <- <-]. by left.
  - destruct (f _ p st) as [|[r st1]]; [done|]. intros [= <- <-].
    right. split; [done|]. by exists st1.
Qed.

End BuildEquations.

Section BuildErrors.
Import Fiddle BuildSpec.
Variable raises : string → list (string * value) → option Py.exn.
Local Abbreviation fails_at := (BuildSpec.fails_at raises).

Lemma __build___raises v fn kwargs p st e :
  raises fn kwargs = Some e →
  __build__ raises v fn kwargs p st = inl (build_error v p e kwargs).
Proof. intros H. unfold __build__. rewrite H. by destruct e. Qed.

Lemma __build___inl v fn kwargs p st err :
  __build__ raises v fn kwargs p st = inl err →
  ∃ e, raises fn kwargs = Some e ∧ err = build_error v p e kwargs.
Proof.
  destruct (raises fn kwargs) as [e|] eqn:E.
  - rewrite (__build___raises _ _ _ _ _ _ E). intros [= <-]. eauto.
  - unfold __build__. rewrite E. done.
Qed.

Lemma __build___inr v fn kwargs p st out st' :
  __build__ raises v fn kwargs p st = inr (out, st') →
  raises fn kwargs = None
  ∧ out = Object (next_uid st) fn kwargs
  ∧ st' = {| memo := memo st; next_uid := S (next_uid st);
             calls := calls st ++ [(v, out)] |}.
Proof.
  unfold __build__. destruct (raises fn kwargs) as [e|] eqn:E.
  - by destruct e.
  - unfold mbind, M_bind, get_state, put_state, mret, M_ret. by intros [= <- <-].
Qed.

(** The keyword arguments keep the names and the order of the arguments. *)
Lemma build_items_keys tags p arguments : ∀ st kwargs st',
  build_items raises tags p arguments st = inr (kwargs, st') →
  kwargs.*1 = arguments.*1.
Proof.
  induction arguments as [|[key x] l IH]; intros st kwargs st' H.
  - by injection H as <- <-.
  - rewrite build_items_cons in H.
    apply bind_inr in H as (v & st1 & _ & H).
    apply bind_inr in H as (rest & st2 & Hrest & H).
    injection H as <- <-. simpl. f_equal. eauto.
Qed.

Lemma fails_at_step v x p elem err :
  (∀ path node, resolves x path node → resolves v (elem :: path) node) →
  fails_at x (p ++ [elem]) err → fails_at v p err.
Proof.
  intros Hstep (path & uid & fn & args & tags & kwargs & e & Hres & Hk & Hr & ->).
  exists (elem :: path), uid, fn, args, tags, kwargs, e.
  split; [by apply Hstep|]. split; [done|]. split; [done|].
  by rewrite <- app_assoc.
Qed.

Lemma _build_fails : ∀ v p st err,
  _build raises v p st = inl err → fails_at v p err.
Proof.
  induction v as [a|l IH|d IH|uid fn arguments tags IH|uid fn kwargs]
    using value_ind'; intros p st err H.
  - done.
  - rewrite _build_list in H. apply bind_inl in H as [H|(? & ? & _ & [=])].
    assert (∀ l' i st, Forall (λ x, ∀ p st err, _build raises x p st = inl err →
                                  fails_at x p err) l' →
              build_list raises p i l' st = inl err →
              ∃ j x, l' !! j = Some x ∧ fails_at x (p ++ [Index (i + j)]) err) as Hloop.
    { clear. induction l' as [|x l' IHl]; intros i st HF H; [done|].
      apply Forall_cons in HF as [Hx HF]. rewrite build_list_cons in H.
      apply bind_inl in H as [H|(v & st1 & _ & H)].
      - apply state_call_inl, Hx in H. exists 0, x. by rewrite Nat.add_0_r.
      - apply bind_inl in H as [H|(? & ? & _ & [=])].
        destruct (IHl _ _ HF H) as (j & y & Hj & Hy).
        exists (S j), y. split; [done|]. by rewrite Nat.add_succ_r. }
    destruct (Hloop _ _ _ IH H) as (j & x & Hj & Hx).
    eapply fails_at_step; [|exact Hx]. intros. by econstructor.
  - rewrite _build_dict in H. apply bind_inl in H as [H|(? & ? & _ & [=])].
    assert (∀ d' st, Forall (λ kv : string * value, ∀ p st err,
                                _build raises kv.2 p st = inl err →
                                fails_at kv.2 p err) d' →
              build_dict raises p d' st = inl err →
              ∃ key x, (key, x) ∈ d' ∧ fails_at x (p ++ [Key key]) err) as Hloop.
    { clear. induction d' as [|[key x] d' IHd]; intros st HF H; [done|].
      apply Forall_cons in HF as [Hx HF]. rewrite build_dict_cons in H.
      apply bind_inl in H as [H|(v & st1 & _ & H)].
      - apply state_call_inl, Hx in H. exists key, x. split; [left|done].
      - apply bind_inl in H as [H|(? & ? & _ & [=])].
        destruct (IHd _ HF H) as (key' & y & Hin & Hy).
        exists key', y. split; [by right|done]. }
    destruct (Hloop _ _ IH H) as (key & x & Hin & Hx).
    eapply fails_at_step; [|exact Hx]. intros. by econstructor.
  - rewrite _build_buildable in H.
    apply bind_inl in H as [H|(kwargs & st1 & Hitems & H)].
    + assert (∀ l st, Forall (λ kv : string * value, ∀ p st err,
                                _build raises kv.2 p st = inl err →
                                fails_at kv.2 p err) l →
                build_items raises tags p l st = inl err →
                ∃ key x, (key, x) ∈ l ∧ do_not_build tags key = false
                         ∧ fails_at x (p ++ [Attr key]) err) as Hloop.
      { clear. induction l as [|[key x] l IHl]; intros st HF H; [done|].
        apply Forall_cons in HF as [Hx HF]. rewrite build_items_cons in H.
        apply bind_inl in H as [H|(v & st1 & _ & H)].
        - destruct (do_not_build tags key) eqn:Etag; [done|].
          apply state_call_inl, Hx in H. exists key, x. split; [left|done].
        - apply bind_inl in H as [H|(? & ? & _ & [=])].
          destruct (IHl _ HF H) as (key' & y & Hin & Htag & Hy).
          exists key', y. split; [by right|done]. }
      destruct (Hloop _ _ IH H) as (key & x & Hin & Htag & Hx).
      eapply fails_at_step; [|exact Hx]. intros. by econstructor.
    + apply __build___inl in H as (e & He & ->).
      exists [], uid, fn, arguments, tags, kwargs, e.
      split; [constructor|]. split; [by eapply build_items_keys|].
      split; [done|]. by rewrite app_nil_r.
  - done.
Qed.

End BuildErrors.

(** ** How a failure below reaches the root *)

Section BuildVisits.
Import Fiddle BuildSpec.
Variable raises : string → list (string * value) → option Py.exn.







End BuildVisits.

Section NodesFacts.
Import Fiddle BuildSpec.

Lemma nodes_buildable uid fn arguments tags :
  nodes (Buildable uid fn arguments tags)
  = Buildable uid fn arguments tags :: nodes_args tags arguments.
Proof. reflexivity. Qed.

Lemma nodes_VList l : nodes (VList l) = nodes_list l.
Proof. reflexivity. Qed.

Lemma nodes_VDict d : nodes (VDict d) = nodes_dict d.
Proof. reflexivity. Qed.

Lemma nodes_args_in tags l key x n :
  (key, x) ∈ l → do_not_build tags key = false → n ∈ nodes x → n ∈ nodes_args tags l.
Proof.
  induction l as [|[k y] l IH]; intros Hin Htag Hn; [by apply elem_of_nil in Hin|].
  simpl. apply elem_of_app. apply elem_of_cons in Hin as [[= <- <-]|Hin].
  - left. by rewrite Htag.
  - right. by apply IH.
Qed.

Lemma nodes_list_in l x n : x ∈ l → n ∈ nodes x → n ∈ nodes_list l.
Proof.
  induction l as [|y l IH]; intros Hin Hn; [by apply elem_of_nil in Hin|].
  simpl. apply elem_of_app. apply elem_of_cons in Hin as [<-|Hin]; [by left|].
  right. by apply IH.
Qed.

Lemma nodes_dict_in (d : list (string * value)) key x n :
  (key, x) ∈ d → n ∈ nodes x → n ∈ nodes_dict d.
Proof.
  induction d as [|[k y] d IH]; intros Hin Hn; [by apply elem_of_nil in Hin|].
  simpl. apply elem_of_app. apply elem_of_cons in Hin as [[= <- <-]|Hin]; [by left|].
  right. by apply IH.
Qed.
End NodesFacts.

Section BuildBuilt.
Import Fiddle BuildSpec.
Variable raises : string → list (string * value) → option Py.exn.
Variable root : value.
Hypothesis root_consistent : consistent root.
Local Abbreviation memo_built := (BuildSpec.memo_built root).
Local Abbreviation builds := (BuildSpec.builds raises root).

Lemma state_call_builds v p st out st' :
  builds v →
  (∀ n, n ∈ nodes v → n ∈ nodes root) →
  memo_built (memo st) →
  state_call (_build raises) v p st = inr (out, st') →
  Built v out ∧ memo_built (memo st').
Proof.
  intros IH Hsub Hm H. apply state_call_inr in H.
  destruct v as [a|l|d|uid fn arguments tags|uid fn kwargs]; try by eapply IH.
  assert (Hv : Buildable uid fn arguments tags ∈ nodes root).
  { apply Hsub. rewrite nodes_buildable. left. }
  destruct H as [[Hhit ->]|[Hmiss (st1 & H & ->)]].
  - split; [|done]. by eapply Hm.
  - destruct (IH _ _ _ _ Hsub Hm H) as [Hb Hm1]. split; [done|].
    intros u r Hu n Hn Huid. simpl in Hu.
    destruct (decide (uid = u)) as [<-|Hne].
    + rewrite lookup_insert_eq in Hu. injection Hu as <-.
      by rewrite (root_consistent n _ Hn Hv Huid).
    + rewrite lookup_insert_ne in Hu by done. by eapply Hm1.
Qed.

Lemma _build_builds v : builds v.
Proof.
  induction v as [a|l IH|d IH|uid fn arguments tags IH|uid fn kwargs]
    using value_ind'; intros p st out st' Hsub Hm H.
  - injection H as <- <-. split; [constructor|done].
  - rewrite _build_list in H. apply bind_inr in H as (l' & st1 & H & [= <- <-]).
    assert (∀ l0 i st l' st1,
              Forall builds l0 → (∀ x n, x ∈ l0 → n ∈ nodes x → n ∈ nodes root) →
              memo_built (memo st) →
              build_list raises p i l0 st = inr (l', st1) →
              Forall2 Built l0 l' ∧ memo_built (memo st1)) as Hloop.
    { clear - root_consistent. induction l0 as [|x l0 IHl]; intros i st l' st1 HF Hsub Hm H.
      - injection H as <- <-. by split.
      - apply Forall_cons in HF as [Hx HF]. rewrite build_list_cons in H.
        apply bind_inr in H as (v & st2 & Hv & H).
        apply bind_inr in H as (rest & st3 & Hrest & [= <- <-]).
        apply state_call_builds in Hv as [Hb Hm2]; [|done| |done].
        2:{ intros n Hn. eapply Hsub; [left|done]. }
        destruct (IHl _ _ _ _ HF (λ y n Hy, Hsub y n (list_elem_of_further _ _ _ Hy)) Hm2 Hrest)
          as [HF2 Hm3].
        split; [by constructor|done]. }
    destruct (Hloop _ _ _ _ _ IH (λ x n Hx Hn, Hsub n (nodes_list_in _ _ _ Hx Hn)) Hm H)
      as [HF Hm1].
    split; [by constructor|done].
  - rewrite _build_dict in H. apply bind_inr in H as (d' & st1 & H & [= <- <-]).
    assert (∀ (d0 : list (string * value)) st d' st1,
              Forall (λ kv, builds kv.2) d0 →
              (∀ k x n, (k, x) ∈ d0 → n ∈ nodes x → n ∈ nodes root) →
              memo_built (memo st) →
              build_dict raises p d0 st = inr (d', st1) →
              Forall2 (λ a b : string * value, a.1 = b.1 ∧ Built a.2 b.2) d0 d'
              ∧ memo_built (memo st1)) as Hloop.
    { clear - root_consistent. induction d0 as [|[k x] d0 IHd]; intros st d' st1 HF Hsub Hm H.
      - injection H as <- <-. by split.
      - apply Forall_cons in HF as [Hx HF]. rewrite build_dict_cons in H.
        apply bind_inr in H as (v & st2 & Hv & H).
        apply bind_inr in H as (rest & st3 & Hrest & [= <- <-]).
        apply state_call_builds in Hv as [Hb Hm2]; [|done| |done].
        2:{ intros n Hn. eapply Hsub; [left|done]. }
        destruct (IHd _ _ _ HF (λ k' y n Hy, Hsub k' y n (list_elem_of_further _ _ _ Hy)) Hm2 Hrest)
          as [HF2 Hm3].
        split; [by constructor|done]. }
    destruct (Hloop _ _ _ _ IH (λ k x n Hx Hn, Hsub n (nodes_dict_in _ _ _ _ Hx Hn)) Hm H)
      as [HF Hm1].
    split; [by constructor|done].
  - rewrite _build_buildable in H.
    apply bind_inr in H as (kwargs & st1 & H & Hb).
    apply __build___inr in Hb as (_ & -> & ->). simpl.
    assert (∀ (l : list (string * value)) st kwargs st1,
              Forall (λ kv, builds kv.2) l →
              (∀ k x n, (k, x) ∈ l → do_not_build tags k = false →
                        n ∈ nodes x → n ∈ nodes root) →
              memo_built (memo st) →
              build_items raises tags p l st = inr (kwargs, st1) →
              Forall2 (λ a b : string * value,
                         a.1 = b.1 ∧
                         (do_not_build tags a.1 = true → b.2 = a.2) ∧
                         (do_not_build tags a.1 = false → Built a.2 b.2)) l kwargs
              ∧ memo_built (memo st1)) as Hloop.
    { clear - root_consistent. induction l as [|[k x] l IHl]; intros st kwargs st1 HF Hsub Hm H.
      - injection H as <- <-. by split.
      - apply Forall_cons in HF as [Hx HF]. rewrite build_items_cons in H.
        apply bind_inr in H as (v & st2 & Hv & H).
        apply bind_inr in H as (rest & st3 & Hrest & [= <- <-]).
        assert ((do_not_build tags k = true → v = x)
                ∧ (do_not_build tags k = false → Built x v)
                ∧ memo_built (memo st2)) as (Ht & Hf & Hm2).
        { destruct (do_not_build tags k) eqn:Etag.
          - injection Hv as <- <-. by repeat split.
          - apply state_call_builds in Hv as [Hb Hm2]; [by repeat split|done| |done].
            intros n Hn. eapply Hsub; [left|done|done]. }
        destruct (IHl _ _ _ HF
                    (λ k' y n Hy, Hsub k' y n (list_elem_of_further _ _ _ Hy)) Hm2 Hrest)
          as [HF2 Hm3].
        split; [|done]. constructor; [|done]. by repeat split. }
    destruct (Hloop _ _ _ _ IH
                (λ k x n Hx Ht Hn, Hsub n ltac:(rewrite nodes_buildable; right;
                                                 by eapply nodes_args_in)) Hm H)
      as [HF Hm1].
    split; [by constructor|done].
  - injection H as <- <-. split; [constructor|done].
Qed.

End BuildBuilt.

Section ReachFacts.
Import Fiddle BuildSpec.

Lemma reach_buildable uid fn arguments tags :
  reach (Buildable uid fn arguments tags) = uid :: reach_args tags arguments.
Proof. reflexivity. Qed.

Lemma acyclic_buildable uid fn arguments tags :
  acyclic (Buildable uid fn arguments tags)
  = ((uid ∉ reach_args tags arguments) ∧ acyclic_args tags arguments).
Proof. reflexivity. Qed.

Lemma reach_VList l : reach (VList l) = reach_list l.
Proof. reflexivity. Qed.

Lemma reach_VDict d : reach (VDict d) = reach_dict d.
Proof. reflexivity. Qed.

Lemma acyclic_VList l : acyclic (VList l) = acyclic_list l.
Proof. reflexivity. Qed.

Lemma acyclic_VDict d : acyclic (VDict d) = acyclic_dict d.
Proof. reflexivity. Qed.

Lemma reach_args_cons tags key x l :
  reach_args tags ((key, x) :: l)
  = (if do_not_build tags key then [] else reach x) ++ reach_args tags l.
Proof. reflexivity. Qed.

Lemma nodes_args_cons tags key x l :
  nodes_args tags ((key, x) :: l)
  = (if do_not_build tags key then [] else nodes x) ++ nodes_args tags l.
Proof. reflexivity. Qed.

Lemma acyclic_args_cons tags key x l :
  acyclic_args tags ((key, x) :: l)
  = ((if do_not_build tags key then True else acyclic x) ∧ acyclic_args tags l).
Proof. reflexivity. Qed.

(** [reach] lists the identities of [nodes]. *)
Lemma reach_nodes v : Some <$> reach v = uid_of <$> nodes v.
Proof.
  induction v as [a|l IH|d IH|uid fn arguments tags IH|uid fn kwargs]
    using value_ind'; try done.
  - rewrite reach_VList, nodes_VList.
    induction IH as [|x l Hx _ IHl]; [done|].
    change (Some <$> reach x ++ reach_list l = uid_of <$> nodes x ++ nodes_list l).
    by rewrite !fmap_app, Hx, IHl.
  - rewrite reach_VDict, nodes_VDict.
    induction IH as [|[k x] d Hx _ IHd]; [done|].
    change (Some <$> reach x ++ reach_dict d = uid_of <$> nodes x ++ nodes_dict d).
    simpl in Hx. by rewrite !fmap_app, Hx, IHd.
  - rewrite reach_buildable, nodes_buildable, !fmap_cons. f_equal.
    induction IH as [|[k x] l Hx _ IHl]; [done|].
    rewrite reach_args_cons, nodes_args_cons, !fmap_app, IHl. f_equal.
    simpl in Hx. by destruct (do_not_build tags k).
Qed.

(** A tree in which no identity occurs twice is consistent. *)
Lemma NoDup_reach_consistent root : NoDup (reach root) → consistent root.
Proof.
  intros Hnd n1 n2 [i1 H1]%list_elem_of_lookup_1 [i2 H2]%list_elem_of_lookup_1 Hu.
  assert (NoDup (uid_of <$> nodes root)) as Hnd'.
  { rewrite <- reach_nodes. apply NoDup_fmap; [|done]. by intros ?? [=]. }
  assert (i1 = i2) as ->.
  { destruct (uid_of n1) as [u|] eqn:E1.
    - eapply NoDup_lookup; [exact Hnd'| |].
      + by rewrite list_lookup_fmap, H1; simpl; rewrite E1.
      + by rewrite list_lookup_fmap, H2; simpl; rewrite <- Hu.
    - assert (uid_of n1 ∈ Some <$> reach root) as Hin.
      { rewrite reach_nodes. apply list_elem_of_fmap. exists n1. split; [done|].
        by eapply list_elem_of_lookup_2. }
      rewrite E1 in Hin. apply list_elem_of_fmap in Hin as (? & [=] & _). }
  congruence.
Qed.

End ReachFacts.

Section Reuses.
Import Fiddle BuildSpec.

Lemma reuses_mono (t t' : gmap nat value) :
  t ⊆ t' → ∀ v out, reuses t v out → reuses t' v out.
Proof.
  intros Hsub.
  induction v as [a|l IH|d IH|uid fn arguments tags IH|uid fn kwargs]
    using value_ind'; intros out H; inversion H; subst; try by constructor.
  - constructor.
    match goal with HF : Forall2 _ l _ |- _ =>
      revert IH; induction HF as [|x y l0 l1 Hxy HF IHF] end.
    + done.
    + intros [Hx Hl]%Forall_cons.
      constructor; [by apply Hx | by apply IHF; [constructor|]].
  - constructor.
    match goal with HF : Forall2 _ d _ |- _ =>
      revert IH; induction HF as [|x y l0 l1 [Hk Hxy] HF IHF] end.
    + done.
    + intros [Hx Hl]%Forall_cons.
      constructor; [split; [done | by apply Hx] | by apply IHF; [constructor|]].
  - constructor. by eapply lookup_weaken.
Qed.

Lemma args_reuse_mono t t' tags arguments kwargs :
  t ⊆ t' → args_reuse t tags arguments kwargs → args_reuse t' tags arguments kwargs.
Proof.
  intros Hsub HF. unfold args_reuse in *. eapply Forall2_impl; [exact HF|].
  intros a b (? & ? & Hr). repeat split; [done..|].
  intros ?. eapply reuses_mono; eauto.
Qed.

Lemma constructed_mono t t' node obj :
  t ⊆ t' → constructed t node obj → constructed t' node obj.
Proof.
  intros Hsub (uid & fn & arguments & tags & oid & kwargs & -> & -> & Hl & HF).
  exists uid, fn, arguments, tags, oid, kwargs. repeat split; [by eapply lookup_weaken|].
  by eapply args_reuse_mono.
Qed.

End Reuses.

Section BuildMemo.
Import Fiddle BuildSpec.
Variable raises : string → list (string * value) → option Py.exn.
Variable root : value.
Hypothesis root_consistent : consistent root.
Local Abbreviation memo_inv := (BuildSpec.memo_inv root).
Local Abbreviation memo_post := (BuildSpec.memo_post root).
Local Abbreviation memoizes := (BuildSpec.memoizes raises root).

Lemma memo_post_refl st : memo_inv st → memo_post [] st st.
Proof.
  intros H. split; [done|]. split; [done|]. intros u. split; [by left|].
  intros [?|[]%elem_of_nil]. done.
Qed.

Lemma memo_post_trans ids1 ids2 st st1 st2 :
  memo_post ids1 st st1 → memo_post ids2 st1 st2 → memo_post (ids1 ++ ids2) st st2.
Proof.
  intros (_ & Hs1 & Hd1) (Hi & Hs2 & Hd2). split; [done|].
  split; [by etrans|]. intros u. rewrite Hd2, Hd1, elem_of_app. tauto.
Qed.

(** Recording the object just built for [v] restores the invariant. *)
Lemma memo_insert uid fn arguments tags st st1 kwargs v out :
  v = Buildable uid fn arguments tags →
  out = Object (next_uid st1) fn kwargs →
  v ∈ nodes root →
  uid ∉ reach_args tags arguments →
  memo st !! uid = None →
  memo_post (reach_args tags arguments) st st1 →
  args_reuse (memo st1) tags arguments kwargs →
  memo_post (reach v)
    st {| memo := <[uid := out]> (memo st1); next_uid := S (next_uid st1);
          calls := calls st1 ++ [(v, out)] |}
  ∧ reuses (<[uid := out]> (memo st1)) v out.
Proof.
  intros Ev Eout Hv Hacyc Hmiss ((Hnd & Hcons & Hmemo & Hreach) & Hsub & Hdom) Hargs.
  assert (memo st1 !! uid = None) as Hmiss1.
  { apply eq_None_not_Some. rewrite Hdom. intros [[? ?]|?]; [congruence | done]. }
  assert (memo st1 ⊆ <[uid := out]> (memo st1)) as Hins by by apply insert_subseteq.
  assert (uid_of v = Some uid) as Huid by by rewrite Ev.
  assert (reach v = uid :: reach_args tags arguments) as Hrv by by rewrite Ev.
  split; [|rewrite Ev; constructor; by rewrite lookup_insert_eq].
  split; [split; [|split; [|split]]|split].
  - unfold built_uids. simpl. rewrite fmap_app. simpl.
    apply NoDup_app. split; [done|]. split; [|apply NoDup_singleton].
    intros o Ho ->%list_elem_of_singleton.
    apply list_elem_of_fmap in Ho as ([n r] & Hu & Hin). simpl in Hu.
    destruct (Hcons _ _ Hin) as (u' & ? & ? & ? & ? & ? & -> & -> & Hl & _).
    rewrite Huid in Hu. simpl in Hu. injection Hu as <-. congruence.
  - simpl. intros n r [Hin|[= -> ->]%list_elem_of_singleton]%elem_of_app.
    + eapply constructed_mono; eauto.
    + exists uid, fn, arguments, tags, (next_uid st1), kwargs.
      split; [done|]. split; [done|]. split; [by rewrite lookup_insert_eq|].
      by eapply args_reuse_mono.
  - simpl. intros u r Hu. destruct (decide (uid = u)) as [<-|Hne].
    + rewrite lookup_insert_eq in Hu. injection Hu as <-.
      exists v. split; [|done]. apply elem_of_app. right. left.
    + rewrite lookup_insert_ne in Hu by done.
      destruct (Hmemo _ _ Hu) as (n & Hn & Hun). exists n. split; [|done].
      apply elem_of_app. by left.
  - simpl. intros n r [Hin|[= -> ->]%list_elem_of_singleton]%elem_of_app.
    + destruct (Hreach _ _ Hin) as [Hn Hr]. split; [done|].
      intros u Hu. eapply lookup_weaken_is_Some; eauto.
    + split; [done|]. intros u. rewrite Hrv.
      intros [->|Hu]%elem_of_cons.
      * by rewrite lookup_insert_eq.
      * eapply lookup_weaken_is_Some; [|exact Hins]. apply Hdom. by right.
  - simpl. by etrans.
  - simpl. intros u. rewrite Hrv, elem_of_cons.
    destruct (decide (uid = u)) as [<-|Hne].
    + rewrite lookup_insert_eq. split; [intros _; right; by left | eauto].
    + rewrite lookup_insert_ne by done. rewrite Hdom. split.
      * intros [?|?]; [by left | right; by right].
      * intros [?|[?|?]]; [by left | congruence | by right].
Qed.

Lemma state_call_memoizes v p st out st' :
  memoizes v →
  (∀ n, n ∈ nodes v → n ∈ nodes root) →
  acyclic v →
  memo_inv st →
  state_call (_build raises) v p st = inr (out, st') →
  memo_post (reach v) st st' ∧ reuses (memo st') v out.
Proof.
  intros IH Hsub Hacyc Hinv H. apply state_call_inr in H.
  destruct v as [a|l|d|uid fn arguments tags|uid fn kwargs]; try by eapply IH.
  assert (Hv : Buildable uid fn arguments tags ∈ nodes root).
  { apply Hsub. rewrite nodes_buildable. left. }
  destruct H as [[Hhit ->]|[Hmiss (st1 & H & ->)]].
  - split; [|by constructor]. split; [done|]. split; [done|].
    intros u. split; [by left|]. intros [?|Hu]; [done|].
    destruct Hinv as (_ & _ & Hmemo & Hreach).
    destruct (Hmemo _ _ Hhit) as (n & Hn & Hun).
    destruct (Hreach _ _ Hn) as [Hnr Hr]. apply Hr.
    by rewrite (root_consistent n _ Hnr Hv Hun).
  - destruct (IH _ _ _ _ Hsub Hacyc Hinv H Hmiss) as (st2 & kwargs & -> & -> & Hpost & Hargs).
    simpl. rewrite acyclic_buildable in Hacyc. destruct Hacyc as [Hu _].
    by eapply memo_insert.
Qed.

Lemma build_items_memoizes tags p : ∀ l st kwargs st1,
  Forall (λ kv : string * value, memoizes kv.2) l →
  (∀ k x n, (k, x) ∈ l → do_not_build tags k = false → n ∈ nodes x → n ∈ nodes root) →
  acyclic_args tags l →
  memo_inv st →
  build_items raises tags p l st = inr (kwargs, st1) →
  memo_post (reach_args tags l) st st1 ∧ args_reuse (memo st1) tags l kwargs.
Proof.
  induction l as [|[k x] l IHl]; intros st kwargs st1 HF Hsub Hacyc Hinv H.
  - injection H as <- <-. split; [by apply memo_post_refl | constructor].
  - apply Forall_cons in HF as [Hx HF]. rewrite build_items_cons in H.
    apply bind_inr in H as (v & st2 & Hv & H).
    apply bind_inr in H as (rest & st3 & Hrest & [= <- <-]).
    rewrite acyclic_args_cons in Hacyc. destruct Hacyc as [Hax Hal].
    rewrite reach_args_cons.
    assert (memo_post (if do_not_build tags k then [] else reach x) st st2
            ∧ (do_not_build tags k = true → v = x)
            ∧ (do_not_build tags k = false → reuses (memo st2) x v))
      as (Hpost & Ht & Hf).
    { destruct (do_not_build tags k) eqn:Etag.
      - injection Hv as <- <-. split; [by apply memo_post_refl|]. by split.
      - apply state_call_memoizes in Hv as [Hb Hm2];
          [split; [exact Hb|]; split; [done|]; intros _; exact Hm2|done| |done|done].
        intros n Hn. eapply Hsub; [left|done|done]. }
    destruct (IHl _ _ _ HF
                (λ k' y n Hy, Hsub k' y n (list_elem_of_further _ _ _ Hy)) Hal
                (proj1 Hpost) Hrest) as [Hpost2 Hargs].
    split; [by eapply memo_post_trans|].
    constructor; [|done]. simpl. split; [done|]. split; [done|].
    intros Etag. eapply reuses_mono; [|by apply Hf]. apply Hpost2.
Qed.

Lemma build_list_memoizes p : ∀ l i st l' st1,
  Forall memoizes l →
  (∀ x n, x ∈ l → n ∈ nodes x → n ∈ nodes root) →
  acyclic_list l →
  memo_inv st →
  build_list raises p i l st = inr (l', st1) →
  memo_post (reach_list l) st st1 ∧ Forall2 (reuses (memo st1)) l l'.
Proof.
  induction l as [|x l IHl]; intros i st l' st1 HF Hsub Hacyc Hinv H.
  - injection H as <- <-. split; [by apply memo_post_refl | constructor].
  - apply Forall_cons in HF as [Hx HF]. rewrite build_list_cons in H.
    apply bind_inr in H as (v & st2 & Hv & H).
    apply bind_inr in H as (rest & st3 & Hrest & [= <- <-]).
    destruct Hacyc as [Hax Hal].
    apply state_call_memoizes in Hv as [Hpost Hr]; [|done| |done|done].
    2:{ intros n Hn. eapply Hsub; [left|done]. }
    destruct (IHl _ _ _ _ HF
                (λ y n Hy, Hsub y n (list_elem_of_further _ _ _ Hy)) Hal
                (proj1 Hpost) Hrest) as [Hpost2 Hrs].
    split; [by eapply (memo_post_trans (reach x) (reach_list l))|].
    constructor; [|done]. eapply reuses_mono; [|done]. apply Hpost2.
Qed.

Lemma build_dict_memoizes p : ∀ (d : list (string * value)) st d' st1,
  Forall (λ kv : string * value, memoizes kv.2) d →
  (∀ k x n, (k, x) ∈ d → n ∈ nodes x → n ∈ nodes root) →
  acyclic_dict d →
  memo_inv st →
  build_dict raises p d st = inr (d', st1) →
  memo_post (reach_dict d) st st1
  ∧ Forall2 (λ a b : string * value, a.1 = b.1 ∧ reuses (memo st1) a.2 b.2) d d'.
Proof.
  induction d as [|[k x] d IHd]; intros st d' st1 HF Hsub Hacyc Hinv H.
  - injection H as <- <-. split; [by apply memo_post_refl | constructor].
  - apply Forall_cons in HF as [Hx HF]. rewrite build_dict_cons in H.
    apply bind_inr in H as (v & st2 & Hv & H).
    apply bind_inr in H as (rest & st3 & Hrest & [= <- <-]).
    destruct Hacyc as [Hax Hal].
    apply state_call_memoizes in Hv as [Hpost Hr]; [|done| |done|done].
    2:{ intros n Hn. eapply Hsub; [left|done]. }
    destruct (IHd _ _ _ HF
                (λ k' y n Hy, Hsub k' y n (list_elem_of_further _ _ _ Hy)) Hal
                (proj1 Hpost) Hrest) as [Hpost2 Hrs].
    split; [by eapply (memo_post_trans (reach x) (reach_dict d))|].
    constructor; [|done]. split; [done|].
    eapply reuses_mono; [|done]. apply Hpost2.
Qed.

Lemma _build_memoizes v : memoizes v.
Proof.
  induction v as [a|l IH|d IH|uid fn arguments tags IH|uid fn kwargs]
    using value_ind'; intros p st out st' Hsub Hacyc Hinv H.
  - injection H as <- <-. split; [by apply memo_post_refl | constructor].
  - rewrite _build_list in H. apply bind_inr in H as (l' & st1 & H & [= <- <-]).
    apply build_list_memoizes in H as [Hpost Hr]; [|done| |done|done].
    2:{ intros x n Hx Hn. apply Hsub. rewrite nodes_VList. by eapply nodes_list_in. }
    split; [done | by constructor].
  - rewrite _build_dict in H. apply bind_inr in H as (d' & st1 & H & [= <- <-]).
    apply build_dict_memoizes in H as [Hpost Hr]; [|done| |done|done].
    2:{ intros k x n Hx Hn. apply Hsub. rewrite nodes_VDict. by eapply nodes_dict_in. }
    split; [done | by constructor].
  - intros Hmiss. rewrite _build_buildable in H.
    apply bind_inr in H as (kwargs & st1 & H & Hb).
    apply __build___inr in Hb as (_ & -> & ->).
    rewrite acyclic_buildable in Hacyc. destruct Hacyc as [_ Hargs].
    apply build_items_memoizes in H as [Hpost Hr]; [|done| |done|done].
    2:{ intros k x n Hx Ht Hn. apply Hsub. rewrite nodes_buildable. right.
        by eapply nodes_args_in. }
    by exists st1, kwargs.
  - injection H as <- <-. split; [by apply memo_post_refl | constructor].
Qed.

End BuildMemo.

Section BuildClaims.
Import Fiddle BuildSpec Examples.

Ltac elem_of_cases H :=
  repeat (apply elem_of_cons in H as [H|H]; [subst|]); try by apply elem_of_nil in H.

Lemma dag_consistent : consistent dag.
Proof.
  intros n1 n2 H1 H2 Hu. unfold dag in H1, H2. simpl in H1, H2.
  elem_of_cases H1; elem_of_cases H2; try reflexivity; discriminate Hu.
Qed.

Lemma dag_acyclic : acyclic dag.
Proof.
  simpl. repeat split; intros H; elem_of_cases H; discriminate H.
Qed.

(** C1.  Whenever [build] returns, the object it returns is built from the
    config tree as the specification describes: for every [Buildable]
    reached, an argument tagged [DoNotBuild] is passed as it is (also when
    it is a [Buildable]), every other argument is built first, and the
    arguments are passed by keyword, in order, to the node's callable.  The
    tree is the unfolding of a config DAG, in which an identity names one
    node. *)
Theorem build_respects_do_not_build
    (raises : string → list (string * value) → option Py.exn) (root out : value) :
  consistent root →
  build raises root = inr out →
  Built root out.
Proof.
  intros Hc H. unfold build in H.
  destruct (_build raises root [] initial_state) as [e|[v st]] eqn:E; [done|].
  injection H as ->.
  refine (proj1 (_ : Built root out ∧ memo_built root (memo st))).
  eapply (_build_builds raises root Hc root [] initial_state); [done| |exact E].
  intros u r Hu. simpl in Hu. by rewrite lookup_empty in Hu.
Qed.

Lemma build_respects_do_not_build_witness :
  match build never_raises dag with
  | inr out => Built dag out
  | inl _ => False
  end.
Proof.
  destruct (build never_raises dag) as [e|out] eqn:E.
  - vm_compute in E. discriminate E.
  - apply (build_respects_do_not_build never_raises dag out dag_consistent E).
Defined.

(** The built object of the example: the template is kept, the shared
    [Buildable] is one object. *)
Lemma build_dag :
  build never_raises dag
  = inr (Object 2 "Model"
           [("block", Object 1 "Block" [("w", Object 0 "Weights" [("n", Atom (AInt 3))])]);
            ("w", Object 0 "Weights" [("n", Atom (AInt 3))]);
            ("tpl", template);
            ("dims", VList [Atom (AInt 4); Atom (AInt 3)])]).
Proof. vm_compute. reflexivity. Qed.

(** C3.  The traversal of [build] is memoized: when it returns, every
    [Buildable] it reaches was built exactly once (no identity occurs twice
    in the log of constructor calls, and every reached identity occurs in
    it), and one table from identities to objects gives, at every
    reference in the root and in the arguments of every built node, the
    object built for the referenced [Buildable]. *)
Theorem build_memoized
    (raises : string → list (string * value) → option Py.exn)
    (root out : value) (st : state) :
  acyclic root →
  consistent root →
  _build raises root [] initial_state = inr (out, st) →
  build raises root = inr out
  ∧ NoDup (built_uids st)
  ∧ (∀ u, u ∈ reach root → Some u ∈ built_uids st)
  ∧ ∃ table,
      reuses table root out
      ∧ ∀ node obj, (node, obj) ∈ calls st → constructed table node obj.
Proof.
  intros Hacyc Hc H. split; [unfold build; by rewrite H|].
  assert (memo_inv root initial_state) as Hinit.
  { split; [constructor|]. split; [intros ?? []%elem_of_nil|].
    split; [intros ?? Hu; simpl in Hu; by rewrite lookup_empty in Hu
           | intros ?? []%elem_of_nil]. }
  assert (∃ st2, calls st2 = calls st ∧ memo_post root (reach root) initial_state st2
                 ∧ reuses (memo st2) root out) as (st2 & Hcalls & (Hinv & _ & Hdom) & Hr).
  { pose proof (_build_memoizes raises root Hc root [] initial_state out st
                  (λ n Hn, Hn) Hacyc Hinit H) as Hpost.
    destruct root as [a|l|d|uid fn arguments tags|uid fn kwargs];
      try (exists st; split; [done|]; exact Hpost).
    destruct (Hpost (lookup_empty _)) as (st1 & kwargs & -> & -> & Hp & Hargs).
    rewrite acyclic_buildable in Hacyc. destruct Hacyc as [Hu _].
    eexists {| memo := <[uid := _]> (memo st1) |}. split; [reflexivity|].
    eapply memo_insert; try done. rewrite nodes_buildable. left. }
  destruct Hinv as (Hnd & Hcons & Hmemo & _).
  unfold built_uids in *. rewrite Hcalls in *.
  split; [done|]. split.
  - intros u Hu. destruct (proj2 (Hdom u) (or_intror Hu)) as [r Hl].
    destruct (Hmemo _ _ Hl) as (n & Hn & Hun).
    apply list_elem_of_fmap. exists (n, r). by split.
  - exists (memo st2). by split.
Qed.

Lemma build_memoized_witness :
  match _build never_raises dag [] initial_state with
  | inr (out, st) =>
      build never_raises dag = inr out
      ∧ NoDup (built_uids st)
      ∧ (∀ u, u ∈ reach dag → Some u ∈ built_uids st)
      ∧ ∃ table,
          reuses table dag out
          ∧ ∀ node obj, (node, obj) ∈ calls st → constructed table node obj
  | inl _ => False
  end.
Proof.
  destruct (_build never_raises dag [] initial_state) as [e|[out st]] eqn:E.
  - vm_compute in E. discriminate E.
  - apply (build_memoized never_raises dag out st dag_acyclic dag_consistent E).
Defined.

(** The three [Buildable]s that the traversal of the example reaches are
    built once each, in post-order; the template is not built. *)
Lemma build_dag_calls :
  match _build never_raises dag [] initial_state with
  | inr (_, st) => built_uids st = [Some 2; Some 1; Some 0]
  | inl _ => False
  end.
Proof. vm_compute. reflexivity. Qed.



(** X28: whenever [build] fails, what it raises is that error of a node
    reached from the root by the path that the error names, whose callable
    raised. *)
Theorem build_fails_at_a_node
    (raises : string → list (string * value) → option Py.exn)
    (root : value) (err : build_exn) :
  build raises root = inl err →
  ∃ path uid fn arguments tags kwargs e,
    resolves root path (Buildable uid fn arguments tags)
    ∧ kwargs.*1 = arguments.*1
    ∧ raises fn kwargs = Some e
    ∧ err = match e with
            | Py.TaggedValueNotFilledError _ => Reraised e
            | _ => BuildError (Buildable uid fn arguments tags)
                     ("<root>" +:+ path_str path) e kwargs
            end.
Proof.
  intros H. unfold build in H.
  destruct (_build raises root [] initial_state) as [e|[v st]] eqn:E; [|done].
  injection H as ->. apply _build_fails in E.
  destruct E as (path & uid & fn & args & tags & kwargs & e' & ? & ? & ? & ->).
  exists path, uid, fn, args, tags, kwargs, e'. by repeat split.
Qed.

Lemma build_fails_at_a_node_witness :
  ∃ path uid fn arguments tags kwargs e,
    resolves dag path (Buildable uid fn arguments tags)
    ∧ kwargs.*1 = arguments.*1
    ∧ weights_raise (Py.UserError 7) fn kwargs = Some e
    ∧ BuildError shared_w "<root>.block.w" (Py.UserError 7) [("n", Atom (AInt 3))]
      = match e with
        | Py.TaggedValueNotFilledError _ => Reraised e
        | _ => BuildError (Buildable uid fn arguments tags)
                 ("<root>" +:+ path_str path) e kwargs
        end.
Proof.
  apply (build_fails_at_a_node (weights_raise (Py.UserError 7)) dag). reflexivity.
Defined.

(** An ordinary exception of a nested callable comes back as a build error
    with the path to the node; a tagged-value-not-filled error comes back
    as it is. *)
Lemma build_dag_errors :
  build (weights_raise (Py.UserError 7)) dag
  = inl (BuildError shared_w "<root>.block.w" (Py.UserError 7) [("n", Atom (AInt 3))])
  ∧ build (weights_raise (Py.TaggedValueNotFilledError "n")) dag
    = inl (Reraised (Py.TaggedValueNotFilledError "n")).
Proof. split; vm_compute; reflexivity. Qed.

(** A dict key is written in the path as Python writes it: the key [it's]
    comes in double quotes. *)
Lemma build_error_key_path :
  build (weights_raise (Py.UserError 7)) (VDict [("it's", shared_w)])
  = inl (BuildError shared_w
           ("<root>[" +:+ String PyStr.dquote ("it's" +:+ String PyStr.dquote "]"))
           (Py.UserError 7) [("n", Atom (AInt 3))]).
Proof. vm_compute. reflexivity. Qed.

End BuildClaims.

(** ** Further properties: summaries and contexts *)

Section SummaryKeysMore.
Import PyStr Summary.

Lemma append_assoc (a b c : string) : (a +:+ b) +:+ c = a +:+ (b +:+ c).
Proof. induction a as [|x a IH]; [done|]. change (String x ((a +:+ b) +:+ c) = String x (a +:+ (b +:+ c))). by rewrite IH. Qed.

Lemma endswith_longer (key a b : string) :
  endswith key (a +:+ b) = true → endswith key b = true.
Proof.
  intros [p ->]%endswith_inv. rewrite <- append_assoc. apply endswith_append.
Qed.

(** X1: parsing a key and trimming it agree.  When
    [get_summary_type_from_key] finds a type, it is a base type (never an
    aggregate one), [trim_summary_type_from_key] returns the key without the
    suffix of that type, and the key is that name followed by the suffix;
    when it finds none, trimming returns [None] as well. *)
Theorem summary_key_parse_trim (key : string) :
  match get_summary_type_from_key key with
  | Some t =>
      t ≠ AGGREGATE_SCALAR ∧ t ≠ AGGREGATE_IMAGE
      ∧ ∃ s, trim_summary_type_from_key key = Some s
             ∧ key = s +:+ get_summary_type_suffix t
  | None => trim_summary_type_from_key key = None
  end.
Proof.
  unfold get_summary_type_from_key, trim_summary_type_from_key, members.
  cbn [type_from_key_loop trim_loop]. vm_compute (lower _).
  repeat match goal with
  | |- context [endswith key ?s] =>
      lazymatch goal with
      | H : endswith key s = _ |- _ => rewrite H
      | _ => destruct (endswith key s) eqn:?
      end
  end;
  try match goal with
  | H : endswith key ("_" +:+ ?r) = true |- _ ∧ _ ∧ _ =>
      split; [discriminate|]; split; [discriminate|];
      destruct (endswith_inv _ _ H) as [p Hp];
      exists p; split; [|exact Hp];
      rewrite Hp at 1; f_equal; apply slice_to_neg_append
  end; try reflexivity.
  all: exfalso;
    match goal with
    | H : endswith ?k ("_" +:+ "aggregate_scalar") = true,
      H' : endswith ?k ("_" +:+ "scalar") = false |- _ =>
        apply (endswith_longer k "_aggregate" "_scalar") in H;
        change ("_" +:+ "scalar") with "_scalar" in H'; congruence
    | H : endswith ?k ("_" +:+ "aggregate_image") = true,
      H' : endswith ?k ("_" +:+ "image") = false |- _ =>
        apply (endswith_longer k "_aggregate" "_image") in H;
        change ("_" +:+ "image") with "_image" in H'; congruence
    end.
Qed.
End SummaryKeysMore.

Section SummaryDictMore.
Import PyStr Tensor Summary Context Summaries.

Lemma scan_result fuel taken rename i full_name k :
  scan fuel taken rename i full_name = Some k →
  k = full_name ∨ ∃ j, k = rename j.
Proof.
  revert i full_name. induction fuel as [|fuel IH]; intros i full_name; simpl.
  - destruct (taken full_name); [done|]. intros [= <-]. by left.
  - destruct (taken full_name).
    + intros [->|[j ->]]%IH; right; eauto.
    + intros [= <-]. by left.
Qed.

Lemma image_batch_dim_inr t t' :
  image_batch_dim t = inr t' →
  data t' = data t ∧ dtype t' = dtype t ∧ ndim t' = 4%nat
  ∧ (ndim t = 3 ∨ ndim t = 4)%nat.
Proof.
  unfold image_batch_dim.
  destruct (Nat.eqb_spec (ndim t) 3) as [E|E].
  - simpl. rewrite E. simpl. intros [= <-]. simpl. rewrite E. auto.
  - destruct (Nat.eqb_spec (ndim t) 4) as [E4|E4]; simpl; [|done].
    intros [= <-]. auto.
Qed.

Lemma image_batch_dim_inl t e :
  image_batch_dim t = inl e →
  e = Py.AssertionError ∧ ndim t ≠ 3%nat ∧ ndim t ≠ 4%nat.
Proof.
  unfold image_batch_dim.
  destruct (Nat.eqb_spec (ndim t) 3) as [E|E].
  - simpl. rewrite E. simpl. done.
  - destruct (Nat.eqb_spec (ndim t) 4) as [E4|E4]; simpl; [done|].
    intros [= <-]. auto.
Qed.

(** X2: [_SummaryDict.add_summary] stores the tensor under a key that was
    not in the dict, made of the name, or the name followed by a counter,
    and the suffix of the type; the key parses back to the base type and
    trims back to the name that was used; the contents and the dtype of the
    tensor are kept. *)
Theorem dict_add_summary_key dict name tensor summary_type dict' :
  dict_add_summary dict name tensor summary_type = inr dict' →
  ∃ base tensor',
    (base = name ∨ ∃ i, base = name +:+ str i)
    ∧ dict !! (base +:+ get_summary_type_suffix summary_type) = None
    ∧ dict' = <[base +:+ get_summary_type_suffix summary_type := tensor']> dict
    ∧ get_summary_type_from_key (base +:+ get_summary_type_suffix summary_type)
      = Some (get_summary_base_type summary_type)
    ∧ trim_summary_type_from_key (base +:+ get_summary_type_suffix summary_type)
      = Some base
    ∧ data tensor' = data tensor ∧ dtype tensor' = dtype tensor.
Proof.
  unfold dict_add_summary.
  destruct (scan _ _ _ _ _) as [key|] eqn:E; [|done].
  pose proof (scan_not_taken _ _ _ _ _ _ E) as Hfree.
  apply bool_decide_eq_false_1 in Hfree.
  assert (dict !! key = None) as Hnone
    by (destruct (dict !! key); [exfalso; eauto | done]).
  apply scan_result in E.
  assert (∃ base, key = base +:+ get_summary_type_suffix summary_type
                  ∧ (base = name ∨ ∃ i, base = name +:+ str i)) as (base & -> & Hbase).
  { destruct E as [->|[j ->]]; [exists name; eauto|].
    exists (name +:+ str j). split; [by rewrite append_assoc | eauto]. }
  intros H.
  assert (∃ tensor', dict' = <[base +:+ get_summary_type_suffix summary_type := tensor']> dict
                     ∧ data tensor' = data tensor ∧ dtype tensor' = dtype tensor)
    as (tensor' & -> & Hd & Ht).
  { destruct (_ || _); simpl in H.
    - destruct (image_batch_dim tensor) as [|t1] eqn:Himg; simpl in H; [done|].
      apply image_batch_dim_inr in Himg as (Hd & Ht & _).
      injection H as <-. eexists. split; [reflexivity|].
      destruct (_ && _); simpl; by rewrite ?Hd, ?Ht.
    - injection H as <-. eexists. split; [reflexivity|].
      destruct (_ && _); done. }
  exists base, tensor'. repeat split; try done.
  - apply type_from_suffixed_key.
  - apply trim_suffixed_key.
Qed.

(** X3: [_SummaryDict.add_summary] raises only for an image whose rank is
    neither 3 nor 4, and then an [AssertionError]; otherwise it adds one new
    key, with a tensor of rank 4 for an image, of rank 3 for an audio
    summary of rank 2, and of the given rank in every other case. *)
Theorem dict_add_summary_rank dict name tensor summary_type :
  match dict_add_summary dict name tensor summary_type with
  | inl e =>
      e = Py.AssertionError
      ∧ get_summary_base_type summary_type = IMAGE
      ∧ ndim tensor ≠ 3%nat ∧ ndim tensor ≠ 4%nat
  | inr dict' =>
      ∃ key tensor',
        dict !! key = None ∧ dict' = <[key := tensor']> dict
        ∧ ndim tensor'
          = (if bool_decide (get_summary_base_type summary_type = IMAGE) then 4
             else if bool_decide (summary_type = AUDIO ∧ ndim tensor = 2) then 3
             else ndim tensor)%nat
  end.
Proof.
  unfold dict_add_summary.
  destruct (dict_scan_total dict name (get_summary_type_suffix summary_type)) as [key E].
  rewrite E. apply scan_not_taken in E. apply bool_decide_eq_false_1 in E.
  assert (dict !! key = None) as Hnone
    by (destruct (dict !! key); [exfalso; eauto | done]).
  destruct (bool_decide (summary_type = IMAGE) || bool_decide (summary_type = AGGREGATE_IMAGE))
    eqn:Hi.
  - assert (get_summary_base_type summary_type = IMAGE) as Hbase
      by (by destruct summary_type).
    destruct (image_batch_dim tensor) as [e|t1] eqn:Himg; simpl.
    + apply image_batch_dim_inl in Himg as (-> & ? & ?). done.
    + apply image_batch_dim_inr in Himg as (_ & _ & H4 & _).
      eexists _, _. split; [exact Hnone|]. split; [reflexivity|].
      rewrite (bool_decide_eq_true_2 _ Hbase).
      by destruct summary_type.
  - simpl. eexists _, _. split; [exact Hnone|]. split; [reflexivity|].
    rewrite (bool_decide_eq_false_2 (get_summary_base_type summary_type = IMAGE))
      by (by destruct summary_type).
    destruct (bool_decide (summary_type = AUDIO)) eqn:Ha; simpl.
    + apply bool_decide_eq_true_1 in Ha.
      destruct (Nat.eqb_spec (ndim tensor) 2) as [H2|H2]; simpl.
      * rewrite (bool_decide_eq_true_2 (summary_type = AUDIO ∧ ndim tensor = 2%nat))
          by done.
        simpl. by rewrite H2.
      * rewrite (bool_decide_eq_false_2 (summary_type = AUDIO ∧ ndim tensor = 2%nat));
          [done|]. intros [_ ?]. done.
    + apply bool_decide_eq_false_1 in Ha.
      rewrite (bool_decide_eq_false_2 (summary_type = AUDIO ∧ ndim tensor = 2%nat));
        [done|]. intros [? _]. done.
Qed.

End SummaryDictMore.

Section LayerSummariesMore.
Import PyStr Tensor Summary Context Summaries.

Lemma current_context_has_context w ctx :
  current_context w = Some ctx →
  has_context w = true ∧ ∃ current, cur_jax_context w = inr current ∧ heap w !! current = Some ctx.
Proof.
  unfold current_context, cur_jax_context, has_context, top.
  destruct (stack w) as [|c s] eqn:E; [done|].
  rewrite (bool_decide_eq_false_2 (c :: s = [])) by done.
  destruct (last (c :: s)) as [current|] eqn:El; simpl; [|done].
  intros H. split; [done|]. eauto.
Qed.

(** X4: under a context whose [summary_verbosity] is below the verbosity
    of the summary, [BaseLayer.add_summary] returns without storing
    anything and without evaluating the tensor. *)
Theorem add_summary_verbosity_gate (w : world) (self : layer_summaries) (name : string)
    (tensor : JTensor + (unit → JTensor)) (summary_type : SummaryType)
    (verbosity : Z) (ctx : JaxContext) :
  current_context w = Some ctx →
  (summary_verbosity (_hparams ctx) < verbosity)%Z →
  add_summary w self name tensor summary_type verbosity = inr self.
Proof.
  intros Hctx Hv. apply current_context_has_context in Hctx as (Hhas & current & Hcur & Hheap).
  unfold add_summary. rewrite Hhas, Hcur. simpl. rewrite Hheap. simpl.
  by rewrite (proj2 (Z.ltb_lt _ _) Hv).
Qed.

(** X5: without an ambient context [BaseLayer.add_summary] ignores the
    verbosity: it raises an [AssertionError] exactly for an image of rank
    other than 3 or 4 and for an audio summary of rank other than 2 or 3,
    and otherwise sows the tensor, with the batch dimension added where it
    is missing, under a name that is not a variable of the collection,
    followed by the suffix of the type. *)
Theorem add_summary_no_context (w : world) (self : layer_summaries) (name : string)
    (tensor : JTensor) (summary_type : SummaryType) (verbosity : Z) :
  has_context w = false →
  match add_summary w self name (inl tensor) summary_type verbosity with
  | inl e =>
      e = Py.AssertionError
      ∧ ((summary_type = IMAGE ∧ ndim tensor ≠ 3 ∧ ndim tensor ≠ 4)
         ∨ (summary_type = AUDIO ∧ ndim tensor ≠ 2 ∧ ndim tensor ≠ 3))%nat
  | inr self' =>
      ∃ base tensor',
        (base = name ∨ ∃ i, base = name +:+ str i)
        ∧ has_variable self base = false
        ∧ self' = sow self (base +:+ get_summary_type_suffix summary_type) tensor'
        ∧ data tensor' = data tensor
        ∧ ndim tensor'
          = (if bool_decide (summary_type = IMAGE) then 4
             else if bool_decide (summary_type = AUDIO) then 3
             else ndim tensor)%nat
  end.
Proof.
  intros Hno. unfold add_summary. rewrite Hno. simpl.
  destruct (layer_scan_total self name) as [base E]. rewrite E.
  pose proof (scan_not_taken _ _ _ _ _ _ E) as Hfree.
  apply scan_result in E.
  destruct (bool_decide (summary_type = IMAGE)) eqn:Hi.
  - apply bool_decide_eq_true_1 in Hi.
    destruct (image_batch_dim tensor) as [e|t1] eqn:Himg; simpl.
    + unfold image_batch_dim in Himg.
      destruct (Nat.eqb_spec (ndim tensor) 3) as [E3|E3].
      { simpl in Himg. rewrite E3 in Himg. done. }
      destruct (Nat.eqb_spec (ndim tensor) 4) as [E4|E4]; simpl in Himg; [done|].
      injection Himg as <-. split; [done|]. left. done.
    + exists base, t1. split; [done|]. split; [done|]. split; [done|].
      unfold image_batch_dim in Himg.
      destruct (Nat.eqb_spec (ndim tensor) 3) as [E3|E3].
      { simpl in Himg. rewrite E3 in Himg. simpl in Himg. injection Himg as <-.
        simpl. rewrite E3. done. }
      destruct (Nat.eqb_spec (ndim tensor) 4) as [E4|E4]; simpl in Himg; [|done].
      injection Himg as <-. done.
  - destruct (bool_decide (summary_type = AUDIO)) eqn:Ha.
    + apply bool_decide_eq_true_1 in Ha.
      destruct (Nat.eqb_spec (ndim tensor) 2) as [E2|E2]; simpl.
      * rewrite E2. simpl. exists base, (expand_dims tensor).
        split; [done|]. split; [done|]. split; [done|]. simpl. by rewrite E2.
      * destruct (Nat.eqb_spec (ndim tensor) 3) as [E3|E3]; simpl.
        -- exists base, tensor. done.
        -- split; [done|]. right. done.
    + simpl. exists base, tensor. done.
Qed.

End LayerSummariesMore.

Section ContextMore.
Import Tensor Summary Context Summaries GlobalSummaries.

(** X6: [JaxContext.__exit__] pops the stack when the context is the
    innermost one and raises an [AssertionError] in every other case, also
    on an empty stack. *)
Theorem exit_requires_top (self : nat) (w : world) :
  (top w = Some self → __exit__ self w = inr (set_stack (removelast (stack w)) w))
  ∧ (top w ≠ Some self → __exit__ self w = inl Py.AssertionError).
Proof.
  unfold top, __exit__. destruct (stack w) as [|c s] eqn:E.
  - split; [done|]. intros _. reflexivity.
  - rewrite (bool_decide_eq_false_2 (c :: s = [])) by done. simpl.
    split.
    + intros H. by rewrite (bool_decide_eq_true_2 _ H).
    + intros H. by rewrite (bool_decide_eq_false_2 _ H).
Qed.

End ContextMore.

Section GlobalSummariesFacts.
Import Tensor Summary LayerConfig Context Summaries GlobalSummaries WorldComp.

Lemma top_enter self w : top (__enter__ self w) = Some self.
Proof. apply enter_top. Qed.

Lemma cur_context_object_inr w current ctx :
  top w = Some current → heap w !! current = Some ctx →
  cur_context_object w = inr (current, ctx).
Proof.
  intros Ht Hh. unfold cur_context_object, cur_jax_context. rewrite Ht. simpl.
  by rewrite Hh.
Qed.

Lemma cur_context_object_inv w current ctx :
  cur_context_object w = inr (current, ctx) →
  top w = Some current ∧ heap w !! current = Some ctx.
Proof.
  unfold cur_context_object, cur_jax_context.
  destruct (top w) as [c|]; simpl; [|done].
  destruct (heap w !! c) as [x|] eqn:E; simpl; [|done].
  intros [= <- <-]. done.
Qed.

(** X7: [add_global_summary] needs a current context; it leaves the stack
    as it is, changes nothing when the verbosity is above the context's,
    and otherwise adds one new key to the summary dict of the current
    context, with the tensor cast to [float32] when it is floating point. *)
Theorem add_global_summary_stores (name : string) (tensor : JTensor)
    (summary_type : SummaryType) (verbosity : Z) (w w' : world) :
  add_global_summary name tensor summary_type verbosity w = inr w' →
  ∃ current ctx,
    top w = Some current ∧ heap w !! current = Some ctx
    ∧ stack w' = stack w
    ∧ if (summary_verbosity (_hparams ctx) <? verbosity)%Z then w' = w
      else ∃ key tensor',
        _summary_dict ctx !! key = None
        ∧ heap w'
          = <[current := set_summary_dict (<[key := tensor']> (_summary_dict ctx)) ctx]>
              (heap w)
        ∧ Tensor.data tensor' = Tensor.data tensor
        ∧ Tensor.dtype tensor'
          = (if is_floating (Tensor.dtype tensor) then float32 else Tensor.dtype tensor).
Proof.
  unfold add_global_summary.
  destruct (cur_context_object w) as [e|[current ctx]] eqn:Hc; simpl; [done|].
  apply cur_context_object_inv in Hc as [Ht Hh].
  intros H. exists current, ctx. split; [done|]. split; [done|].
  destruct (summary_verbosity (_hparams ctx) <? verbosity)%Z.
  - injection H as <-. done.
  - destruct (dict_add_summary _ _ _ _) as [e|dict] eqn:Hd; simpl in H; [done|].
    injection H as <-. split; [done|].
    unfold dict_add_summary in Hd.
    destruct (scan _ _ _ _ _) as [key|] eqn:E; [|done].
    apply scan_not_taken in E. apply bool_decide_eq_false_1 in E.
    assert (_summary_dict ctx !! key = None) as Hnone
      by (destruct (_summary_dict ctx !! key); [exfalso; eauto | done]).
    set (t := if is_floating (Tensor.dtype tensor) then astype tensor float32 else tensor) in *.
    assert (Tensor.data t = Tensor.data tensor
            ∧ Tensor.dtype t = (if is_floating (Tensor.dtype tensor) then float32 else Tensor.dtype tensor))
      as [Hdt Hty] by (subst t; by destruct (is_floating (Tensor.dtype tensor))).
    destruct (_ || _); simpl in Hd.
    + destruct (image_batch_dim t) as [|t1] eqn:Himg; simpl in Hd; [done|].
      apply image_batch_dim_inr in Himg as (Hd1 & Ht1 & _).
      injection Hd as <-. eexists key, _. split; [done|]. split; [reflexivity|].
      destruct (_ && _); simpl; by rewrite ?Hd1, ?Ht1, ?Hdt, ?Hty.
    + injection Hd as <-. eexists key, _. split; [done|]. split; [reflexivity|].
      destruct (_ && _); simpl; by rewrite ?Hdt, ?Hty.
Qed.

Lemma add_global_summary_heap name tensor ty verbosity w w' :
  add_global_summary name tensor ty verbosity w = inr w' →
  ∃ current ctx,
    top w = Some current ∧ heap w !! current = Some ctx
    ∧ stack w' = stack w
    ∧ (w' = w ∨ ∃ dict, heap w' = <[current := set_summary_dict dict ctx]> (heap w)).
Proof.
  unfold add_global_summary.
  destruct (cur_context_object w) as [e|[current ctx]] eqn:Hc; simpl; [done|].
  apply cur_context_object_inv in Hc as [Ht Hh].
  intros H. exists current, ctx. split; [done|]. split; [done|].
  destruct (summary_verbosity (_hparams ctx) <? verbosity)%Z.
  - injection H as <-. split; [done|]. by left.
  - destruct (dict_add_summary _ _ _ _) as [e|dict] eqn:Hd; simpl in H; [done|].
    injection H as <-. split; [done|]. right. by exists dict.
Qed.

(** X8: a context made by [JaxContext.new_context()] inherits the hparams
    of the current one but has a summary dict of its own: a global summary
    added inside [with inner:] does not reach the summaries of the outer
    context, which is current again after the block. *)
Theorem nested_context_keeps_outer_summaries (name : string) (tensor : JTensor)
    (summary_type : SummaryType) (verbosity : Z) (w : world) (outer : nat)
    (ctx : JaxContext) :
  top w = Some outer → heap w !! outer = Some ctx → heap w !! next_uid w = None →
  let inner := (new_context None w).1 in
  let w1 := (new_context None w).2 in
  let w2 := (with_context inner
               (as_comp (add_global_summary name tensor summary_type verbosity)) w1).2 in
  stack w2 = stack w
  ∧ all_global_summaries w2 = inr (_summary_dict ctx)
  ∧ _hparams <$> heap w2 !! inner = Some (_hparams ctx)
  ∧ all_global_summaries w1 = inr (_summary_dict ctx).
Proof.
  intros Ht Hh Hfresh. cbv zeta.
  destruct (new_context None w) as [inner w1] eqn:Hnew. cbn [fst snd].
  assert (outer ≠ next_uid w) as Hne by (intros ->; congruence).
  assert (inner = next_uid w ∧ stack w1 = stack w
          ∧ heap w1 = <[next_uid w := new_JaxContext (_hparams ctx)]> (heap w))
    as (Hinner & Hs1 & Hh1).
  { unfold new_context in Hnew. rewrite Ht in Hnew. simpl in Hnew.
    rewrite Hh in Hnew. by injection Hnew as <- <-. }
  clear Hnew.
  assert (top w1 = Some outer) as Ht1 by (unfold top in *; by rewrite Hs1).
  remember (with_context inner
              (as_comp (add_global_summary name tensor summary_type verbosity)) w1).2
    as w2 eqn:Hw2.
  assert (stack w2 = stack w
          ∧ (∀ c, c ≠ inner → heap w2 !! c = heap w1 !! c)
          ∧ _hparams <$> heap w2 !! inner = Some (_hparams ctx)) as (Hs2 & Hframe & Hhp).
  { subst w2. unfold with_context, as_comp.
    assert (heap w1 !! inner = Some (new_JaxContext (_hparams ctx))) as Hin
      by (by rewrite Hh1, Hinner, lookup_insert_eq).
    destruct (add_global_summary _ _ _ _ (__enter__ inner w1)) as [e|w'] eqn:Ha.
    - rewrite (exit_with_stack inner (__enter__ inner w1) (stack w1)) by done.
      cbn [fst snd]. split; [done|]. split; [done|].
      change (heap (set_stack (stack w1) (__enter__ inner w1))) with (heap w1).
      by rewrite Hin.
    - pose proof (add_global_summary_heap _ _ _ _ _ _ Ha)
        as (cur & c0 & Hcur & Hc0 & Hst & Hres).
      rewrite top_enter in Hcur. injection Hcur as <-.
      change (heap (__enter__ inner w1)) with (heap w1) in Hc0, Hres.
      rewrite Hin in Hc0. injection Hc0 as <-.
      rewrite (exit_with_stack inner w' (stack w1)) by (by rewrite Hst).
      cbn [fst snd]. split; [done|].
      change (heap (set_stack (stack w1) w')) with (heap w').
      destruct Hres as [->|[dict Hheap]].
      + change (heap (__enter__ inner w1)) with (heap w1).
        split; [done|]. by rewrite Hin.
      + rewrite Hheap. split.
        * intros c Hc. by rewrite lookup_insert_ne.
        * by rewrite lookup_insert_eq. }
  split; [done|]. split; [|split; [done|]].
  - unfold all_global_summaries.
    rewrite (cur_context_object_inr w2 outer ctx); [done| |].
    + unfold top in *. by rewrite Hs2.
    + rewrite Hframe by (by rewrite Hinner). rewrite Hh1.
      by rewrite lookup_insert_ne.
  - unfold all_global_summaries.
    rewrite (cur_context_object_inr w1 outer ctx); [done|done|].
    rewrite Hh1. by rewrite lookup_insert_ne.
Qed.

(** X9: [set_shared_layer] changes the entry of its own root scope and id
    only: every other entry, the summary dict and the hparams of the context
    are as before. *)
Theorem set_shared_layer_frame (self self' : JaxContext) (scope scope' : nat)
    (id id' : string) (wrapper : wrapper_obj) (layer_hparams : layer_p) :
  set_shared_layer self scope id wrapper layer_hparams = inr self' →
  (scope', id') ≠ (scope, id) →
  lookup_shared_layer self' scope' id' = lookup_shared_layer self scope' id'
  ∧ _summary_dict self' = _summary_dict self
  ∧ _hparams self' = _hparams self.
Proof.
  unfold set_shared_layer.
  destruct (lookup_shared_layer self scope id) eqn:E; [done|]. simpl.
  intros [= <-] Hne. split; [|done].
  unfold lookup_shared_layer. simpl.
  destruct (decide (scope' = scope)) as [->|Hs].
  - rewrite lookup_insert_eq. simpl.
    rewrite lookup_insert_ne; [done|]. intros ->. done.
  - by rewrite lookup_insert_ne.
Qed.

(** X10: the first [instantiate_layer] of a config with a shared-weight
    id returns: the layer it creates is the child of the wrapper, named
    after the id (not after the name in the config), of the class of the
    config, and its own shared-weight id is cleared; the stack is
    unchanged. *)
Theorem shared_layer_named_after_id (layer_p : layer_p) (scope : nat) (w : world)
    (id : string) (ctx : JaxContext) :
  shared_weight_layer_id (base layer_p) = Some id → id ≠ "" →
  current_context w = Some ctx →
  lookup_shared_layer ctx scope id = None →
  ∃ l1 w1,
    instantiate_layer layer_p scope w = inr (l1, w1)
    ∧ name (base (layer_hparams l1)) = Some id
    ∧ shared_weight_layer_id (base (layer_hparams l1)) = None
    ∧ cls (layer_hparams l1) = cls layer_p
    ∧ stack w1 = stack w.
Proof.
  intros Hid Hne Hctx Hentry.
  unfold instantiate_layer, truthy, cur_jax_context, current_context in *.
  rewrite Hid, bool_decide_eq_false_2 by done. simpl.
  destruct (top w) as [current|] eqn:Htop; [|done]. simpl in *.
  rewrite Hctx. simpl. rewrite Hentry.
  unfold instantiate_wrapper. rewrite child_config_root.
  unfold Instantiate, set_shared_layer.
  cbn [fst snd cld layer_hparams]. rewrite Hentry.
  eexists _, _. split.
  { rewrite (bool_decide_eq_true_2 (None = None)) by done. reflexivity. }
  cbn [layer_hparams base cls name set_name setattr clone stack].
  split; [done|]. split; [|done].
  cbn [shared_weight_layer_id set_name].
  rewrite (proj2 (proj2 (copy_other_fields _ _))). done.
Qed.

End GlobalSummariesFacts.

Section SummariesMoreExamples.
Import PyStr Tensor Summary LayerConfig Context Summaries GlobalSummaries WorldComp.
Import Examples MoreExamples.

Lemma dict_add_summary_key_witness :
  match dict_add_summary ∅ "loss" (scalar 1) SCALAR with
  | inr dict' =>
      ∃ base tensor',
        (base = "loss" ∨ ∃ i, base = "loss" +:+ str i)
        ∧ (∅ : gmap string JTensor) !! (base +:+ get_summary_type_suffix SCALAR) = None
        ∧ dict' = <[base +:+ get_summary_type_suffix SCALAR := tensor']> ∅
        ∧ get_summary_type_from_key (base +:+ get_summary_type_suffix SCALAR)
          = Some (get_summary_base_type SCALAR)
        ∧ trim_summary_type_from_key (base +:+ get_summary_type_suffix SCALAR)
          = Some base
        ∧ data tensor' = data (scalar 1)
        ∧ Tensor.dtype tensor' = Tensor.dtype (scalar 1)
  | inl _ => False
  end.
Proof.
  destruct (dict_add_summary ∅ "loss" (scalar 1) SCALAR) as [e|dict'] eqn:E.
  - vm_compute in E. discriminate E.
  - exact (dict_add_summary_key ∅ "loss" (scalar 1) SCALAR dict' E).
Defined.

Lemma add_summary_verbosity_gate_witness :
  add_summary one_context empty_summaries "loss" (inl (scalar 1)) SCALAR 4
  = inr empty_summaries.
Proof.
  apply (add_summary_verbosity_gate one_context empty_summaries "loss"
           (inl (scalar 1)) SCALAR 4 default_context).
  - vm_compute. reflexivity.
  - reflexivity.
Defined.

Lemma add_summary_no_context_witness :
  match add_summary no_context empty_summaries "img"
          (inl {| Tensor.dtype := float32; ndim := 3; data := 1 |}) IMAGE 9 with
  | inl e =>
      e = Py.AssertionError
      ∧ ((IMAGE = IMAGE ∧ 3 ≠ 3 ∧ 3 ≠ 4) ∨ (IMAGE = AUDIO ∧ 3 ≠ 2 ∧ 3 ≠ 3))%nat
  | inr self' =>
      ∃ base tensor',
        (base = "img" ∨ ∃ i, base = "img" +:+ str i)
        ∧ has_variable empty_summaries base = false
        ∧ self' = sow empty_summaries (base +:+ get_summary_type_suffix IMAGE) tensor'
        ∧ data tensor' = 1%nat
        ∧ ndim tensor'
          = (if bool_decide (IMAGE = IMAGE) then 4
             else if bool_decide (IMAGE = AUDIO) then 3 else 3)%nat
  end.
Proof.
  apply (add_summary_no_context no_context empty_summaries "img"
           {| Tensor.dtype := float32; ndim := 3; data := 1 |} IMAGE 9).
  reflexivity.
Defined.

Lemma add_global_summary_stores_witness :
  match add_global_summary "loss" (scalar 1) SCALAR 0 one_context with
  | inr w' =>
      ∃ current ctx,
        top one_context = Some current ∧ heap one_context !! current = Some ctx
        ∧ stack w' = stack one_context
        ∧ if (summary_verbosity (_hparams ctx) <? 0)%Z then w' = one_context
          else ∃ key tensor',
            _summary_dict ctx !! key = None
            ∧ heap w'
              = <[current := set_summary_dict (<[key := tensor']> (_summary_dict ctx)) ctx]>
                  (heap one_context)
            ∧ Tensor.data tensor' = Tensor.data (scalar 1)
            ∧ Tensor.dtype tensor'
              = (if is_floating (Tensor.dtype (scalar 1)) then float32
                 else Tensor.dtype (scalar 1))
  | inl _ => False
  end.
Proof.
  destruct (add_global_summary "loss" (scalar 1) SCALAR 0 one_context) as [e|w'] eqn:E.
  - vm_compute in E. discriminate E.
  - exact (add_global_summary_stores "loss" (scalar 1) SCALAR 0 one_context w' E).
Defined.

Lemma nested_context_keeps_outer_summaries_witness :
  let inner := (new_context None one_context).1 in
  let w1 := (new_context None one_context).2 in
  let w2 := (with_context inner
               (as_comp (add_global_summary "loss" (scalar 1) SCALAR 0)) w1).2 in
  stack w2 = stack one_context
  ∧ all_global_summaries w2 = inr (_summary_dict default_context)
  ∧ _hparams <$> heap w2 !! inner = Some (_hparams default_context)
  ∧ all_global_summaries w1 = inr (_summary_dict default_context).
Proof.
  apply (nested_context_keeps_outer_summaries "loss" (scalar 1) SCALAR 0 one_context
           0 default_context); vm_compute; reflexivity.
Defined.

Lemma set_shared_layer_frame_witness :
  match set_shared_layer default_context 5 "emb" emb_wrapper (shared_p "a" "emb") with
  | inr self' =>
      lookup_shared_layer self' 5 "other" = lookup_shared_layer default_context 5 "other"
      ∧ _summary_dict self' = _summary_dict default_context
      ∧ _hparams self' = _hparams default_context
  | inl _ => False
  end.
Proof.
  destruct (set_shared_layer default_context 5 "emb" emb_wrapper (shared_p "a" "emb"))
    as [e|self'] eqn:E.
  - vm_compute in E. discriminate E.
  - apply (set_shared_layer_frame default_context self' 5 5 "emb" "other" emb_wrapper
             (shared_p "a" "emb") E).
    discriminate.
Defined.

Lemma shared_layer_named_after_id_witness :
  ∃ l1 w1,
    instantiate_layer (shared_p "a" "emb") 5 one_context = inr (l1, w1)
    ∧ name (base (layer_hparams l1)) = Some "emb"
    ∧ shared_weight_layer_id (base (layer_hparams l1)) = None
    ∧ cls (layer_hparams l1) = cls (shared_p "a" "emb")
    ∧ stack w1 = stack one_context.
Proof.
  apply (shared_layer_named_after_id (shared_p "a" "emb") 5 one_context "emb"
           default_context).
  - reflexivity.
  - discriminate.
  - vm_compute. reflexivity.
  - vm_compute. reflexivity.
Defined.

End SummariesMoreExamples.

(** ** Further properties: sharding annotations *)

Section ShardingFacts.
Import SplitDims Weights Sharding ShardingSpec.

Lemma result_bind_inr {A B} (m : Py.result A) (k : A → Py.result B) b :
  m ≫= k = inr b ↔ ∃ a, m = inr a ∧ k a = inr b.
Proof.
  destruct m as [e|a]; simpl; split.
  - intros [=].
  - by intros (? & [=] & ?).
  - eauto.
  - by intros (? & [= <-] & ?).
Qed.

Lemma assert_inr (c : bool) u : Py.assert c = inr u ↔ c = true.
Proof. destruct c, u; simpl; split; try done. Qed.

Lemma _parse_entry_seq names l :
  _parse_entry names (DTuple l)
  = (split_dims ← _parse_split_dims names l; mret (PTuple split_dims))
  ∧ _parse_entry names (DList l)
    = (split_dims ← _parse_split_dims names l; mret (PTuple split_dims)).
Proof. split; reflexivity. Qed.

Lemma _parse_split_dims_cons names d l :
  _parse_split_dims names (d :: l)
  = (x ← _parse_entry names d; xs ← _parse_split_dims names l; mret (x :: xs)).
Proof. reflexivity. Qed.

Lemma _parse_split_dims_inr names l p :
  _parse_split_dims names l = inr p ↔
  Forall2 (λ d x, _parse_entry names d = inr x) l p.
Proof.
  revert p. induction l as [|d l IH]; intros p.
  - split; [intros [= <-]; constructor | by inversion 1].
  - rewrite _parse_split_dims_cons. split.
    + intros (x & Hx & H)%result_bind_inr.
      apply result_bind_inr in H as (xs & Hxs & [= <-]).
      constructor; [done|]. by apply IH.
    + inversion 1 as [|? y ? ys Hy Hys]; subst.
      rewrite Hy. simpl. apply IH in Hys. by rewrite Hys.
Qed.

(** What one entry parses to names only mesh axes. *)
Lemma _parse_entry_axes names d : ∀ x,
  _parse_entry names d = inr x → ∀ n, n ∈ axes_of x → n ∈ names.
Proof.
  induction d as [z|s| |l IH|l IH|t] using split_dim_ind'; intros x H n Hn.
  - simpl in H. destruct (z <? 0)%Z; [by injection H as <-; simpl in Hn; set_solver|].
    destruct (z <? Z.of_nat (length names))%Z; simpl in H; [|done].
    destruct (names !! Z.to_nat z) as [nm|] eqn:E; simpl in H; [|done].
    injection H as <-. simpl in Hn. apply list_elem_of_singleton in Hn as ->.
    by eapply list_elem_of_lookup_2.
  - simpl in H. destruct (bool_decide (s ∈ names)) eqn:E; simpl in H; [|done].
    injection H as <-. simpl in Hn. apply list_elem_of_singleton in Hn as ->.
    by apply bool_decide_eq_true_1 in E.
  - injection H as <-. simpl in Hn. set_solver.
  - rewrite (proj1 (_parse_entry_seq names l)) in H.
    apply result_bind_inr in H as (p & Hp & [= <-]).
    apply _parse_split_dims_inr in Hp. simpl in Hn.
    apply list_elem_of_In, in_flat_map in Hn as (y & Hy & Hn).
    apply list_elem_of_In in Hy, Hn.
    revert IH. induction Hp as [|d y' l p Hd Hp IHp]; intros IH; [by apply elem_of_nil in Hy|].
    apply Forall_cons in IH as [IHd IH].
    apply elem_of_cons in Hy as [->|Hy]; [by eapply IHd | by apply IHp].
  - rewrite (proj2 (_parse_entry_seq names l)) in H.
    apply result_bind_inr in H as (p & Hp & [= <-]).
    apply _parse_split_dims_inr in Hp. simpl in Hn.
    apply list_elem_of_In, in_flat_map in Hn as (y & Hy & Hn).
    apply list_elem_of_In in Hy, Hn.
    revert IH. induction Hp as [|d y' l p Hd Hp IHp]; intros IH; [by apply elem_of_nil in Hy|].
    apply Forall_cons in IH as [IHd IH].
    apply elem_of_cons in Hy as [->|Hy]; [by eapply IHd | by apply IHp].
  - done.
Qed.

Lemma _parse_split_dims_length names l p :
  _parse_split_dims names l = inr p → length p = length l.
Proof. intros H. apply _parse_split_dims_inr in H. symmetry. by eapply Forall2_length. Qed.

(** X11: [to_partition_spec] gives one entry per entry of the mapping, and
    names only axes of the mesh. *)
Theorem to_partition_spec_shape (split_dims_mapping : list split_dim)
    (mesh_axis_names : list string) (partition_spec : list spec_dim) :
  to_partition_spec split_dims_mapping mesh_axis_names = inr partition_spec →
  length partition_spec = length split_dims_mapping
  ∧ ∀ x n, x ∈ partition_spec → n ∈ axes_of x → n ∈ mesh_axis_names.
Proof.
  unfold to_partition_spec. intros H. apply _parse_split_dims_inr in H. split.
  - symmetry. by eapply Forall2_length.
  - intros x n Hx Hn.
    destruct (proj1 (list_elem_of_lookup _ _) Hx) as [i Hi].
    destruct (Forall2_lookup_r _ _ _ _ _ H Hi) as (d & _ & Hd).
    by eapply _parse_entry_axes.
Qed.

(** An entry of a partition spec over the mesh axes parses to itself. *)
Lemma _parse_entry_as_split_dim names x :
  (∀ n, n ∈ axes_of x → n ∈ names) →
  _parse_entry names (as_split_dim x) = inr x.
Proof.
  induction x as [|name|l IH] using spec_dim_ind'; intros Hax.
  - done.
  - simpl. rewrite bool_decide_eq_true_2; [done|]. apply Hax. simpl. set_solver.
  - cbn [as_split_dim]. rewrite (proj1 (_parse_entry_seq names _)).
    assert (_parse_split_dims names (List.map as_split_dim l) = inr l) as ->; [|done].
    apply _parse_split_dims_inr.
    induction IH as [|y l Hy _ IHl]; [constructor|].
    simpl. constructor.
    + apply Hy. intros n Hn. apply Hax. simpl. apply elem_of_app. by left.
    + apply IHl. intros n Hn. apply Hax. simpl. apply elem_of_app. by right.
Qed.

(** X12: a partition spec is a mapping that [to_partition_spec] leaves as it
    is. *)
Theorem to_partition_spec_idempotent (split_dims_mapping : list split_dim)
    (mesh_axis_names : list string) (partition_spec : list spec_dim) :
  to_partition_spec split_dims_mapping mesh_axis_names = inr partition_spec →
  to_partition_spec (as_split_dim <$> partition_spec) mesh_axis_names
  = inr partition_spec.
Proof.
  intros H. destruct (to_partition_spec_shape _ _ _ H) as [_ Hax].
  unfold to_partition_spec. apply _parse_split_dims_inr.
  apply Forall2_fmap_l, Forall_Forall2_diag, Forall_forall.
  intros x Hx. apply _parse_entry_as_split_dim. eauto.
Qed.

Lemma _parse_replicated names l :
  Forall replicated l → _parse_split_dims names l = inr (replicate (length l) PNone).
Proof.
  induction 1 as [|d l Hd _ IH]; [done|].
  rewrite _parse_split_dims_cons, IH.
  destruct Hd as [->|(z & -> & Hz)]; simpl; [done|].
  by rewrite (proj2 (Z.ltb_lt _ _) Hz).
Qed.

(** X13: a mapping that asks for no sharding gives the all-[None] spec,
    whatever the mesh. *)
Theorem to_partition_spec_replicated (split_dims_mapping : list split_dim)
    (mesh_axis_names : list string) :
  Forall replicated split_dims_mapping →
  to_partition_spec split_dims_mapping mesh_axis_names
  = inr (replicate (length split_dims_mapping) PNone).
Proof. apply _parse_replicated. Qed.

Lemma _parse_split_dims_app names l1 l2 :
  _parse_split_dims names (l1 ++ l2)
  = (p1 ← _parse_split_dims names l1; p2 ← _parse_split_dims names l2; mret (p1 ++ p2)).
Proof.
  induction l1 as [|d l1 IH].
  - simpl. by destruct (_parse_split_dims names l2).
  - change ((d :: l1) ++ l2) with (d :: (l1 ++ l2)).
    rewrite !_parse_split_dims_cons, IH.
    destruct (_parse_entry names d); simpl; [done|].
    destruct (_parse_split_dims names l1); simpl; [done|].
    by destruct (_parse_split_dims names l2).
Qed.

(** X14: a mesh axis may be given by its index or by its name. *)
Theorem to_partition_spec_index_or_name (pre post : list split_dim)
    (mesh_axis_names : list string) (i : nat) (name : string) :
  mesh_axis_names !! i = Some name →
  to_partition_spec (pre ++ DInt (Z.of_nat i) :: post) mesh_axis_names
  = to_partition_spec (pre ++ DStr name :: post) mesh_axis_names.
Proof.
  intros Hi. unfold to_partition_spec.
  rewrite !_parse_split_dims_app, !_parse_split_dims_cons.
  assert (_parse_entry mesh_axis_names (DInt (Z.of_nat i))
          = _parse_entry mesh_axis_names (DStr name)) as ->; [|done].
  simpl. destruct (Z.ltb_spec (Z.of_nat i) 0); [lia|].
  assert (i < length mesh_axis_names)%nat by (by eapply lookup_lt_Some).
  destruct (Z.ltb_spec (Z.of_nat i) (Z.of_nat (length mesh_axis_names))); [|lia].
  simpl. rewrite Nat2Z.id, Hi.
  rewrite bool_decide_eq_true_2; [done|]. by eapply list_elem_of_lookup_2.
Qed.

(** The spec of a variable has one entry for every dimension of the
    repeat prefix and of the shape. *)
Lemma _get_spec_length (device_axis_names : list string) (var_p : WeightHParams)
    (spec : list spec_dim) :
  _get_spec device_axis_names var_p = inr spec →
  length spec = (length (contents (repeat_prefix var_p)) + length (shape var_p))%nat.
Proof.
  unfold _get_spec. intros H.
  apply result_bind_inr in H as (m1 & Hm1 & H).
  apply result_bind_inr in H as (m2 & Hm2 & H).
  apply _parse_split_dims_length in H as ->.
  assert (length m1 = length (shape var_p)) as Hl1.
  { destruct (tensor_split_dims_mapping var_p) as [m|].
    - apply result_bind_inr in Hm1 as (? & Ha%assert_inr & [= <-]).
      by apply Nat.eqb_eq in Ha.
    - injection Hm1 as <-. by rewrite length_replicate. }
  destruct (repeat_prefix var_p) as [rp|]; simpl.
  - apply result_bind_inr in Hm2 as (pm & Hpm & [= <-]).
    rewrite length_app, Hl1. f_equal.
    destruct (repeat_prefix_split_dims_mapping var_p) as [m|].
    + apply result_bind_inr in Hpm as (? & Ha%assert_inr & [= <-]).
      by apply Nat.eqb_eq in Ha.
    + injection Hpm as <-. by rewrite length_replicate.
  - by injection Hm2 as <-.
Qed.

(** X15: a variable without sharding annotations is replicated. *)
Theorem get_spec_default (device_axis_names : list string) (var_p : WeightHParams) :
  tensor_split_dims_mapping var_p = None →
  repeat_prefix_split_dims_mapping var_p = None →
  _get_spec device_axis_names var_p
  = inr (replicate (length (contents (repeat_prefix var_p)) + length (shape var_p)) PNone)
  ∧ _weight_hparam_to_pspec var_p device_axis_names
    = inr (replicate (length (shape var_p)) PNone).
Proof.
  intros H1 H2. unfold _get_spec, _weight_hparam_to_pspec, to_partition_spec.
  rewrite H1, H2. simpl.
  split.
  - destruct (repeat_prefix var_p) as [rp|]; simpl.
    + rewrite _parse_replicated.
      * by rewrite length_app, !length_replicate.
      * apply Forall_app. split; apply Forall_replicate; right; exists (-1)%Z; (split; [done|lia]).
    + rewrite _parse_replicated; [by rewrite length_replicate|].
      apply Forall_replicate. right. exists (-1)%Z. split; [done|lia].
  - rewrite _parse_replicated; [by rewrite length_replicate|].
    apply Forall_replicate. by left.
Qed.

Lemma tree_map_inr {A B} (f : A → Py.result B) leaves ys :
  tree_map f leaves = inr ys ↔ Forall2 (λ x y, f x = inr y) leaves ys.
Proof.
  revert ys. induction leaves as [|x leaves IH]; intros ys; cbn [tree_map].
  - split; [intros [= <-]; constructor|by inversion 1].
  - rewrite result_bind_inr. split.
    + intros (y & Hy & H). apply result_bind_inr in H as (ys' & Hys & [= <-]).
      constructor; [done|by apply IH].
    + inversion 1 as [|? y ? ys' Hy Hys]; subst. exists y. split; [done|].
      apply result_bind_inr. exists ys'. split; [by apply IH|done].
Qed.

(** X16: [var_partition_specs] checks the mesh and gives every variable a
    spec of its full rank. *)
Theorem var_partition_specs_ranks (var_specs : list WeightHParams)
    (mesh_shape : list Z) (device_axis_names : list string)
    (specs : list (list spec_dim)) :
  var_partition_specs var_specs mesh_shape device_axis_names = inr specs →
  length device_axis_names = length mesh_shape
  ∧ Forall2 (λ var_p spec,
       length spec
       = (length (contents (repeat_prefix var_p)) + length (shape var_p))%nat
       ∧ ∀ x n, x ∈ spec → n ∈ axes_of x → n ∈ device_axis_names)
      var_specs specs.
Proof.
  unfold var_partition_specs. intros H.
  apply result_bind_inr in H as (u & Ha%assert_inr & H). clear u.
  apply Nat.eqb_eq in Ha. split; [done|].
  apply tree_map_inr in H. eapply Forall2_impl; [exact H|].
  intros var_p spec Hs. cbv beta in Hs. split; [exact (_get_spec_length _ _ _ Hs)|].
  unfold _get_spec in Hs.
  apply result_bind_inr in Hs as (m1 & _ & Hs).
  apply result_bind_inr in Hs as (m2 & _ & Hs).
  unfold to_partition_spec in Hs. apply _parse_split_dims_inr in Hs.
  intros x n Hx Hn.
  destruct (proj1 (list_elem_of_lookup _ _) Hx) as [i Hi].
  destruct (Forall2_lookup_r _ _ _ _ _ Hs Hi) as (d & _ & Hd).
  by eapply _parse_entry_axes.
Qed.

Lemma setitem_length {A} (l l' : list A) i v :
  setitem l i v = inr l' → length l' = length l.
Proof.
  unfold setitem. cbv zeta. destruct (_ && _); [|done].
  intros [= <-]. apply length_insert.
Qed.

Lemma mark_unconstrained_length dims : ∀ l l',
  mark_unconstrained l dims = inr l' → length l' = length l.
Proof.
  induction dims as [|dim dims IH]; intros l l'; cbn [mark_unconstrained].
  - by intros [= <-].
  - intros H. apply result_bind_inr in H as (l1 & H1 & H).
    apply IH in H. apply setitem_length in H1. congruence.
Qed.

(** X17: [maybe_shard] adds no constraint without a mapping or without mesh
    axis names, and otherwise a constraint with one entry for every
    dimension of [x]. *)
Theorem maybe_shard_rank (x_shape : list Z) (split_dims_mapping : option (list split_dim))
    (mesh_axis_names : option (list string)) (unconstrained_dims : option (list Z))
    (w : Context.world) (constraint : option (list Sharding.constraint)) :
  maybe_shard x_shape split_dims_mapping mesh_axis_names unconstrained_dims w
  = inr constraint →
  match split_dims_mapping, mesh_axis_names with
  | Some split_dims_mapping, Some _ =>
      length x_shape = length split_dims_mapping
      ∧ ∃ partition_spec,
          constraint = Some partition_spec
          ∧ length partition_spec = length x_shape
  | _, _ => constraint = None
  end.
Proof.
  unfold maybe_shard.
  destruct split_dims_mapping as [m|]; [|by intros [= <-]].
  destruct mesh_axis_names as [names|]; [|by intros [= <-]].
  intros H.
  apply result_bind_inr in H as (u & Ha%assert_inr & H). clear u.
  apply Nat.eqb_eq in Ha.
  apply result_bind_inr in H as (p1 & Hp1 & H).
  apply result_bind_inr in H as (p2 & Hp2 & H).
  apply result_bind_inr in H as (p3 & Hp3 & [= <-]).
  split; [done|]. exists p3. split; [done|].
  apply _parse_split_dims_length in Hp1.
  assert (length p2 = length p1) as L2.
  { destruct (Context.has_context w); [|by injection Hp2 as <-].
    apply result_bind_inr in Hp2 as ([c ctx] & _ & Hp2).
    destruct (Context.mesh_axes_transpose _) as [[|item items]|];
      injection Hp2 as <-; by rewrite ?length_map. }
  assert (length p3 = length p2) as L3.
  { destruct unconstrained_dims as [dims|].
    - apply mark_unconstrained_length in Hp3. by rewrite Hp3, length_map.
    - injection Hp3 as <-. by rewrite length_map. }
  congruence.
Qed.

End ShardingFacts.

Section ShardingExamples.
Import SplitDims Weights Sharding ShardingSpec.
Import Examples MoreExamples.

Lemma to_partition_spec_shape_witness :
  match to_partition_spec mixed_mapping mesh_names with
  | inr partition_spec =>
      length partition_spec = length mixed_mapping
      ∧ ∀ x n, x ∈ partition_spec → n ∈ axes_of x → n ∈ mesh_names
  | inl _ => False
  end.
Proof.
  destruct (to_partition_spec mixed_mapping mesh_names) as [e|partition_spec] eqn:E.
  - vm_compute in E. discriminate E.
  - exact (to_partition_spec_shape mixed_mapping mesh_names partition_spec E).
Defined.

Lemma to_partition_spec_idempotent_witness :
  match to_partition_spec mixed_mapping mesh_names with
  | inr partition_spec =>
      to_partition_spec (as_split_dim <$> partition_spec) mesh_names = inr partition_spec
  | inl _ => False
  end.
Proof.
  destruct (to_partition_spec mixed_mapping mesh_names) as [e|partition_spec] eqn:E.
  - vm_compute in E. discriminate E.
  - exact (to_partition_spec_idempotent mixed_mapping mesh_names partition_spec E).
Defined.

Lemma to_partition_spec_replicated_witness :
  to_partition_spec [DNone; DInt (-1); DInt (-7)] mesh_names = inr [PNone; PNone; PNone].
Proof.
  apply (to_partition_spec_replicated [DNone; DInt (-1); DInt (-7)] mesh_names).
  repeat apply Forall_cons_2; [| | |apply Forall_nil_2].
  - left. reflexivity.
  - right. exists (-1)%Z. split; reflexivity.
  - right. exists (-7)%Z. split; reflexivity.
Defined.

Lemma to_partition_spec_index_or_name_witness :
  to_partition_spec ([DNone] ++ DInt (Z.of_nat 2) :: [DInt 0]) mesh_names
  = to_partition_spec ([DNone] ++ DStr "mdl" :: [DInt 0]) mesh_names.
Proof.
  apply (to_partition_spec_index_or_name [DNone] [DInt 0] mesh_names 2 "mdl").
  reflexivity.
Defined.

Lemma get_spec_default_witness :
  _get_spec mesh_names plain_weight = inr [PNone; PNone]
  ∧ _weight_hparam_to_pspec plain_weight mesh_names = inr [PNone; PNone].
Proof.
  apply (get_spec_default mesh_names plain_weight); reflexivity.
Defined.

Lemma var_partition_specs_ranks_witness :
  match var_partition_specs [plain_weight; meta scanned_weight] [1; 2; 4]%Z mesh_names with
  | inr specs =>
      length mesh_names = length [1; 2; 4]%Z
      ∧ Forall2 (λ var_p spec,
           length spec
           = (length (contents (repeat_prefix var_p)) + length (shape var_p))%nat
           ∧ ∀ x n, x ∈ spec → n ∈ axes_of x → n ∈ mesh_names)
          [plain_weight; meta scanned_weight] specs
  | inl _ => False
  end.
Proof.
  destruct (var_partition_specs [plain_weight; meta scanned_weight] [1; 2; 4]%Z mesh_names)
    as [e|specs] eqn:E.
  - vm_compute in E. discriminate E.
  - exact (var_partition_specs_ranks _ _ _ specs E).
Defined.

Lemma maybe_shard_rank_witness :
  match maybe_shard [8; 16; 2; 4; 4]%Z (Some mixed_mapping) (Some mesh_names)
          (Some [-1]%Z) no_context with
  | inr constraint =>
      length [8; 16; 2; 4; 4]%Z = length mixed_mapping
      ∧ ∃ partition_spec,
          constraint = Some partition_spec
          ∧ length partition_spec = length [8; 16; 2; 4; 4]%Z
  | inl _ => False
  end.
Proof.
  destruct (maybe_shard [8; 16; 2; 4; 4]%Z (Some mixed_mapping) (Some mesh_names)
              (Some [-1]%Z) no_context) as [e|constraint] eqn:E.
  - vm_compute in E. discriminate E.
  - exact (maybe_shard_rank _ _ _ _ _ constraint E).
Defined.

End ShardingExamples.

(** ** Further properties: weight hparams and boxed params *)

Section WeightsFacts.
Import Tensor SplitDims Weights.

Lemma split_dim_eqb_refl d : split_dim_eqb d d = true.
Proof.
  induction d as [z|s| |l IH|l IH|t] using ShardingSpec.split_dim_ind'; simpl.
  - apply Z.eqb_refl.
  - apply String.eqb_refl.
  - done.
  - induction IH as [|x l Hx _ IHl]; [done|]. by rewrite Hx, IHl.
  - induction IH as [|x l Hx _ IHl]; [done|]. by rewrite Hx, IHl.
  - apply Nat.eqb_refl.
Qed.

Lemma one_entry_tuple_inr m t :
  one_entry_tuple m = inr t → ∃ e, t = [e].
Proof.
  destruct m as [m|]; simpl.
  - destruct (items m) as [|e [|]]; simpl; try done. intros [= <-]. eauto.
  - intros [= <-]. eauto.
Qed.

(** X18: after [WeightHParams.__post_init__] the collections are a list
    (the given one, or the empty list), the shape is unchanged, a variable
    with a mesh has a mapping with one entry for every dimension, and
    running [__post_init__] again changes nothing. *)
Theorem weight_hparams_post_init (self self' : WeightHParams) :
  __post_init__ self = inr self' →
  collections self' = Some (default [] (collections self))
  ∧ shape self' = shape self
  ∧ (is_Some (mesh_shape self) →
     ∃ m, tensor_split_dims_mapping self' = Some m
          ∧ length (items m) = length (shape self'))
  ∧ __post_init__ self' = inr self'.
Proof.
  unfold __post_init__. destruct self as [sh i d c ms tm rp rpm rom fi fo].
  destruct c as [c|], ms as [ms|], tm as [tm|]; simpl;
    rewrite ?length_replicate, ?Nat.eqb_refl; simpl.
  all: try (destruct (Nat.eqb_spec (length (items tm)) (length sh)) as [E|E];
            simpl; [|done]).
  all: intros [= <-]; simpl; rewrite ?length_replicate, ?Nat.eqb_refl; simpl.
  all: try (rewrite (proj2 (Nat.eqb_eq _ _) E); simpl).
  all: repeat split; try done.
  all: try by intros [? [=]].
  all: intros _; eexists; (split; [done|]); simpl; by rewrite ?length_replicate.
Qed.

Lemma one_entry_tuple_inl m e :
  one_entry_tuple m = inl e → e = Py.AssertionError.
Proof.
  destruct m as [m|]; simpl; [|done].
  destruct (items m) as [|? [|]]; simpl; try done; by intros [= <-].
Qed.

(** X19: for a variable whose repeat prefix is a list and whose two prefix
    mappings are tuples (or are empty), [add_axis] at index 0 returns and
    puts the scan length and the two sub-mappings in front, and
    [remove_axis] with the same metadata then returns and takes them off
    again: the entries of the three fields, the value, the shape and the
    mapping of the tensor are those of the variable before [add_axis]. *)
Theorem add_axis_remove_axis (self : BoxedParam) (metadata_params : MetadataParams)
    (wp_sub optimizer_dims_mapping : list split_dim) :
  is_initializing metadata_params = true →
  one_entry_tuple (sub_weight_split_dims_mapping metadata_params) = inr wp_sub →
  one_entry_tuple (Weights.optimizer_dims_mapping metadata_params)
    = inr optimizer_dims_mapping →
  (nonempty (repeat_prefix (meta self)) = true
   → is_list (repeat_prefix (meta self)) = true) →
  (nonempty (repeat_prefix_split_dims_mapping (meta self)) = true
   → is_tuple (repeat_prefix_split_dims_mapping (meta self)) = true) →
  (nonempty (repeat_optimizer_dims_mapping (meta self)) = true
   → is_tuple (repeat_optimizer_dims_mapping (meta self)) = true) →
  ∃ added removed,
    add_axis self 0 metadata_params = inr added
    ∧ remove_axis added 0 metadata_params = inr removed
    ∧ contents (repeat_prefix (meta added))
      = x_times metadata_params :: contents (repeat_prefix (meta self))
    ∧ contents (repeat_prefix_split_dims_mapping (meta added))
      = wp_sub ++ contents (repeat_prefix_split_dims_mapping (meta self))
    ∧ contents (repeat_optimizer_dims_mapping (meta added))
      = optimizer_dims_mapping ++ contents (repeat_optimizer_dims_mapping (meta self))
    ∧ contents (repeat_prefix (meta removed)) = contents (repeat_prefix (meta self))
    ∧ contents (repeat_prefix_split_dims_mapping (meta removed))
      = contents (repeat_prefix_split_dims_mapping (meta self))
    ∧ contents (repeat_optimizer_dims_mapping (meta removed))
      = contents (repeat_optimizer_dims_mapping (meta self))
    ∧ value removed = value self
    ∧ shape (meta removed) = shape (meta self)
    ∧ tensor_split_dims_mapping (meta removed) = tensor_split_dims_mapping (meta self).
Proof.
  intros Hi Hw Ho.
  destruct (one_entry_tuple_inr _ _ Hw) as [e ->].
  destruct (one_entry_tuple_inr _ _ Ho) as [o ->].
  destruct self as [v [sh i d c ms tm rp rpm rom fi fo]].
  unfold add_axis, remove_axis. cbn [meta value repeat_prefix
    repeat_prefix_split_dims_mapping repeat_optimizer_dims_mapping].
  rewrite Hi, Hw, Ho. cbn [negb Z.eqb mbind Py.result_bind].
  intros H1 H2 H3.
  destruct rp as [[[] [|x rp]]|]; try (by specialize (H1 eq_refl)); clear H1.
  all: destruct rpm as [[[] [|y rpm]]|]; try (by specialize (H2 eq_refl)); clear H2.
  all: destruct rom as [[[] [|z rom]]|]; try (by specialize (H3 eq_refl)); clear H3.
  all: eexists _, _;
    (split; [unfold LayerConfig.clone, set_repeat_prefix,
               set_repeat_prefix_split_dims_mapping,
               set_repeat_optimizer_dims_mapping; simpl; reflexivity|]);
    unfold LayerConfig.clone, set_repeat_prefix, set_repeat_prefix_split_dims_mapping,
      set_repeat_optimizer_dims_mapping; simpl;
    repeat (first [rewrite Z.eqb_refl | rewrite split_dim_eqb_refl]; simpl).
  all: repeat split; reflexivity.
Qed.

(** X20: [remove_axis] stores the shortened prefix mapping as a list,
    while [add_axis] and [remove_axis] assert that a mapping that is not
    empty is a tuple: after a [remove_axis] that leaves an entry in the
    mapping, both methods raise an [AssertionError] while initializing. *)
Theorem remove_axis_leaves_lists (self removed : BoxedParam)
    (metadata_params again : MetadataParams) :
  is_initializing metadata_params = true →
  remove_axis self 0 metadata_params = inr removed →
  (2 ≤ length (contents (repeat_prefix_split_dims_mapping (meta self))))%nat →
  is_initializing again = true →
  is_list (repeat_prefix_split_dims_mapping (meta removed)) = true
  ∧ remove_axis removed 0 again = inl Py.AssertionError
  ∧ add_axis removed 0 again = inl Py.AssertionError.
Proof.
  intros Hi Hr Hlen Ha.
  destruct self as [v [sh i d c ms tm rp rpm rom fi fo]].
  unfold remove_axis in Hr. rewrite Hi in Hr.
  unfold LayerConfig.clone, set_repeat_prefix, set_repeat_prefix_split_dims_mapping,
    set_repeat_optimizer_dims_mapping in Hr.
  cbn [meta value repeat_prefix repeat_prefix_split_dims_mapping
       repeat_optimizer_dims_mapping negb Z.eqb] in Hr, Hlen.
  destruct rpm as [[k [|y [|y' rpm]]]|]; cbn in Hlen; try lia. clear Hlen.
  destruct (one_entry_tuple (sub_weight_split_dims_mapping metadata_params))
    as [?|wp] eqn:Hw; [done|].
  destruct (one_entry_tuple (optimizer_dims_mapping metadata_params))
    as [?|od] eqn:Ho; [done|].
  destruct (one_entry_tuple_inr _ _ Hw) as [e ->].
  destruct (one_entry_tuple_inr _ _ Ho) as [o ->].
  cbn [mbind Py.result_bind] in Hr.
  assert (∃ rp' rom',
    removed = {| value := v;
                 meta := {| shape := sh; init := i; dtype := d; collections := c;
                            mesh_shape := ms; tensor_split_dims_mapping := tm;
                            repeat_prefix := rp';
                            repeat_prefix_split_dims_mapping :=
                              Some (PySeq list_ (y' :: rpm));
                            repeat_optimizer_dims_mapping := rom';
                            fan_in_axes := fi; fan_out_axes := fo |} |}
    ∧ (nonempty rp' = true → is_list rp' = true)) as (rp' & rom' & -> & Hrp).
  { destruct rp as [[[] [|x rp]]|], k; simpl in Hr; try done.
    all: try (destruct (x =? x_times metadata_params)%Z; simpl in Hr; [|done]).
    all: destruct (split_dim_eqb y e); simpl in Hr; [|done].
    all: destruct rom as [[[] [|z rom]]|]; simpl in Hr; try done.
    all: try (destruct (split_dim_eqb z o); simpl in Hr; [|done]).
    all: injection Hr as <-; eexists _, _; (split; [reflexivity|]); simpl; done. }
  split; [done|].
  unfold remove_axis, add_axis. rewrite Ha.
  unfold LayerConfig.clone, set_repeat_prefix, set_repeat_prefix_split_dims_mapping,
    set_repeat_optimizer_dims_mapping.
  cbn [meta value repeat_prefix repeat_prefix_split_dims_mapping
       repeat_optimizer_dims_mapping negb Z.eqb].
  destruct (one_entry_tuple (sub_weight_split_dims_mapping again)) as [e1|wp] eqn:Hw';
    [apply one_entry_tuple_inl in Hw' as ->; done|].
  destruct (one_entry_tuple (optimizer_dims_mapping again)) as [e1|od] eqn:Ho';
    [apply one_entry_tuple_inl in Ho' as ->; done|].
  cbn [mbind Py.result_bind].
  destruct (nonempty rp') eqn:Hn.
  - rewrite (Hrp eq_refl). cbn.
    destruct rp' as [[kk [|x rp']]|]; try done. cbn.
    split; [|done].
    destruct (x =? x_times again)%Z; done.
  - cbn. done.
Qed.

End WeightsFacts.

Section WeightsExamples.
Import Tensor SplitDims Weights.
Import Examples MoreExamples.

Lemma weight_hparams_post_init_witness :
  match __post_init__ mesh_weight with
  | inr self' =>
      collections self' = Some (default [] (collections mesh_weight))
      ∧ shape self' = shape mesh_weight
      ∧ (is_Some (mesh_shape mesh_weight) →
         ∃ m, tensor_split_dims_mapping self' = Some m
              ∧ length (items m) = length (shape self'))
      ∧ __post_init__ self' = inr self'
  | inl _ => False
  end.
Proof.
  destruct (__post_init__ mesh_weight) as [e|self'] eqn:E.
  - vm_compute in E. discriminate E.
  - exact (weight_hparams_post_init mesh_weight self' E).
Defined.

Lemma add_axis_remove_axis_witness :
  ∃ added removed,
    add_axis scanned_weight 0 scan_params = inr added
    ∧ remove_axis added 0 scan_params = inr removed
    ∧ contents (repeat_prefix (meta added)) = [4; 4; 2]%Z
    ∧ contents (repeat_prefix_split_dims_mapping (meta added))
      = [DInt (-1); DInt (-1); DInt 0]
    ∧ contents (repeat_optimizer_dims_mapping (meta added)) = [DInt (-1)]
    ∧ contents (repeat_prefix (meta removed)) = [4; 2]%Z
    ∧ contents (repeat_prefix_split_dims_mapping (meta removed)) = [DInt (-1); DInt 0]
    ∧ contents (repeat_optimizer_dims_mapping (meta removed)) = []
    ∧ value removed = 7%nat
    ∧ shape (meta removed) = [4; 3]%Z
    ∧ tensor_split_dims_mapping (meta removed)
      = Some (PySeq tuple_ [DInt (-1); DStr "mdl"]).
Proof.
  apply (add_axis_remove_axis scanned_weight scan_params [DInt (-1)] [DInt (-1)]).
  - reflexivity.
  - reflexivity.
  - reflexivity.
  - intros _. reflexivity.
  - intros _. reflexivity.
  - discriminate.
Defined.

Lemma remove_axis_leaves_lists_witness :
  match remove_axis scanned_weight 0 scan_params with
  | inr removed =>
      is_list (repeat_prefix_split_dims_mapping (meta removed)) = true
      ∧ remove_axis removed 0 scan_params = inl Py.AssertionError
      ∧ add_axis removed 0 scan_params = inl Py.AssertionError
  | inl _ => False
  end.
Proof.
  destruct (remove_axis scanned_weight 0 scan_params) as [e|removed] eqn:E.
  - vm_compute in E. discriminate E.
  - apply (remove_axis_leaves_lists scanned_weight removed scan_params scan_params).
    + reflexivity.
    + exact E.
    + simpl. lia.
    + reflexivity.
Defined.

End WeightsExamples.

(** ** Further properties: variables of a layer *)

Section VariablesFacts.
Import Tensor LayerConfig Weights Variables.

Lemma var_bind_inr {A B} (m : Variables.result A) (k : A → Variables.result B) b :
  m ≫= k = inr b → ∃ a, m = inr a ∧ k a = inr b.
Proof. destruct m as [e|a]; [done|]. intros H. by exists a. Qed.

Lemma var_assert_inr c u : Variables.assert c = inr u → c = true.
Proof. by destruct c. Qed.

(** X21: [BaseLayer.mesh_shape] is [None] exactly when neither mesh shape
    is set; a mesh shape that it returns has one entry for every mesh axis
    name, and is the ICI shape when there is no DCN shape; with a DCN shape
    but no ICI shape it raises a [TypeError]. *)
Theorem mesh_shape_lengths (self : BaseFields) :
  (mesh_shape self = inr None
   ↔ ici_mesh_shape self = None ∧ dcn_mesh_shape self = None)
  ∧ (∀ m, mesh_shape self = inr (Some m) →
       ∃ ici names,
         ici_mesh_shape self = Some ici
         ∧ mesh_axis_names self = Some names
         ∧ length ici = length names
         ∧ length m = length names
         ∧ (dcn_mesh_shape self = None → m = ici))
  ∧ (ici_mesh_shape self = None → is_Some (dcn_mesh_shape self) →
       mesh_shape self = inl TypeError).
Proof.
  unfold mesh_shape.
  destruct (ici_mesh_shape self) as [ici|], (mesh_axis_names self) as [names|],
    (dcn_mesh_shape self) as [dcn|]; simpl.
  all: repeat split; try done.
  all: try (by intros [? ?]); try (by intros _ [? ?]).
  all: try destruct (Nat.eqb_spec (length ici) (length names)) as [E|E]; simpl; try done.
  all: try destruct (Nat.eqb_spec (length ici) (length dcn)) as [E'|E']; simpl; try done.
  all: try (intros m [= <-]; eexists _, _; repeat split; try done).
  rewrite length_zip_with. lia.
Qed.

(** X22: the hparams that [create_variable] stores: the name is not an
    attribute of the layer, the shape is the given one, [init] and [dtype]
    are the given ones or else the layer's, and the collections are the
    given ones followed by the skip-regularization tag (only for a layer
    that skips regularization) and the non-trainable tag (only for a
    variable that is not trainable). *)
Theorem create_variable_stores (self : layer) (name : string)
    (var_hparams stored : WeightHParams) (trainable : bool) :
  create_variable self name var_hparams trainable = inr stored →
  (name ∉ attributes self)
  ∧ shape stored = shape var_hparams
  ∧ init stored
    = Some (default (params_init (fields self)) (init var_hparams))
  ∧ Weights.dtype stored
    = Some (default (LayerConfig.dtype (fields self)) (Weights.dtype var_hparams))
  ∧ ∃ c, collections stored = Some c
      ∧ default [] (collections var_hparams) `prefix_of` c
      ∧ (skip_lp_regularization (fields self) = Some true
         → SKIP_LP_REGULARIZATION ∈ c)
      ∧ (trainable = false → NON_TRAINABLE ∈ c)
      ∧ (∀ x, x ∈ c → x ∈ default [] (collections var_hparams)
                      ∨ (x = SKIP_LP_REGULARIZATION
                         ∧ skip_lp_regularization (fields self) = Some true)
                      ∨ (x = NON_TRAINABLE ∧ trainable = false)).
Proof.
  unfold create_variable, clone.
  destruct (bool_decide (name ∈ attributes self)) eqn:Hn; [done|].
  apply bool_decide_eq_false in Hn.
  intros H. apply var_bind_inr in H as (ms & _ & H).
  apply var_bind_inr in H as (_ & _ & H). injection H as <-.
  destruct var_hparams as [sh i d c m tm rp rpm rom fi fo].
  split; [done|].
  destruct i as [i|], d as [d|], c as [c|], trainable,
    (skip_lp_regularization (fields self)) as [[]|] eqn:Hs; simpl.
  all: repeat (case_bool_decide; simpl); try done.
  all: repeat split; try done.
  all: eexists; (split; [done|]).
  all: repeat split; try done.
  all: try (by apply prefix_app_r).
  all: try (by eapply prefix_app_r, prefix_app_r).
  all: try (by apply prefix_nil).
  all: try (intros; set_solver).
Qed.

End VariablesFacts.

Section VariablesExamples.
Import Tensor LayerConfig Weights Variables.
Import Examples MoreExamples.

Lemma create_variable_stores_witness :
  match create_variable skipping_layer "w" plain_weight false with
  | inr stored =>
      ("w" ∉ attributes skipping_layer)
      ∧ shape stored = shape plain_weight
      ∧ init stored
        = Some (default (params_init (fields skipping_layer)) (init plain_weight))
      ∧ Weights.dtype stored
        = Some (default (LayerConfig.dtype (fields skipping_layer))
                  (Weights.dtype plain_weight))
      ∧ ∃ c, collections stored = Some c
          ∧ default [] (collections plain_weight) `prefix_of` c
          ∧ (skip_lp_regularization (fields skipping_layer) = Some true
             → SKIP_LP_REGULARIZATION ∈ c)
          ∧ (false = false → NON_TRAINABLE ∈ c)
          ∧ (∀ x, x ∈ c → x ∈ default [] (collections plain_weight)
                          ∨ (x = SKIP_LP_REGULARIZATION
                             ∧ skip_lp_regularization (fields skipping_layer) = Some true)
                          ∨ (x = NON_TRAINABLE ∧ false = false))
  | inl _ => False
  end.
Proof.
  destruct (create_variable skipping_layer "w" plain_weight false) as [e|stored] eqn:E.
  - vm_compute in E. discriminate E.
  - exact (create_variable_stores skipping_layer "w" plain_weight stored false E).
Defined.

End VariablesExamples.

(** ** Further properties: copying fields between configs *)

Section FieldCopyFacts.
Import FieldCopy.

(** The second loop writes only under the names of the fields it treats. *)
Lemma copy_loop_other source source_fields self_fields arguments key :
  Forall (λ field, name field ≠ key) self_fields →
  (copy_loop source source_fields self_fields arguments).2 !! key = arguments !! key.
Proof.
  intros H. revert arguments.
  induction H as [|field rest Hk _ IH]; intros arguments; [done|].
  cbn [copy_loop].
  destruct (get source_fields (name field)) as [source_field|]; [|apply IH].
  destruct (__arguments__ source !! name field) as [value|].
  { rewrite IH. by apply lookup_insert_ne. }
  destruct (default source_field) as [value|].
  { rewrite IH. by apply lookup_insert_ne. }
  destruct (default_factory source_field) as [factory|]; [|done].
  case_bool_decide; [|done].
  rewrite IH. by apply lookup_delete_ne.
Qed.

Lemma field_dict_copied fields field :
  field ∈ field_dict fields → copied field = true ∧ field ∈ fields.
Proof.
  unfold field_dict. rewrite !list_elem_of_In, List.filter_In. tauto.
Qed.

Lemma copied_name field key :
  copied field = true → key ∈ ["parent"; "name"] → name field ≠ key.
Proof.
  unfold copied. rewrite andb_true_iff, negb_true_iff, bool_decide_eq_false.
  intros [_ H] Hk E. apply H. by rewrite E.
Qed.

(** X23: [copy_fields_from] never changes the arguments [name] and
    [parent] of [self], whether it returns or raises. *)
Theorem copy_fields_from_keeps_name (self source : PaxConfig)
    (missing_fields_in_self : list string) :
  (copy_fields_from self source missing_fields_in_self).2 !! "name"
  = __arguments__ self !! "name"
  ∧ (copy_fields_from self source missing_fields_in_self).2 !! "parent"
    = __arguments__ self !! "parent".
Proof.
  unfold copy_fields_from.
  destruct (check_fields _ _ _); [done|].
  split; apply copy_loop_other, Forall_forall; intros field Hf;
    apply field_dict_copied in Hf as [Hf _];
    apply (copied_name _ _ Hf); set_solver.
Qed.

Lemma copy_loop_inr source source_fields field rest arguments u :
  (copy_loop source source_fields (field :: rest) arguments).1 = inr u →
  ∃ arguments',
    copy_loop source source_fields (field :: rest) arguments
    = copy_loop source source_fields rest arguments'
    ∧ arguments' !! name field
      = match get source_fields (name field) with
        | None => arguments !! name field
        | Some source_field =>
            from_option Some (default source_field)
              (__arguments__ source !! name field)
        end
    ∧ ∀ key, key ≠ name field → arguments' !! key = arguments !! key.
Proof.
  cbn [copy_loop].
  destruct (get source_fields (name field)) as [source_field|]; [|by eauto].
  destruct (__arguments__ source !! name field) as [value|].
  { intros _. eexists. split; [done|]. split; [by rewrite lookup_insert_eq|].
    intros key Hk. by apply lookup_insert_ne. }
  destruct (default source_field) as [value|].
  { intros _. eexists. split; [done|]. split; [by rewrite lookup_insert_eq|].
    intros key Hk. by apply lookup_insert_ne. }
  destruct (default_factory source_field) as [factory|]; [|done].
  case_bool_decide; [|done].
  intros _. eexists. split; [done|]. split; [by rewrite lookup_delete_eq|].
  intros key Hk. by apply lookup_delete_ne.
Qed.

Lemma copy_loop_copies source source_fields self_fields arguments u field :
  NoDup (name <$> self_fields) →
  (copy_loop source source_fields self_fields arguments).1 = inr u →
  field ∈ self_fields →
  (copy_loop source source_fields self_fields arguments).2 !! name field
  = match get source_fields (name field) with
    | None => arguments !! name field
    | Some source_field =>
        from_option Some (default source_field) (__arguments__ source !! name field)
    end.
Proof.
  revert arguments. induction self_fields as [|f rest IH]; intros arguments Hnd Hr Hin.
  { by apply elem_of_nil in Hin. }
  rewrite fmap_cons in Hnd. apply NoDup_cons in Hnd as [Hf Hnd].
  destruct (copy_loop_inr _ _ _ _ _ _ Hr) as (arguments' & E & Hl & Ho).
  rewrite E in Hr |- *.
  destruct (decide (name field = name f)) as [En|En].
  - rewrite En in *. rewrite copy_loop_other; [done|].
    apply Forall_forall. intros g Hg Eg. apply Hf. rewrite <- Eg.
    by apply list_elem_of_fmap_2.
  - apply elem_of_cons in Hin as [->|Hin]; [done|].
    rewrite (IH _ Hnd Hr Hin).
    destruct (get source_fields (name field)); [done|].
    by apply Ho.
Qed.

Lemma check_fields_inl source_fields self_fields missing field :
  field ∈ source_fields →
  get self_fields (name field) = None →
  name field ∉ missing →
  ∃ msg, check_fields source_fields self_fields missing = inl (Py.ValueError msg).
Proof.
  induction source_fields as [|f rest IH]; intros Hin Hg Hm.
  { by apply elem_of_nil in Hin. }
  cbn [check_fields].
  destruct (bool_decide_reflect (is_Some (get self_fields (name f)))) as [H1|H1];
    destruct (bool_decide_reflect (name f ∈ missing)) as [H2|H2];
    cbn [negb andb]; try by eexists.
  all: apply elem_of_cons in Hin as [->|Hin]; [|by apply IH].
  all: try done; rewrite Hg in H1; by destruct H1.
Qed.

(** X24: when [copy_fields_from] returns, every field of [self] (other
    than [name] and [parent]) that the source also has holds the explicit
    value of the source, or else the default of the source's field, or else
    is unset (the same default factory on both sides). *)
Theorem copy_fields_from_copies (self source : PaxConfig)
    (missing_fields_in_self : list string) (field source_field : Field) :
  NoDup (name <$> fields self) →
  (copy_fields_from self source missing_fields_in_self).1 = inr () →
  field ∈ fields self →
  copied field = true →
  get (field_dict (fields source)) (name field) = Some source_field →
  (copy_fields_from self source missing_fields_in_self).2 !! name field
  = from_option Some (default source_field) (__arguments__ source !! name field).
Proof.
  unfold copy_fields_from, LayerConfig.clone.
  intros Hnd Hr Hin Hc Hg.
  destruct (check_fields _ _ _); [done|].
  erewrite copy_loop_copies; [by rewrite Hg| |done|].
  - unfold field_dict. clear -Hnd.
    induction (fields self) as [|f l IH]; [constructor|].
    rewrite fmap_cons in Hnd. apply NoDup_cons in Hnd as [Hf Hnd].
    cbn [List.filter]. destruct (copied f); [|by apply IH].
    rewrite fmap_cons. apply NoDup_cons. split; [|by apply IH].
    intros Hx. apply Hf. apply list_elem_of_fmap in Hx as (g & -> & Hg).
    apply list_elem_of_In, List.filter_In in Hg as [Hg _].
    apply list_elem_of_fmap_2. by apply list_elem_of_In.
  - unfold field_dict. apply list_elem_of_In, List.filter_In.
    split; [by apply list_elem_of_In|done].
Qed.

(** X25: a field of the source that [self] does not have and that is not
    listed in [missing_fields_in_self] makes [copy_fields_from] raise a
    [ValueError] before anything is copied. *)
Theorem copy_fields_from_incompatible (self source : PaxConfig)
    (missing_fields_in_self : list string) (field : Field) :
  field ∈ fields source →
  copied field = true →
  (∀ self_field, self_field ∈ fields self → copied self_field = true →
                 name self_field ≠ name field) →
  name field ∉ missing_fields_in_self →
  ∃ msg, copy_fields_from self source missing_fields_in_self
         = (inl (Py.ValueError msg), __arguments__ self).
Proof.
  intros Hin Hc Hno Hm. unfold copy_fields_from, LayerConfig.clone.
  destruct (check_fields_inl (field_dict (fields source)) (field_dict (fields self))
              missing_fields_in_self field) as [msg ->]; [| |done|by eexists].
  - unfold field_dict. apply list_elem_of_In, List.filter_In.
    split; [by apply list_elem_of_In|done].
  - unfold get. destruct (List.find _ _) as [g|] eqn:Hf; [|done].
    apply List.find_some in Hf as [Hg Hn].
    apply List.filter_In in Hg as [Hg Hcg]. apply bool_decide_eq_true in Hn.
    destruct (Hno g); [by apply list_elem_of_In|done|done].
Qed.

End FieldCopyFacts.

Section FieldCopyExamples.
Import FieldCopy.
Import Examples MoreExamples.

Lemma copy_fields_from_copies_witness :
  (copy_fields_from (linear_config "fc" (Some 8%Z)) (linear_config "src" None) []).2
    !! "dims"
  = Some (Fiddle.Atom (Fiddle.AInt 0)).
Proof.
  apply (copy_fields_from_copies (linear_config "fc" (Some 8%Z)) (linear_config "src" None)
           [] dims_field dims_field).
  - apply (bool_decide_unpack (NoDup ["name"; "dims"])). vm_compute. exact I.
  - vm_compute. reflexivity.
  - set_solver.
  - reflexivity.
  - reflexivity.
Defined.

Lemma copy_fields_from_incompatible_witness :
  ∃ msg, copy_fields_from (linear_config "fc" (Some 8%Z)) biased_config []
         = (inl (Py.ValueError msg), __arguments__ (linear_config "fc" (Some 8%Z))).
Proof.
  apply (copy_fields_from_incompatible (linear_config "fc" (Some 8%Z)) biased_config []
           bias_field).
  - set_solver.
  - reflexivity.
  - intros self_field Hin _ E.
    apply elem_of_cons in Hin as [->|Hin]; [discriminate E|].
    apply elem_of_cons in Hin as [->|Hin]; [discriminate E|].
    by apply elem_of_nil in Hin.
  - apply not_elem_of_nil.
Defined.

End FieldCopyExamples.

(** ** Further properties: child layers *)

Section ChildrenFacts.
Import LayerConfig CopyDown Context Children.

Lemma py_bind_inr {A B} (m : Py.result A) (k : A → Py.result B) b :
  m ≫= k = inr b → ∃ a, m = inr a ∧ k a = inr b.
Proof. destruct m as [e|a]; [done|]. intros H. by exists a. Qed.

Lemma instantiate_wrapper_stack name cld_tpl w :
  stack (instantiate_wrapper name cld_tpl w).2 = stack w.
Proof. done. Qed.

Lemma instantiate_layer_stack layer_p scope w child w' :
  instantiate_layer layer_p scope w = inr (child, w') → stack w' = stack w.
Proof.
  unfold instantiate_layer.
  destruct (truthy _); [|by intros [= _ <-]].
  intros H. apply py_bind_inr in H as (current & _ & H).
  apply py_bind_inr in H as (jax_context & _ & H).
  destruct (lookup_shared_layer _ _ _) as [pre|].
  - apply py_bind_inr in H as (_ & _ & H). by injection H as _ <-.
  - destruct (instantiate_wrapper _ _ w) as [wrapper w1] eqn:Hw.
    apply py_bind_inr in H as (ctx & _ & H). injection H as _ <-.
    cbn [stack]. change w1 with (wrapper, w1).2. rewrite <- Hw.
    apply instantiate_wrapper_stack.
Qed.

Lemma instantiate_layer_unshared layer_p scope w :
  truthy (shared_weight_layer_id (base layer_p)) = false →
  instantiate_layer layer_p scope w = inr (Instantiate layer_p w).
Proof. unfold instantiate_layer. by intros ->. Qed.

Lemma child_config_base self name params :
  LayerConfig.name (base (child_config self name params)) = Some name
  ∧ shared_weight_layer_id (base (child_config self name params))
    = shared_weight_layer_id (base params).
Proof.
  rewrite child_config_root. cbn [base]. split; [done|].
  destruct (copy_other_fields self (base params)) as (_ & _ & <-).
  by destruct (_copy_base_hparams self (base params)).
Qed.

Lemma _create_child_inr self name params w child self' w' :
  _create_child self name params w = inr (child, self', w') →
  instantiate_layer (child_config (base (self_fields self)) name params)
    (scope_root self) w = inr (child, w')
  ∧ self' = set_private_children (<[name := child]> (_private_children self)) self.
Proof.
  unfold _create_child. cbv zeta. cbn [negb].
  intros H. apply py_bind_inr in H as ([c w1] & Hi & H).
  by injection H as -> <- ->.
Qed.

(** X26: when [create_child] returns, the name is not a field of the
    parent, the child is registered in [_private_children] under the name
    and, in [setup], set as an attribute; the stack of contexts is
    unchanged; a child without a shared-weight id is a new layer object
    whose config is the copied-down config, with [name] set to the name. *)
Theorem create_child_registers (self : layer) (name : string) (params : layer_p)
    (w : world) (child : layer_obj) (self' : layer) (w' : world) :
  create_child self name params w = inr (child, self', w') →
  (name ∉ _hparam_fields self)
  ∧ _private_children self' = <[name := child]> (_private_children self)
  ∧ attributes self'
    = (if in_setup self then <[name := Child child]> (attributes self)
       else attributes self)
  ∧ self_fields self' = self_fields self
  ∧ stack w' = stack w
  ∧ (truthy (shared_weight_layer_id (base params)) = false →
     layer_hparams child = child_config (base (self_fields self)) name params
     ∧ LayerConfig.name (base (layer_hparams child)) = Some name
     ∧ layer_uid child = next_uid w).
Proof.
  unfold create_child, _check_child_layername_conflict.
  case_bool_decide as Hn; [done|]. cbn [mbind Py.result_bind mret Py.result_ret].
  intros H. apply py_bind_inr in H as ([[c s1] w1] & Hc & H).
  apply _create_child_inr in Hc as [Hi ->].
  injection H as <- <- <-.
  split; [done|].
  cbn [in_setup set_private_children].
  repeat split.
  - by destruct (in_setup self).
  - by destruct (in_setup self).
  - by destruct (in_setup self).
  - by eapply instantiate_layer_stack.
  - rewrite instantiate_layer_unshared in Hi
      by (by rewrite (proj2 (child_config_base _ _ _))).
    by injection Hi as <- _.
  - rewrite instantiate_layer_unshared in Hi
      by (by rewrite (proj2 (child_config_base _ _ _))).
    injection Hi as <- _. apply child_config_base.
  - rewrite instantiate_layer_unshared in Hi
      by (by rewrite (proj2 (child_config_base _ _ _))).
    by injection Hi as <- _.
Qed.

Lemma child_name_inj name (i j : nat) :
  name +:+ "_" +:+ PyStr.str i = name +:+ "_" +:+ PyStr.str j → i = j.
Proof.
  intros H. apply append_inj_l in H. apply (append_inj_l "_") in H.
  by apply str_inj.
Qed.

Lemma create_children_loop_inr params : ∀ self name uid w children self' w',
  create_children_loop self name uid params w = inr (children, self', w') →
  length children = length params
  ∧ (∀ i child, children !! i = Some child →
       _private_children self' !! (name +:+ "_" +:+ PyStr.str (uid + i)) = Some child)
  ∧ (∀ key, (∀ i, key ≠ name +:+ "_" +:+ PyStr.str (uid + i)) →
       _private_children self' !! key = _private_children self !! key)
  ∧ attributes self' = attributes self
  ∧ in_setup self' = in_setup self
  ∧ self_fields self' = self_fields self
  ∧ stack w' = stack w.
Proof.
  induction params as [|p params IH]; intros self name uid w children self' w' H.
  { injection H as <- <- <-. repeat split; try done. }
  cbn [create_children_loop] in H.
  apply py_bind_inr in H as ([[c s1] w1] & Hc & H).
  apply py_bind_inr in H as ([[cs s2] w2] & Hl & H).
  injection H as <- <- <-.
  apply _create_child_inr in Hc as [Hi ->].
  apply IH in Hl as (Hlen & Hreg & Hkeep & Ha & Hs & Hf & Hst).
  cbn [_private_children set_private_children attributes in_setup self_fields]
    in Hkeep, Ha, Hs, Hf.
  repeat split; try done.
  - cbn [length]. by rewrite Hlen.
  - intros [|i] child Hc.
    + injection Hc as <-. rewrite Hkeep.
      * rewrite Nat.add_0_r. apply lookup_insert_eq.
      * intros i E. apply child_name_inj in E. lia.
    + replace (uid + S i)%nat with (S uid + i)%nat by lia. by apply Hreg.
  - intros key Hk. rewrite Hkeep.
    + apply lookup_insert_ne. specialize (Hk 0%nat). rewrite Nat.add_0_r in Hk. done.
    + intros i. replace (S uid + i)%nat with (uid + S i)%nat by lia. apply Hk.
  - rewrite Hst. by eapply instantiate_layer_stack.
Qed.

(** X27: when [create_children] returns, there is one child per config,
    the i-th registered in [_private_children] under [name_i]; nothing is
    registered under [name] itself, which in [setup] becomes an attribute
    holding the list. *)
Theorem create_children_registers (self : layer) (name : string)
    (params : list layer_p) (w : world) (children : list layer_obj)
    (self' : layer) (w' : world) :
  create_children self name params w = inr (children, self', w') →
  (name ∉ _hparam_fields self)
  ∧ length children = length params
  ∧ (∀ i child, children !! i = Some child →
       _private_children self' !! (name +:+ "_" +:+ PyStr.str i) = Some child)
  ∧ _private_children self' !! name = _private_children self !! name
  ∧ attributes self'
    = (if in_setup self then <[name := ChildList children]> (attributes self)
       else attributes self)
  ∧ stack w' = stack w.
Proof.
  unfold create_children, _check_child_layername_conflict. cbv zeta.
  case_bool_decide as Hn; [done|]. cbn [mbind Py.result_bind mret Py.result_ret].
  intros H. apply py_bind_inr in H as ([[cs s1] w1] & Hl & H).
  injection H as <- <- <-.
  apply create_children_loop_inr in Hl as (Hlen & Hreg & Hkeep & Ha & Hs & Hf & Hst).
  split; [done|]. split; [done|].
  assert (_private_children (if in_setup s1 then setattr name (ChildList cs) s1 else s1)
          = _private_children s1) as Hp by (by destruct (in_setup s1)).
  rewrite Hp. repeat split; try done.
  - apply Hkeep. intros i E.
    assert (String.length name
            = String.length (name +:+ "_" +:+ PyStr.str (0 + i))) as L by by rewrite <- E.
    rewrite !length_append in L. cbn in L. lia.
  - rewrite Hs. destruct (in_setup self); cbn [attributes setattr]; by rewrite Ha.
Qed.

End ChildrenFacts.

Section ChildrenExamples.
Import LayerConfig CopyDown Context Children.
Import Examples MoreExamples.

Lemma create_child_registers_witness :
  match create_child parent_layer "fc" sets_float32 no_context with
  | inr (child, self', w') =>
      ("fc" ∉ _hparam_fields parent_layer)
      ∧ _private_children self' = <["fc" := child]> (_private_children parent_layer)
      ∧ attributes self'
        = (if in_setup parent_layer
           then <["fc" := Child child]> (attributes parent_layer)
           else attributes parent_layer)
      ∧ self_fields self' = self_fields parent_layer
      ∧ stack w' = stack no_context
      ∧ (truthy (shared_weight_layer_id (base sets_float32)) = false →
         layer_hparams child
         = child_config (base (self_fields parent_layer)) "fc" sets_float32
         ∧ LayerConfig.name (base (layer_hparams child)) = Some "fc"
         ∧ layer_uid child = next_uid no_context)
  | inl _ => False
  end.
Proof.
  destruct (create_child parent_layer "fc" sets_float32 no_context)
    as [e|[[child self'] w']] eqn:E.
  - vm_compute in E. discriminate E.
  - exact (create_child_registers parent_layer "fc" sets_float32 no_context
             child self' w' E).
Defined.

Lemma create_children_registers_witness :
  match create_children parent_layer "layers" [sets_float32; sets_float32] no_context with
  | inr (children, self', w') =>
      ("layers" ∉ _hparam_fields parent_layer)
      ∧ length children = length [sets_float32; sets_float32]
      ∧ (∀ i child, children !! i = Some child →
           _private_children self' !! ("layers" +:+ "_" +:+ PyStr.str i) = Some child)
      ∧ _private_children self' !! "layers" = _private_children parent_layer !! "layers"
      ∧ attributes self'
        = (if in_setup parent_layer
           then <["layers" := ChildList children]> (attributes parent_layer)
           else attributes parent_layer)
      ∧ stack w' = stack no_context
  | inl _ => False
  end.
Proof.
  destruct (create_children parent_layer "layers" [sets_float32; sets_float32] no_context)
    as [e|[[children self'] w']] eqn:E.
  - vm_compute in E. discriminate E.
  - exact (create_children_registers parent_layer "layers" [sets_float32; sets_float32]
             no_context children self' w' E).
Defined.

End ChildrenExamples.
